(** * removebg: a model of the browser application and of the model downloader

    The development follows the two programs of the repository:

    - [src/main.js], the single-page application: the validation gate of
      [handleFiles], the asynchronous [processImage] pipeline, the store of
      processed images with its cursor, the comparison slider, the download
      action and the keyboard shortcuts;
    - [scripts/download-models.js], the build-time script that fetches the
      manifest and the chunks of the model.

    JavaScript runs one job at a time.  An [async] function is therefore
    modelled as a task with a program point: every job (a DOM event handler,
    or the continuation that runs when an awaited promise settles) is one
    step of a deterministic transition function, and the order in which the
    browser delivers events and settles promises is the list of events given
    to [run].

    Numbers that the code uses as integers ([File.size], indices, counters)
    are [Z] or [nat]; the pointer coordinates of the slider are exact
    rationals, so the rounding of IEEE doubles is not part of the model. *)

From Stdlib Require Import ZArith QArith Qminmax Lqa String Ascii List Lia Bool.
From stdpp Require Import base list strings gmap.

Local Open Scope string_scope.

(** ** The suggested file name: [name.replace(/\.[^/.]+$/, '') + '_nobg.png'] *)

Module Naming.

(** The character class [[^/.]]. *)
Definition in_ext_class (c : ascii) : bool :=
  negb (Ascii.eqb c "/") && negb (Ascii.eqb c ".").

(** [[^/.]*$]: every remaining character is in the class. *)
Fixpoint all_ext_class (s : string) : bool :=
  match s with
  | EmptyString => true
  | String c r => in_ext_class c && all_ext_class r
  end.

(** Does [/\.[^/.]+$/] match with the match starting at the head of [s]?
    Because of the anchor the match, if any, runs to the end of [s]. *)
Definition ext_matches_here (s : string) : bool :=
  match s with
  | String c (String d r) =>
      Ascii.eqb c "." && in_ext_class d && all_ext_class r
  | _ => false
  end.

(** [s.replace(/\.[^/.]+$/, '')]: the regular expression is not global, so
    the leftmost match is replaced; start positions are tried from the
    left, and a match always extends to the end of the string. *)
Fixpoint replace_ext (s : string) : string :=
  if ext_matches_here s then EmptyString
  else match s with
       | EmptyString => EmptyString
       | String c r => String c (replace_ext r)
       end.

(** [file.name.replace(/\.[^/.]+$/, '') + '_nobg.png'] *)
Definition nobgName (name : string) : string :=
  replace_ext name +:+ "_nobg.png".

(** An extension in the words of the specification: one or more characters,
    none of them a dot or a slash. *)
Definition is_extension (ext : string) : Prop :=
  ext <> EmptyString /\
  forall c, In c (list_ascii_of_string ext) -> c <> "."%char /\ c <> "/"%char.

End Naming.


(** ** The application state of [main.js] *)

Module App.

(** A [File] as the code reads it: [file.name], [file.type], [file.size]. *)
Record File := { file_name : string; file_type : string; file_size : Z }.

(** The bytes of a result; the code never looks inside. *)
Definition Blob := list Byte.byte.

(** What an object URL refers to, and the URL itself: [URL.createObjectURL]
    returns a fresh URL each time it is called. *)
Inductive BlobSource :=
| OfFile (f : File)
| OfBlob (b : Blob).

Record URL := { url_id : nat; url_source : BlobSource }.

(** [imageData] of [processImage]. *)
Record ImageRecord := {
  original : URL;
  result : URL;
  resultBlob : Blob;
  name : string
}.

(** A thrown value other than [null] and [undefined], as the [catch]
    blocks read it: [error.message], which is [None] when the value has no
    such property. *)
Record JsError := { message : option string }.

(** What a promise is rejected with.  Of [null] and [undefined] no property
    can be read: [error.message] throws a [TypeError], whose message, chosen
    by the engine, is [typeErrorMessage]. *)
Inductive Thrown :=
| Nullish (typeErrorMessage : string)
| Value (e : JsError).

(** *** The elements of the page that the code writes *)

Inductive Display := DisplayDefault | DisplayBlock | DisplayNone.

Record UploadZone := { uz_display : Display; uz_dragOver : bool }.

Record Processing := {
  pr_active : bool;
  processingText : string;
  processingSubtext : string;
  progressFill : Z
}.

Record ResultView := {
  rv_active : bool;
  originalImage : option URL;
  resultImage : option URL;
  sliderLine_left : option Q;
  imageBefore_inset : option Q
}.

Record ErrorBox := { er_active : bool; er_text : string }.

(** One rendered entry of the queue list; its click handler has captured
    [qi_index]. *)
Record QueueItem := { qi_index : nat; qi_active : bool; qi_src : URL }.

Record QueueView := { qv_active : bool; queueList : list QueueItem }.

(** *** Suspended [processImage] calls *)

(** Where a [processImage] call is suspended. *)
Inductive Pc :=
| AtImport                         (* initializeModel awaits import(...) *)
| AtInit                           (* initializeModel has returned *)
| AtInitFailed (e : JsError)       (* initializeModel has thrown e *)
| AtInference (originalUrl : URL). (* awaits removeBackgroundFn(file, config) *)

Record Task := { task_id : nat; task_file : File; task_pc : Pc }.

(** A [processRemainingFiles] loop suspended at [await processImage(file)]. *)
Record Loop := { loop_awaits : nat; loop_rest : list File }.

(** *** Effects that leave the page *)

Record Effects := {
  shownErrors : list string;         (* every message given to showError *)
  consoleErrors : list Thrown;       (* console.error in processImage *)
  downloads : list (URL * string)    (* (link.href, link.download) clicked *)
}.

Record State := {
  (* module state *)
  removeBackgroundFn : bool;         (* true once the function is stored *)
  modelLoaded : bool;
  processedImages : list ImageRecord;
  currentImageIndex : Z;
  isDragging : bool;
  (* DOM *)
  uploadZone : UploadZone;
  processing : Processing;
  resultContainer : ResultView;
  errorMessage : ErrorBox;
  queueContainer : QueueView;
  (* the event loop *)
  tasks : list Task;
  loops : list Loop;
  nextTask : nat;
  nextUrl : nat;
  effects : Effects
}.

Definition initial : State := {|
  removeBackgroundFn := false;
  modelLoaded := false;
  processedImages := [];
  currentImageIndex := (-1)%Z;
  isDragging := false;
  uploadZone := {| uz_display := DisplayDefault; uz_dragOver := false |};
  processing := {| pr_active := false; processingText := "";
                   processingSubtext := ""; progressFill := 0%Z |};
  resultContainer := {| rv_active := false; originalImage := None;
                        resultImage := None; sliderLine_left := None;
                        imageBefore_inset := None |};
  errorMessage := {| er_active := false; er_text := "" |};
  queueContainer := {| qv_active := false; queueList := [] |};
  tasks := [];
  loops := [];
  nextTask := 0;
  nextUrl := 0;
  effects := {| shownErrors := []; consoleErrors := []; downloads := [] |}
|}.

(** *** Field updates *)

Definition with_module (fn loaded : bool) (imgs : list ImageRecord) (cur : Z)
    (drag : bool) (s : State) : State :=
  {| removeBackgroundFn := fn; modelLoaded := loaded;
     processedImages := imgs; currentImageIndex := cur; isDragging := drag;
     uploadZone := uploadZone s; processing := processing s;
     resultContainer := resultContainer s; errorMessage := errorMessage s;
     queueContainer := queueContainer s;
     tasks := tasks s; loops := loops s; nextTask := nextTask s;
     nextUrl := nextUrl s; effects := effects s |}.

Definition with_uploadZone (u : UploadZone) (s : State) : State :=
  {| removeBackgroundFn := removeBackgroundFn s; modelLoaded := modelLoaded s;
     processedImages := processedImages s;
     currentImageIndex := currentImageIndex s; isDragging := isDragging s;
     uploadZone := u; processing := processing s;
     resultContainer := resultContainer s; errorMessage := errorMessage s;
     queueContainer := queueContainer s;
     tasks := tasks s; loops := loops s; nextTask := nextTask s;
     nextUrl := nextUrl s; effects := effects s |}.

Definition with_processing (p : Processing) (s : State) : State :=
  {| removeBackgroundFn := removeBackgroundFn s; modelLoaded := modelLoaded s;
     processedImages := processedImages s;
     currentImageIndex := currentImageIndex s; isDragging := isDragging s;
     uploadZone := uploadZone s; processing := p;
     resultContainer := resultContainer s; errorMessage := errorMessage s;
     queueContainer := queueContainer s;
     tasks := tasks s; loops := loops s; nextTask := nextTask s;
     nextUrl := nextUrl s; effects := effects s |}.

Definition with_resultContainer (r : ResultView) (s : State) : State :=
  {| removeBackgroundFn := removeBackgroundFn s; modelLoaded := modelLoaded s;
     processedImages := processedImages s;
     currentImageIndex := currentImageIndex s; isDragging := isDragging s;
     uploadZone := uploadZone s; processing := processing s;
     resultContainer := r; errorMessage := errorMessage s;
     queueContainer := queueContainer s;
     tasks := tasks s; loops := loops s; nextTask := nextTask s;
     nextUrl := nextUrl s; effects := effects s |}.

Definition with_errorMessage (e : ErrorBox) (s : State) : State :=
  {| removeBackgroundFn := removeBackgroundFn s; modelLoaded := modelLoaded s;
     processedImages := processedImages s;
     currentImageIndex := currentImageIndex s; isDragging := isDragging s;
     uploadZone := uploadZone s; processing := processing s;
     resultContainer := resultContainer s; errorMessage := e;
     queueContainer := queueContainer s;
     tasks := tasks s; loops := loops s; nextTask := nextTask s;
     nextUrl := nextUrl s; effects := effects s |}.

Definition with_queueContainer (q : QueueView) (s : State) : State :=
  {| removeBackgroundFn := removeBackgroundFn s; modelLoaded := modelLoaded s;
     processedImages := processedImages s;
     currentImageIndex := currentImageIndex s; isDragging := isDragging s;
     uploadZone := uploadZone s; processing := processing s;
     resultContainer := resultContainer s; errorMessage := errorMessage s;
     queueContainer := q;
     tasks := tasks s; loops := loops s; nextTask := nextTask s;
     nextUrl := nextUrl s; effects := effects s |}.

Definition with_sched (ts : list Task) (ls : list Loop) (nt nu : nat)
    (s : State) : State :=
  {| removeBackgroundFn := removeBackgroundFn s; modelLoaded := modelLoaded s;
     processedImages := processedImages s;
     currentImageIndex := currentImageIndex s; isDragging := isDragging s;
     uploadZone := uploadZone s; processing := processing s;
     resultContainer := resultContainer s; errorMessage := errorMessage s;
     queueContainer := queueContainer s;
     tasks := ts; loops := ls; nextTask := nt; nextUrl := nu;
     effects := effects s |}.

Definition with_effects (e : Effects) (s : State) : State :=
  {| removeBackgroundFn := removeBackgroundFn s; modelLoaded := modelLoaded s;
     processedImages := processedImages s;
     currentImageIndex := currentImageIndex s; isDragging := isDragging s;
     uploadZone := uploadZone s; processing := processing s;
     resultContainer := resultContainer s; errorMessage := errorMessage s;
     queueContainer := queueContainer s;
     tasks := tasks s; loops := loops s; nextTask := nextTask s;
     nextUrl := nextUrl s; effects := e |}.

Definition set_currentImageIndex (i : Z) (s : State) : State :=
  with_module (removeBackgroundFn s) (modelLoaded s) (processedImages s) i
    (isDragging s) s.

Definition set_isDragging (b : bool) (s : State) : State :=
  with_module (removeBackgroundFn s) (modelLoaded s) (processedImages s)
    (currentImageIndex s) b s.

Definition set_tasks (ts : list Task) (s : State) : State :=
  with_sched ts (loops s) (nextTask s) (nextUrl s) s.

Definition set_loops (ls : list Loop) (s : State) : State :=
  with_sched (tasks s) ls (nextTask s) (nextUrl s) s.

Definition set_display (d : Display) (u : UploadZone) : UploadZone :=
  {| uz_display := d; uz_dragOver := uz_dragOver u |}.

Definition set_dragOver (b : bool) (u : UploadZone) : UploadZone :=
  {| uz_display := uz_display u; uz_dragOver := b |}.

Definition set_pr_active (b : bool) (p : Processing) : Processing :=
  {| pr_active := b; processingText := processingText p;
     processingSubtext := processingSubtext p;
     progressFill := progressFill p |}.

Definition set_texts (t sub : string) (p : Processing) : Processing :=
  {| pr_active := pr_active p; processingText := t;
     processingSubtext := sub; progressFill := progressFill p |}.

Definition set_progressFill (w : Z) (p : Processing) : Processing :=
  {| pr_active := pr_active p; processingText := processingText p;
     processingSubtext := processingSubtext p; progressFill := w |}.

Definition set_rv_active (b : bool) (r : ResultView) : ResultView :=
  {| rv_active := b; originalImage := originalImage r;
     resultImage := resultImage r; sliderLine_left := sliderLine_left r;
     imageBefore_inset := imageBefore_inset r |}.

Definition set_srcs (o r' : URL) (r : ResultView) : ResultView :=
  {| rv_active := rv_active r; originalImage := Some o;
     resultImage := Some r'; sliderLine_left := sliderLine_left r;
     imageBefore_inset := imageBefore_inset r |}.

Definition set_slider (left inset : Q) (r : ResultView) : ResultView :=
  {| rv_active := rv_active r; originalImage := originalImage r;
     resultImage := resultImage r; sliderLine_left := Some left;
     imageBefore_inset := Some inset |}.

(** ** The functions of [main.js] *)

(** *** UI state management (lines 108-148) *)

Definition showProcessing (s : State) : State :=
  let s := with_uploadZone (set_display DisplayNone (uploadZone s)) s in
  let s := with_processing (set_pr_active true (processing s)) s in
  with_resultContainer (set_rv_active false (resultContainer s)) s.

Definition hideProcessing (s : State) : State :=
  with_processing (set_pr_active false (processing s)) s.

Definition showUpload (s : State) : State :=
  let s := with_uploadZone (set_display DisplayBlock (uploadZone s)) s in
  with_resultContainer (set_rv_active false (resultContainer s)) s.

Definition showError (msg : string) (s : State) : State :=
  let s := with_errorMessage {| er_active := true; er_text := msg |} s in
  with_effects {| shownErrors := shownErrors (effects s) ++ [msg];
                  consoleErrors := consoleErrors (effects s);
                  downloads := downloads (effects s) |} s.

Definition hideError (s : State) : State :=
  with_errorMessage {| er_active := false;
                       er_text := er_text (errorMessage s) |} s.

Definition updateProgress (percentage : Z) (s : State) : State :=
  with_processing (set_progressFill percentage (processing s)) s.

Definition console_error (e : Thrown) (s : State) : State :=
  with_effects {| shownErrors := shownErrors (effects s);
                  consoleErrors := consoleErrors (effects s) ++ [e];
                  downloads := downloads (effects s) |} s.

(** *** The comparison slider (lines 150-203) *)

(** [comparisonContainer.getBoundingClientRect()], as far as it is read. *)
Record Rect := { rect_left : Q; rect_width : Q }.

(** [Math.max(0, Math.min(100, percentage))] *)
Definition clampedPercentage (percentage : Q) : Q :=
  Qmax 0 (Qmin 100 percentage).

Definition setSliderPosition (percentage : Q) (s : State) : State :=
  let c := clampedPercentage percentage in
  with_resultContainer (set_slider c (100 - c)%Q (resultContainer s)) s.

(** [(clientX - rect.left) / rect.width * 100] *)
Definition pointerPercentage (clientX : Q) (rect : Rect) : Q :=
  ((clientX - rect_left rect) / rect_width rect * 100)%Q.

Definition handleSliderMove (clientX : Q) (rect : Rect) (s : State) : State :=
  setSliderPosition (pointerPercentage clientX rect) s.

(** *** Showing a result and the queue list *)

(** Lines 125-126 of [showResult], which run before [imageData] is read. *)
Definition showResult_enter (s : State) : State :=
  let s := hideProcessing s in
  with_uploadZone (set_display DisplayNone (uploadZone s)) s.

Definition showResult (imageData : ImageRecord) (s : State) : State :=
  let s := showResult_enter s in
  let s := with_resultContainer
             (set_srcs (original imageData) (result imageData)
                (resultContainer s)) s in
  let s := setSliderPosition 50 s in
  with_resultContainer (set_rv_active true (resultContainer s)) s.

Definition renderItem (cur : Z) (index : nat) (img : ImageRecord) : QueueItem :=
  {| qi_index := index;
     qi_active := (Z.of_nat index =? cur)%Z;
     qi_src := result img |}.

Definition updateQueue (s : State) : State :=
  if (length (processedImages s) <=? 1)%nat then
    with_queueContainer
      {| qv_active := false; queueList := queueList (queueContainer s) |} s
  else
    with_queueContainer
      {| qv_active := true;
         queueList := imap (renderItem (currentImageIndex s))
                        (processedImages s) |} s.

(** [processedImages[i]] for a number [i]. *)
Definition imageAt (s : State) (i : Z) : option ImageRecord :=
  if (i <? 0)%Z then None else processedImages s !! Z.to_nat i.

(** [showResult(processedImages[i]); updateQueue();] -- when the array has
    no element at [i], reading [imageData.original] throws after lines
    125-126 and the handler ends there. *)
Definition showAt (i : Z) (s : State) : State :=
  match imageAt s i with
  | Some img => updateQueue (showResult img s)
  | None => showResult_enter s
  end.

(** *** [initializeModel] and [processImage] (lines 28-106) *)

Definition createObjectURL (src : BlobSource) (s : State) : URL * State :=
  ({| url_id := nextUrl s; url_source := src |},
   with_sched (tasks s) (loops s) (nextTask s) (S (nextUrl s)) s).

(** [initializeModel] up to its first suspension. *)
Definition initializeModel_start (s : State) : Pc * State :=
  if removeBackgroundFn s then (AtInit, s)
  else
    let s := updateProgress 0 s in
    let s := with_processing
               (set_texts "Loading AI model..."
                  (if modelLoaded s then "Preparing..."
                   else "First time may take a moment")
                  (processing s)) s in
    (AtImport, s).

(** Lines 38-40, when the import has resolved. *)
Definition initializeModel_loaded (s : State) : State :=
  let s := with_module true true (processedImages s) (currentImageIndex s)
             (isDragging s) s in
  updateProgress 10 s.

(** ['...' + error.message] *)
Definition message_text (e : JsError) : string :=
  match message e with Some m => m | None => "undefined" end.

(** Line 42: the error thrown when the import has been rejected with
    [error]: the new [Error], or the [TypeError] of [error.message]. *)
Definition initializeModel_error (error : Thrown) : JsError :=
  match error with
  | Value e =>
      {| message := Some ("Failed to load background removal model: "
                          +:+ message_text e) |}
  | Nullish typeErrorMessage => {| message := Some typeErrorMessage |}
  end.

Definition find_task (tid : nat) (s : State) : option Task :=
  List.find (fun t => Nat.eqb (task_id t) tid) (tasks s).

Definition set_pc (tid : nat) (pc : Pc) (s : State) : State :=
  set_tasks
    (map (fun t => if Nat.eqb (task_id t) tid
                   then {| task_id := tid; task_file := task_file t;
                           task_pc := pc |}
                   else t) (tasks s)) s.

Definition finish_task (tid : nat) (s : State) : State :=
  set_tasks (List.filter (fun t => negb (Nat.eqb (task_id t) tid)) (tasks s)) s.

(** [processImage(file)] up to [await initializeModel()]. *)
Definition processImage_start (file : File) (s : State) : nat * State :=
  let s := hideError (showProcessing s) in
  let '(pc, s) := initializeModel_start s in
  let tid := nextTask s in
  (tid,
   with_sched (tasks s ++ [{| task_id := tid; task_file := file;
                              task_pc := pc |}])
     (loops s) (S tid) (nextUrl s) s).

(** Lines 54-78: from the return of [initializeModel] to the call of
    [removeBackgroundFn(file, config)]. *)
Definition processImage_infer (t : Task) (s : State) : State :=
  let s := with_processing
             (set_texts "Processing image..."
                "Analyzing and removing background" (processing s)) s in
  let s := updateProgress 20 s in
  let '(originalUrl, s) := createObjectURL (OfFile (task_file t)) s in
  set_pc (task_id t) (AtInference originalUrl) s.

(** Lines 79-98: the inference has returned [resultBlob]. *)
Definition processImage_done (t : Task) (originalUrl : URL) (blob : Blob)
    (s : State) : State :=
  let s := updateProgress 95 s in
  let '(resultUrl, s) := createObjectURL (OfBlob blob) s in
  let s := updateProgress 100 s in
  let imageData :=
    {| original := originalUrl; result := resultUrl; resultBlob := blob;
       name := Naming.nobgName (file_name (task_file t)) |} in
  let s := with_module (removeBackgroundFn s) (modelLoaded s)
             (processedImages s ++ [imageData]) (currentImageIndex s)
             (isDragging s) s in
  let s := set_currentImageIndex
             (Z.of_nat (length (processedImages s)) - 1)%Z s in
  let s := showResult imageData s in
  let s := updateQueue s in
  finish_task (task_id t) s.

(** [error.message || 'Failed to process image. Please try again.'] *)
Definition catch_text (e : JsError) : string :=
  match message e with
  | Some m => if String.eqb m "" then "Failed to process image. Please try again."
              else m
  | None => "Failed to process image. Please try again."
  end.

(** The [processImage] call [tid] ends by rejecting.  A
    [processRemainingFiles] loop that awaits it ends with it: its [await]
    throws (line 272), so it takes no further file. *)
Definition processImage_reject (tid : nat) (s : State) : State :=
  let s := set_loops
             (List.filter (fun l => negb (Nat.eqb (loop_awaits l) tid))
                (loops s)) s in
  finish_task tid s.

(** Lines 100-105: the [catch] block.  On [null] or [undefined] the
    argument of [showError] throws, after [console.error] has run: nothing
    more is written to the page and the call rejects. *)
Definition processImage_catch (t : Task) (error : Thrown) (s : State)
    : State :=
  let s := console_error error s in
  match error with
  | Nullish _ => processImage_reject (task_id t) s
  | Value e =>
      let s := showError (catch_text e) s in
      let s := hideProcessing s in
      let s := showUpload s in
      finish_task (task_id t) s
  end.

(** *** File upload handling (lines 205-274) *)

Definition validTypes : list string :=
  ["image/jpeg"; "image/png"; "image/webp"].

Definition maxSize : Z := (10 * 1024 * 1024)%Z.

(** [validTypes.includes(file.type)] *)
Definition includes (l : list string) (x : string) : bool :=
  existsb (String.eqb x) l.

Definition typeError : string := "Please upload JPG, PNG, or WebP images only.".
Definition sizeError : string := "Image size must be less than 10MB.".

(** The callback of [files.filter] in [handleFiles] (lines 242-257). *)
Definition validFile (file : File) (s : State) : bool * State :=
  if negb (includes validTypes (file_type file)) then
    (false, showError typeError s)
  else if (file_size file >? maxSize)%Z then
    (false, showError sizeError s)
  else (true, s).

(** [files.filter(callback)]: the callback runs on every file in order. *)
Fixpoint filterValid (files : list File) (s : State) : list File * State :=
  match files with
  | [] => ([], s)
  | file :: rest =>
      let '(ok, s) := validFile file s in
      let '(valid, s) := filterValid rest s in
      (if ok then file :: valid else valid, s)
  end.

(** [processRemainingFiles(files)] from the head of its [for] loop to the
    next [await processImage(file)]. *)
Definition processRemainingFiles (files : list File) (s : State) : State :=
  match files with
  | [] => s
  | file :: rest =>
      let '(tid, s) := processImage_start file s in
      set_loops (loops s ++ [{| loop_awaits := tid; loop_rest := rest |}]) s
  end.

Definition handleFiles (files : list File) (s : State) : State :=
  let '(validFiles, s) := filterValid files s in
  match validFiles with
  | [] => s
  | first :: others =>
      (* processImage(validFiles[0]) is called and not awaited *)
      let '(_, s) := processImage_start first s in
      match others with
      | [] => s
      | _ :: _ => processRemainingFiles others s
      end
  end.

(** The [drop] listener (lines 220-231). *)
Definition onDrop (files : list File) (s : State) : State :=
  let s := with_uploadZone (set_dragOver false (uploadZone s)) s in
  let images :=
    List.filter (fun file => String.prefix "image/" (file_type file)) files in
  match images with
  | [] => s
  | _ :: _ => handleFiles images s
  end.

(** The [change] listener of the file input (lines 233-239). *)
Definition onChange (files : list File) (s : State) : State :=
  match files with
  | [] => s
  | _ :: _ => handleFiles files s
  end.

(** *** Download, new image, keyboard (lines 306-342) *)

Definition onDownloadClick (s : State) : State :=
  if (currentImageIndex s >=? 0)%Z then
    match imageAt s (currentImageIndex s) with
    | Some imageData =>
        with_effects
          {| shownErrors := shownErrors (effects s);
             consoleErrors := consoleErrors (effects s);
             downloads := downloads (effects s)
                          ++ [(result imageData, name imageData)] |} s
    | None => s
    end
  else s.

Definition onNewImageClick (s : State) : State :=
  hideError (showUpload s).

Definition onKeydown (key : string) (s : State) : State :=
  if rv_active (resultContainer s) then
    if String.eqb key "ArrowLeft" && (currentImageIndex s >? 0)%Z then
      let s := set_currentImageIndex (currentImageIndex s - 1)%Z s in
      showAt (currentImageIndex s) s
    else if String.eqb key "ArrowRight"
            && (currentImageIndex s
                <? Z.of_nat (length (processedImages s)) - 1)%Z then
      let s := set_currentImageIndex (currentImageIndex s + 1)%Z s in
      showAt (currentImageIndex s) s
    else if String.eqb key "d" || String.eqb key "D" then onDownloadClick s
    else if String.eqb key "n" || String.eqb key "N" then onNewImageClick s
    else s
  else s.

(** The click listener of the [k]-th rendered queue item (lines 297-301). *)
Definition onQueueItemClick (k : nat) (s : State) : State :=
  match queueList (queueContainer s) !! k with
  | Some item =>
      let s := set_currentImageIndex (Z.of_nat (qi_index item)) s in
      showAt (currentImageIndex s) s
  | None => s
  end.

(** ** The event loop *)

Inductive Event :=
(* DOM events *)
| DragOver
| DragLeave
| Drop (files : list File)
| Change (files : list File)
| QueueItemClick (k : nat)
| DownloadClick
| NewImageClick
| Keydown (key : string)
| SliderMouseDown
| MouseMove (clientX : Q) (rect : Rect)
| MouseUp
| SliderTouchStart
| TouchMove (touches : list Q) (rect : Rect)
| TouchEnd
| ComparisonClick (onSlider : bool) (clientX : Q) (rect : Rect)
(* settled promises *)
| ImportResolved (tid : nat)
| ImportRejected (tid : nat) (e : Thrown)
| InitSettled (tid : nat)
| InferenceResolved (tid : nat) (resultBlob : Blob)
| InferenceRejected (tid : nat) (e : Thrown)
| ProcessImageSettled (tid : nat).

(** The continuation of the [processRemainingFiles] loop that awaits task
    [tid], once that [processImage] call has returned. *)
Definition loop_resume (tid : nat) (s : State) : State :=
  match find_task tid s with
  | Some _ => s
  | None =>
      match List.find (fun l => Nat.eqb (loop_awaits l) tid) (loops s) with
      | None => s
      | Some l =>
          processRemainingFiles (loop_rest l)
            (set_loops
               (List.filter (fun l => negb (Nat.eqb (loop_awaits l) tid))
                  (loops s)) s)
      end
  end.

(** One job.  A promise event for a task that is not suspended at the
    matching point is not a job of the program and changes nothing. *)
Definition step (ev : Event) (s : State) : State :=
  match ev with
  | DragOver => with_uploadZone (set_dragOver true (uploadZone s)) s
  | DragLeave => with_uploadZone (set_dragOver false (uploadZone s)) s
  | Drop files => onDrop files s
  | Change files => onChange files s
  | QueueItemClick k => onQueueItemClick k s
  | DownloadClick => onDownloadClick s
  | NewImageClick => onNewImageClick s
  | Keydown key => onKeydown key s
  | SliderMouseDown => set_isDragging true s
  | MouseMove clientX rect =>
      if isDragging s then handleSliderMove clientX rect s else s
  | MouseUp => set_isDragging false s
  | SliderTouchStart => set_isDragging true s
  | TouchMove touches rect =>
      if isDragging s then
        match touches with
        | [clientX] => handleSliderMove clientX rect s
        | _ => s
        end
      else s
  | TouchEnd => set_isDragging false s
  | ComparisonClick onSlider clientX rect =>
      if onSlider then s else handleSliderMove clientX rect s
  | ImportResolved tid =>
      match find_task tid s with
      | Some {| task_pc := AtImport |} =>
          set_pc tid AtInit (initializeModel_loaded s)
      | _ => s
      end
  | ImportRejected tid e =>
      match find_task tid s with
      | Some {| task_pc := AtImport |} =>
          set_pc tid (AtInitFailed (initializeModel_error e)) s
      | _ => s
      end
  | InitSettled tid =>
      match find_task tid s with
      | Some t =>
          match task_pc t with
          | AtInit => processImage_infer t s
          | AtInitFailed e => processImage_catch t (Value e) s
          | _ => s
          end
      | None => s
      end
  | InferenceResolved tid blob =>
      match find_task tid s with
      | Some t =>
          match task_pc t with
          | AtInference originalUrl => processImage_done t originalUrl blob s
          | _ => s
          end
      | None => s
      end
  | InferenceRejected tid e =>
      match find_task tid s with
      | Some t =>
          match task_pc t with
          | AtInference _ => processImage_catch t e s
          | _ => s
          end
      | None => s
      end
  | ProcessImageSettled tid => loop_resume tid s
  end.

(** The jobs run one after the other. *)
Definition run (evs : list Event) (s : State) : State :=
  fold_left (fun s ev => step ev s) evs s.

(** *** Observations used in the statements *)

(** The files whose [removeBackgroundFn] call has started and has not yet
    settled, oldest first. *)
Definition inferencesInFlight (s : State) : list File :=
  map task_file
    (List.filter (fun t => match task_pc t with
                           | AtInference _ => true
                           | _ => false
                           end) (tasks s)).

(** Files that have been accepted and whose [processImage] call has not
    returned: started calls, then the files the loops still hold. *)
Definition pendingFiles (s : State) : list File :=
  map task_file (tasks s) ++ concat (map loop_rest (loops s)).

(** The cursor of the queue: [-1] on an empty queue, an index otherwise. *)
Definition cursor_valid (s : State) : Prop :=
  match processedImages s with
  | [] => currentImageIndex s = (-1)%Z
  | _ :: _ =>
      (0 <= currentImageIndex s < Z.of_nat (length (processedImages s)))%Z
  end.

(** A file of an allowed type that is not larger than the ceiling. *)
Definition allowed (f : File) : bool :=
  includes validTypes (file_type f) && (file_size f <=? maxSize)%Z.

(** What the gate says about one file: nothing, or one message. *)
Definition rejection (f : File) : list string :=
  if negb (includes validTypes (file_type f)) then [typeError]
  else if (file_size f >? maxSize)%Z then [sizeError]
  else [].

(** The test of the [drop] listener. *)
Definition isImage (f : File) : bool := String.prefix "image/" (file_type f).

(** The part of the state that the queue and its cursor consist of. *)
Definition core (s : State) : list ImageRecord * Z * list QueueItem :=
  (processedImages s, currentImageIndex s, queueList (queueContainer s)).

(** Every rendered queue item has captured an index of the array. *)
Definition items_valid (s : State) : Prop :=
  Forall (fun item => (qi_index item < length (processedImages s))%nat)
    (queueList (queueContainer s)).

(** The position of the slider as the page has it. *)
Definition slider (s : State) : option Q := sliderLine_left (resultContainer s).

(** The position of the slider, once set, is a percentage. *)
Definition slider_valid (s : State) : Prop :=
  match sliderLine_left (resultContainer s) with
  | Some p => (0 <= p <= 100)%Q
  | None => True
  end.

(** The invariant of the queue. *)
Definition Inv (s : State) : Prop := cursor_valid s /\ items_valid s.

(** The upload view with an error message: what [processImage] leaves on
    the page when it has caught an error. *)
Definition failureShown (text : string) (s : State) : Prop :=
  errorMessage s = {| er_active := true; er_text := text |}
  /\ uz_display (uploadZone s) = DisplayBlock
  /\ pr_active (processing s) = false
  /\ rv_active (resultContainer s) = false.

(** What a failed [processImage] call leaves behind, from the state [s]
    in which the failure arrives to what the user gets to see.  [s1] is the
    state when the [catch] block has run: [text] is on the page with the
    upload view, the queue and its cursor are as in [s] and the call has
    ended.  Then the loop that awaits the call, if there is one, goes on
    before the page is painted: with no file left it ends and the message
    stays; with a file left it starts the [processImage] call of that
    file, which hides the message and the upload zone and shows the
    processing view. *)
Definition failureHandled (tid : nat) (text : string) (s s1 : State) : Prop :=
  failureShown text s1
  /\ processedImages s1 = processedImages s
  /\ currentImageIndex s1 = currentImageIndex s
  /\ find_task tid s1 = None
  /\ let s2 := step (ProcessImageSettled tid) s1 in
     processedImages s2 = processedImages s
     /\ currentImageIndex s2 = currentImageIndex s
     /\ match List.find (fun l => Nat.eqb (loop_awaits l) tid) (loops s) with
        | None => s2 = s1
        | Some l =>
            match loop_rest l with
            | [] => failureShown text s2
            | f :: _ =>
                er_active (errorMessage s2) = false
                /\ pr_active (processing s2) = true
                /\ uz_display (uploadZone s2) = DisplayNone
                /\ exists pc,
                     In {| task_id := nextTask s; task_file := f;
                           task_pc := pc |} (tasks s2)
            end
        end.

(** The record [r] is the one on display. *)
Definition displayed (r : ImageRecord) (s : State) : Prop :=
  rv_active (resultContainer s) = true
  /\ originalImage (resultContainer s) = Some (original r)
  /\ resultImage (resultContainer s) = Some (result r).

(** The event [ev] accepts exactly the files [valid]: it hands them to
    [processImage] and creates no record itself. *)
Definition accepts (ev : Event) (s : State) (valid : list File) : Prop :=
  pendingFiles (step ev s) ≡ₚ (pendingFiles s ++ valid)%list
  /\ processedImages (step ev s) = processedImages s.

(** The event [ev] calls [showError] with [msg]. *)
Definition emits (ev : Event) (s : State) (msg : string) : Prop :=
  exists new,
    shownErrors (effects (step ev s)) = (shownErrors (effects s) ++ new)%list
    /\ In msg new.

(** The validation gate as the specification words it, for the files that
    arrive through [arrive] (the file picker or a drop): a file whose type
    is not allowed is not accepted and an error message is emitted. *)
Definition rejectsWithError (arrive : list File -> Event) : Prop :=
  forall (files : list File) (s : State) (f : File),
    In f files ->
    includes validTypes (file_type f) = false ->
    (exists valid, accepts (arrive files) s valid /\ ~ In f valid)
    /\ emits (arrive files) s typeError.

End App.

(** ** The model downloader, [scripts/download-models.js] *)

Module Fetcher.

(** The manifest [resources.json]: logical path to resource, a resource
    possibly listing chunks, a chunk naming its content hash. *)
Record Chunk := { hash : string }.
Record Resource := { chunks : option (list Chunk) }.
Definition Resources := list (string * Resource).

(** The content of a response or of a file: its length in bytes and what
    [JSON.parse] reads from it as a manifest ([None]: it throws, or the
    value is not an object of resources). *)
Record Body := { byteLength : Z; json : option Resources }.

Record Response := { ok : bool; statusText : string; body : Body }.

Inductive FetchResult :=
| Rejected (msg : string)       (* fetch(url) rejects with this message *)
| Fulfilled (r : Response).

(** What the script reads from outside: the version in the installed
    package.json ([None]: reading or parsing it throws), the directory
    [PUBLIC_DIR], and the answer of the network to each URL. *)
Record Env := {
  packageVersion : option string;
  PUBLIC_DIR : string;
  fetch : string -> FetchResult
}.

(** The lines written to the console. *)
Inductive Line :=
| Info (text : string)
| ManifestOk
| ManifestFailed (msg : string)                  (* console.error *)
| Found (chunks : nat)
| ChunkExists (hash16 : string)
| ChunkOk (hash16 : string) (size : Z)
| ChunkFailed (hash16 : string) (msg : string)   (* console.error *)
| Summary (downloaded skipped : nat) (totalBytes : Z)
| FailedCount (failed : nat)
| Complete
| Uncaught.                                      (* main().catch *)

(** The world the script acts on: the files on disk, the console, and the
    URLs given to [fetch], in order. *)
Record World := {
  files : gmap string Body;
  console : list Line;
  fetched : list string
}.

Definition log (l : Line) (w : World) : World :=
  {| files := files w; console := console w ++ [l]; fetched := fetched w |}.

Definition getBaseUrl (version : string) : string :=
  "https://staticimgly.com/@imgly/background-removal-data/" +:+ version
  +:+ "/dist".

(** [join(dir, name)] for a plain file name. *)
Definition join (dir name : string) : string := dir +:+ "/" +:+ name.

Definition existsSync (path : string) (w : World) : bool :=
  bool_decide (is_Some (files w !! path)).

(** [downloadFile(url, destPath)]: the byte length, or the message of the
    error it throws. *)
Definition downloadFile (env : Env) (url destPath : string) (w : World)
    : (Z + string) * World :=
  let w := {| files := files w; console := console w;
              fetched := fetched w ++ [url] |} in
  match fetch env url with
  | Rejected msg => (inr msg, w)
  | Fulfilled response =>
      if ok response then
        (inl (byteLength (body response)),
         {| files := <[destPath := body response]> (files w);
            console := console w; fetched := fetched w |})
      else
        (inr ("Failed to download " +:+ url +:+ ": " +:+ statusText response),
         w)
  end.

(** [allChunks.add(hash)] on a set that iterates in insertion order. *)
Definition set_add (h : string) (s : list string) : list string :=
  if bool_decide (h ∈ s) then s else s ++ [h].

(** Lines 71-79: the union of the chunk hashes of all resources. *)
Definition allChunks (resources : Resources) : list string :=
  fold_left
    (fun acc '(_, resource) =>
       match chunks resource with
       | Some cs => fold_left (fun acc chunk => set_add (hash chunk) acc) cs acc
       | None => acc
       end)
    resources [].

Record Counters := {
  downloaded : nat;
  skipped : nat;
  failed : nat;
  totalBytes : Z
}.

(** [hash.substring(0, 16)] *)
Definition hash16 (h : string) : string := String.substring 0 16 h.

(** [`${baseUrl}/${hash}`] and [join(PUBLIC_DIR, hash)] *)
Definition chunkUrl (baseUrl h : string) : string := baseUrl +:+ "/" +:+ h.
Definition chunkPath (env : Env) (h : string) : string := join (PUBLIC_DIR env) h.

(** One iteration of the chunk loop (lines 88-108). *)
Definition chunkStep (env : Env) (baseUrl : string) (h : string)
    (cw : Counters * World) : Counters * World :=
  let '(c, w) := cw in
  let chunkUrl := chunkUrl baseUrl h in
  let chunkPath := chunkPath env h in
  if existsSync chunkPath w then
    ({| downloaded := downloaded c; skipped := S (skipped c);
        failed := failed c; totalBytes := totalBytes c |},
     log (ChunkExists (hash16 h)) w)
  else
    match downloadFile env chunkUrl chunkPath w with
    | (inl size, w) =>
        ({| downloaded := S (downloaded c); skipped := skipped c;
            failed := failed c; totalBytes := (totalBytes c + size)%Z |},
         log (ChunkOk (hash16 h) size) w)
    | (inr msg, w) =>
        ({| downloaded := downloaded c; skipped := skipped c;
            failed := S (failed c); totalBytes := totalBytes c |},
         log (ChunkFailed (hash16 h) msg) w)
    end.

Definition chunkLoop (env : Env) (baseUrl : string) (hashes : list string)
    (cw : Counters * World) : Counters * World :=
  fold_left (fun cw h => chunkStep env baseUrl h cw) hashes cw.

(** How the process ends: its exit code, the world it leaves behind, and the
    counters of the chunk loop when the loop has run. *)
Record Outcome := {
  exitCode : Z;
  world : World;
  counters : option Counters
}.

(** Lines 48-57: what is printed before the manifest is fetched. *)
Definition announce (env : Env) (version : string) (w : World) : World :=
  let w := log (Info ("Package version: " +:+ version)) w in
  let w := log (Info ("Base URL: " +:+ getBaseUrl version)) w in
  let w := log (Info ("Target directory: " +:+ PUBLIC_DIR env)) w in
  log (Info "Downloading resources.json...") w.

(** Lines 110-117: the summary. *)
Definition report (c : Counters) (w : World) : World :=
  let w := log (Summary (downloaded c) (skipped c) (totalBytes c)) w in
  let w := if (0 <? failed c)%nat then log (FailedCount (failed c)) w
           else w in
  log Complete w.

Definition noCounters : Counters :=
  {| downloaded := 0; skipped := 0; failed := 0; totalBytes := 0 |}.

(** [main()] together with the handler of its rejection (lines 42-123):
    directories are not modelled, so the two [mkdirSync] calls leave no
    trace. *)
Definition main (env : Env) (w : World) : Outcome :=
  let w := log (Info "Downloading background removal models...") w in
  match packageVersion env with
  | None =>
      {| exitCode := 1; world := log Uncaught w; counters := None |}
  | Some version =>
      let baseUrl := getBaseUrl version in
      let w := announce env version w in
      let resourcesUrl := chunkUrl baseUrl "resources.json" in
      let resourcesPath := chunkPath env "resources.json" in
      match downloadFile env resourcesUrl resourcesPath w with
      | (inr msg, w) =>
          {| exitCode := 1; world := log (ManifestFailed msg) w;
             counters := None |}
      | (inl _, w) =>
          let w := log ManifestOk w in
          match files w !! resourcesPath ≫= json with
          | None =>
              {| exitCode := 1; world := log Uncaught w; counters := None |}
          | Some resources =>
              let hashes := allChunks resources in
              let w := log (Found (length hashes)) w in
              let '(c, w) := chunkLoop env baseUrl hashes (noCounters, w) in
              {| exitCode := 0; world := report c w; counters := Some c |}
          end
      end
  end.

(** The chunk URLs among the fetched ones whose download fails. *)
Definition fetchFails (env : Env) (url : string) : bool :=
  match fetch env url with
  | Rejected _ => true
  | Fulfilled response => negb (ok response)
  end.

Definition emptyWorld : World :=
  {| files := ∅; console := []; fetched := [] |}.

(** The world after a [fetch] that has failed. *)
Definition fetchedMore (url : string) (w : World) : World :=
  {| files := files w; console := console w; fetched := fetched w ++ [url] |}.

(** The world once the manifest has been written by [downloadFile]. *)
Definition withManifest (env : Env) (url : string) (b : Body) (w : World)
    : World :=
  {| files := <[chunkPath env "resources.json" := b]> (files w);
     console := console w;
     fetched := fetched w ++ [url] |}.

(** The chunks of [hashes] that are not on disk in [w]. *)
Definition missing (env : Env) (w : World) (hashes : list string)
    : list string :=
  List.filter (fun h => negb (existsSync (chunkPath env h) w)) hashes.

(** The chunks of [hs] whose download fails. *)
Definition failing (env : Env) (baseUrl : string) (hs : list string)
    : list string :=
  List.filter (fun h => fetchFails env (chunkUrl baseUrl h)) hs.

(** What the chunk loop has done when it ends: which URLs it has fetched,
    what it has counted and what it has logged. *)
Definition loopDone (env : Env) (baseUrl : string) (hashes : list string)
    (c : Counters) (w : World) (c' : Counters) (w' : World) : Prop :=
  let ms := missing env w hashes in
  fetched w' = (fetched w ++ map (chunkUrl baseUrl) ms)%list
  /\ failed c' = (failed c + length (failing env baseUrl ms))%nat
  /\ (downloaded c' + skipped c' + failed c'
      = downloaded c + skipped c + failed c + length hashes)%nat
  /\ (forall l, In l (console w) -> In l (console w'))
  /\ (forall h, In h (failing env baseUrl ms) ->
      exists msg, In (ChunkFailed (hash16 h) msg) (console w')).

End Fetcher.

(** ** Inputs used in the examples *)

Module Samples.
Import App.

Definition jpeg10 : File :=
  {| file_name := "exact.jpg"; file_type := "image/jpeg";
     file_size := 10485760 |}.

Definition png12 : File :=
  {| file_name := "large.png"; file_type := "image/png";
     file_size := 12582912 |}.

Definition pdf : File :=
  {| file_name := "paper.pdf"; file_type := "application/pdf";
     file_size := 1000 |}.

Definition gif : File :=
  {| file_name := "anim.gif"; file_type := "image/gif"; file_size := 1000 |}.

Definition photoA : File :=
  {| file_name := "a.png"; file_type := "image/png"; file_size := 2097152 |}.

Definition photoB : File :=
  {| file_name := "b.jpg"; file_type := "image/jpeg"; file_size := 4096 |}.

Definition photoC : File :=
  {| file_name := "c.webp"; file_type := "image/webp"; file_size := 512 |}.

(** The first import and the job that follows it, for a batch of two. *)
Definition bothStarted : list Event :=
  [ImportResolved 0; ImportResolved 1; InitSettled 0; InitSettled 1].

(** Two files chosen, both inference calls started. *)
Definition twoInFlight : State :=
  run (Change [photoA; photoB] :: bothStarted) initial.

(** Three files chosen: two inference calls started, the third file held
    by the loop. *)
Definition threeInFlight : State :=
  run (Change [photoA; photoB; photoC] :: bothStarted) initial.

(** Both results have arrived, in the order of submission. *)
Definition twoResults : State :=
  run [InferenceResolved 0 []; InferenceResolved 1 []] twoInFlight.

(** One file chosen, its import still pending. *)
Definition oneLoading : State := run [Change [photoA]] initial.

Definition boom : JsError := {| message := Some "out of memory" |}.

(** A manifest of two resources sharing one of three chunks, where the
    download of the chunk [bbbb] fails. *)
Definition manifest : Fetcher.Resources :=
  [("/models/medium",
    {| Fetcher.chunks := Some [{| Fetcher.hash := "aaaa" |};
                               {| Fetcher.hash := "bbbb" |}] |});
   ("/onnxruntime-web/ort.wasm", {| Fetcher.chunks := None |});
   ("/models/small",
    {| Fetcher.chunks := Some [{| Fetcher.hash := "bbbb" |};
                               {| Fetcher.hash := "cccc" |}] |})].

Definition found (size : Z) (j : option Fetcher.Resources) : Fetcher.FetchResult :=
  Fetcher.Fulfilled
    {| Fetcher.ok := true; Fetcher.statusText := "OK";
       Fetcher.body := {| Fetcher.byteLength := size; Fetcher.json := j |} |}.

Definition network (url : string) : Fetcher.FetchResult :=
  if String.eqb url (Fetcher.chunkUrl (Fetcher.getBaseUrl "1.4.5") "resources.json")
  then found 300 (Some manifest)
  else if String.eqb url (Fetcher.chunkUrl (Fetcher.getBaseUrl "1.4.5") "bbbb")
  then Fetcher.Rejected "fetch failed"
  else found 1024 None.

Definition online : Fetcher.Env :=
  {| Fetcher.packageVersion := Some "1.4.5";
     Fetcher.PUBLIC_DIR := "public/models";
     Fetcher.fetch := network |}.

Definition offline : Fetcher.Env :=
  {| Fetcher.packageVersion := Some "1.4.5";
     Fetcher.PUBLIC_DIR := "public/models";
     Fetcher.fetch := fun _ => Fetcher.Rejected "fetch failed" |}.

End Samples.

From Stdlib Require Import Qround.

(** ** Further observations on [main.js] *)

Module Page.
Import App.

(** [currentImageIndex = i; showResult(processedImages[i]); updateQueue();]
    -- the body shared by the arrow keys and the queue items. *)
Definition goto (i : Z) (s : State) : State :=
  let s := set_currentImageIndex i s in
  showAt (currentImageIndex s) s.

(** What each of the invariants below reads of a state. *)
Definition memo_obs (s : State) : bool * bool * string :=
  (modelLoaded s, removeBackgroundFn s, processingSubtext (processing s)).

Definition view_obs (s : State) : bool * bool * Display :=
  (rv_active (resultContainer s), pr_active (processing s),
   uz_display (uploadZone s)).

Definition slider_obs (s : State) : option Q * option Q :=
  (sliderLine_left (resultContainer s), imageBefore_inset (resultContainer s)).

Definition queue_obs (s : State) : list ImageRecord * Z * QueueView :=
  (processedImages s, currentImageIndex s, queueContainer s).

(** [modelLoaded] is set together with [removeBackgroundFn]. *)
Definition memo_ok (s : State) : Prop :=
  modelLoaded s = removeBackgroundFn s
  /\ processingSubtext (processing s) <> "Preparing...".

(** The result view excludes the processing view and the upload zone. *)
Definition views_ok (s : State) : Prop :=
  rv_active (resultContainer s) = false
  \/ (pr_active (processing s) = false
      /\ uz_display (uploadZone s) = DisplayNone).

(** The queue list shows the queue: nothing while there is at most one
    record, then one item per record, in order, the current one active. *)
Definition queue_synced (s : State) : Prop :=
  qv_active (queueContainer s)
  = negb (length (processedImages s) <=? 1)%nat
  /\ queueList (queueContainer s)
     = (if (length (processedImages s) <=? 1)%nat then []
        else imap (renderItem (currentImageIndex s)) (processedImages s)).

(** The invariant of the queue together with its list. *)
Definition queue_ok (s : State) : Prop := Inv s /\ queue_synced s.

(** The divider and the clip path agree. *)
Definition slider_synced (s : State) : Prop :=
  match sliderLine_left (resultContainer s),
        imageBefore_inset (resultContainer s) with
  | Some p, Some q => (0 <= p <= 100)%Q /\ (q == 100 - p)%Q
  | None, None => True
  | _, _ => False
  end.

(** [Math.round(x)] on an exact rational: the nearest integer, halves up. *)
Definition Math_round (x : Q) : Z := Qfloor (x + (1 # 2))%Q.

(** The [progress] callback given to the model (lines 69-74). *)
Definition progress (key : string) (current total : Q) (s : State) : State :=
  if String.eqb key "compute:inference" then
    updateProgress (20 + Math_round (current / total * 70))%Z s
  else s.

(** A press on the divider, by mouse or by touch. *)
Definition isPress (ev : Event) : bool :=
  match ev with
  | SliderMouseDown | SliderTouchStart => true
  | _ => false
  end.

(** Two states that differ at most in what has left the page. *)
Definition samePage (s s' : State) : Prop :=
  with_effects (effects s) s' = s.

End Page.

(** ** The calls in flight *)

Module Sched.
Import App.

(** An event that brings files: a drop or a choice in the file picker. *)
Definition isUpload (ev : Event) : bool :=
  match ev with
  | Drop _ | Change _ => true
  | _ => false
  end.

(** The identifiers of the [processImage] calls that have not returned. *)
Definition ids (s : State) : list nat := map task_id (tasks s).

Definition sched_obs (s : State) : list nat * list Loop * nat :=
  (ids s, loops s, nextTask s).

Definition differs (a : nat) (i : nat) : bool := negb (Nat.eqb i a).

(** One batch at work: identifiers are fresh and distinct, there is at most
    one loop, and at most one call is not the one the loop awaits. *)
Definition sched_ok (s : State) : Prop :=
  Forall (fun i => (i < nextTask s)%nat) (ids s)
  /\ NoDup (ids s)
  /\ match loops s with
     | [] => (length (ids s) <= 1)%nat
     | [l] => (length (List.filter (differs (loop_awaits l)) (ids s)) <= 1)%nat
     | _ => False
     end.

(** The events by which the files after the second are processed when
    each result arrives before the next file is taken: the loop resumes,
    the new call passes [initializeModel], its inference resolves. *)
Fixpoint laterEvents (n : nat) (blobs : list Blob) : list Event :=
  match blobs with
  | [] => []
  | b :: bs =>
      ProcessImageSettled (pred n) :: InitSettled n :: InferenceResolved n b
      :: laterEvents (S n) bs
  end.

(** A whole batch of at least two files, every result arriving in the
    order of submission. *)
Definition inOrder (files : list File) (b0 b1 : Blob) (bs : list Blob)
    : list Event :=
  Change files
  :: [ImportResolved 0; ImportResolved 1; InitSettled 0; InitSettled 1;
      InferenceResolved 0 b0; InferenceResolved 1 b1]
  ++ laterEvents 2 bs
  ++ [ProcessImageSettled (S (length bs))].

(** The record that [processImage] stores for a file and its result, as
    far as name and content go. *)
Definition stored (fb : File * Blob) : string * Blob :=
  (Naming.nobgName (file_name fb.1), fb.2).

(** Name and content of the records of the queue, in order. *)
Definition names (s : State) : list (string * Blob) :=
  map (fun r => (name r, resultBlob r)) (processedImages s).

(** The cursor is on the last record. *)
Definition cursor_last (s : State) : Prop :=
  currentImageIndex s = (Z.of_nat (length (processedImages s)) - 1)%Z.

(** What the events of a single [processImage] call leave as it is: the
    loop and the counter of the calls. *)
Definition held (s : State) : list Loop * nat := (loops s, nextTask s).

(** The queue and its cursor. *)
Definition shown (s : State) : list ImageRecord * Z :=
  (processedImages s, currentImageIndex s).

(** [set_pc] on one task. *)
Definition at_pc (tid : nat) (pc : Pc) (t : Task) : Task :=
  if Nat.eqb (task_id t) tid
  then {| task_id := tid; task_file := task_file t; task_pc := pc |}
  else t.

(** Between two files of a batch: no call in flight, the model loaded, the
    loop holding [rest] and awaiting the call before call [n]. *)
Definition between (n : nat) (rest : list File) (s : State) : Prop :=
  tasks s = []
  /\ loops s = [{| loop_awaits := pred n; loop_rest := rest |}]
  /\ nextTask s = n
  /\ removeBackgroundFn s = true.

End Sched.

(** ** What a run of the download script leaves on disk *)

Module Disk.
Import Fetcher.

(** The hash [h] is listed by a resource of the manifest. *)
Definition listed (resources : Resources) (h : string) : Prop :=
  exists path resource cs chunk,
    In (path, resource) resources
    /\ chunks resource = Some cs
    /\ In chunk cs
    /\ hash chunk = h.

(** The chunks of [hashes] that are on disk in [w]. *)
Definition present (env : Env) (w : World) (hashes : list string)
    : list string :=
  List.filter (fun h => existsSync (chunkPath env h) w) hashes.

(** The chunks of [hs] whose download succeeds. *)
Definition succeeding (env : Env) (baseUrl : string) (hs : list string)
    : list string :=
  List.filter (fun h => negb (fetchFails env (chunkUrl baseUrl h))) hs.

(** What [downloadFile] writes for a URL, if it writes. *)
Definition bodyOf (env : Env) (url : string) : option Body :=
  match fetch env url with
  | Rejected _ => None
  | Fulfilled response => if ok response then Some (body response) else None
  end.

(** [buffer.byteLength] of the response to a URL. *)
Definition sizeOf (env : Env) (url : string) : Z :=
  match bodyOf env url with
  | Some b => byteLength b
  | None => 0
  end.

Definition total (sizes : list Z) : Z := fold_right Z.add 0%Z sizes.

End Disk.

(** ** More inputs for the examples *)

Module MoreSamples.
Import App Samples.

(** The run that leads to [twoResults], event by event. *)
Definition twoResultsEvents : list Event :=
  Change [photoA; photoB] :: bothStarted
  ++ [InferenceResolved 0 []; InferenceResolved 1 []].

Definition box : Rect := {| rect_left := 100; rect_width := 200 |}.

(** A disk that already holds the chunk [aaaa] and a file of the user. *)
Definition stocked : Fetcher.World :=
  {| Fetcher.files :=
       {[ "public/models/aaaa" :=
            {| Fetcher.byteLength := 7; Fetcher.json := None |};
          "public/models/notes.txt" :=
            {| Fetcher.byteLength := 3; Fetcher.json := None |} ]};
     Fetcher.console := [];
     Fetcher.fetched := [] |}.

End MoreSamples.

(** * Properties *)

Local Open Scope list_scope.

(** An equation between two states that differ by field updates only. *)
Ltac by_cases :=
  intros;
  repeat match goal with s : App.State |- _ => destruct s end;
  reflexivity.

(** ** The suggested file name *)

Module NamingFacts.
Import Naming.

Lemma in_ext_class_spec c :
  in_ext_class c = true <-> c <> "."%char /\ c <> "/"%char.
Proof.
  unfold in_ext_class. rewrite andb_true_iff, !negb_true_iff.
  split.
  - intros [H1 H2]. split; intros ->; simpl in *; congruence.
  - intros [H1 H2]. split; apply Ascii.eqb_neq; congruence.
Qed.

Lemma all_ext_class_spec s :
  all_ext_class s = true <->
  forall c, In c (list_ascii_of_string s) -> c <> "."%char /\ c <> "/"%char.
Proof.
  induction s as [|a s IH]; simpl.
  - split; [intros _ c [] | reflexivity].
  - rewrite andb_true_iff, IH, in_ext_class_spec. split.
    + intros [Ha Hs] c [<- | Hc]; auto.
    + intros H. split; [apply H; auto | intros c Hc; apply H; auto].
Qed.

Lemma all_ext_class_dot a b : all_ext_class (a +:+ String "." b) = false.
Proof.
  induction a as [|c a IH]; simpl.
  - reflexivity.
  - rewrite IH. apply andb_false_r.
Qed.

Lemma ext_matches_here_spec s :
  ext_matches_here s = true <-> exists ext, s = String "." ext /\ is_extension ext.
Proof.
  unfold ext_matches_here, is_extension. split.
  - destruct s as [|c [|d r]]; try discriminate.
    rewrite !andb_true_iff. intros [[Hc Hd] Hr].
    apply Ascii.eqb_eq in Hc. subst c.
    exists (String d r). split; [reflexivity|]. split; [discriminate|].
    apply all_ext_class_spec. simpl. now rewrite Hd, Hr.
  - intros (ext & -> & Hne & Hall).
    apply all_ext_class_spec in Hall.
    destruct ext as [|d r]; [congruence|]. simpl in Hall.
    apply andb_true_iff in Hall as [Hd Hr]. now rewrite Hd, Hr.
Qed.

Lemma replace_ext_strips stem ext :
  is_extension ext -> replace_ext (stem +:+ "." +:+ ext) = stem.
Proof.
  intros Hext. induction stem as [|c stem IH].
  - change ("" +:+ "." +:+ ext) with (String "." ext).
    assert (H : ext_matches_here (String "." ext) = true)
      by (apply ext_matches_here_spec; eauto).
    cbn [replace_ext]. now rewrite H.
  - change (String c stem +:+ "." +:+ ext)
      with (String c (stem +:+ "." +:+ ext)).
    assert (H : ext_matches_here (String c (stem +:+ "." +:+ ext)) = false).
    { unfold ext_matches_here.
      destruct (stem +:+ "." +:+ ext) as [|d r] eqn:E; [reflexivity|].
      destruct (Ascii.eqb c "."); [|reflexivity]. simpl.
      change (in_ext_class d && all_ext_class r) with (all_ext_class (String d r)).
      rewrite <- E. apply all_ext_class_dot. }
    cbn [replace_ext]. rewrite H. fold replace_ext. now rewrite IH.
Qed.

Lemma replace_ext_keeps name :
  (forall stem ext, is_extension ext -> name <> stem +:+ "." +:+ ext) ->
  replace_ext name = name.
Proof.
  induction name as [|c r IH]; intros Hno.
  - reflexivity.
  - assert (H : ext_matches_here (String c r) = false).
    { apply not_true_is_false. intros (ext & E & Hext)%ext_matches_here_spec.
      apply (Hno "" ext Hext). exact E. }
    cbn [replace_ext]. rewrite H. fold replace_ext. rewrite IH; [reflexivity|].
    intros stem ext Hext E. apply (Hno (String c stem) ext Hext).
    simpl. now rewrite E.
Qed.

Example nobg_photo : nobgName "photo.jpeg" = "photo_nobg.png".
Proof. reflexivity. Qed.

Example nobg_two_dots : nobgName "a.tar.gz" = "a.tar_nobg.png".
Proof. reflexivity. Qed.

Example nobg_no_ext : nobgName "README" = "README_nobg.png".
Proof. reflexivity. Qed.

Example nobg_trailing_dot : nobgName "odd." = "odd._nobg.png".
Proof. reflexivity. Qed.

Example nobg_slash_after_dot : nobgName "v1.2/img" = "v1.2/img_nobg.png".
Proof. reflexivity. Qed.

End NamingFacts.

(** ** The validation gate *)

Module GateFacts.
Import App Samples.

Lemma validFile_fst f s : (validFile f s).1 = allowed f.
Proof.
  unfold validFile, allowed.
  destruct (includes validTypes (file_type f)); simpl; [|reflexivity].
  rewrite Z.gtb_ltb, Z.ltb_antisym.
  destruct (file_size f <=? maxSize)%Z; reflexivity.
Qed.

Lemma validFile_snd f s :
  (validFile f s).2 = fold_left (fun s m => showError m s) (rejection f) s.
Proof.
  unfold validFile, rejection.
  destruct (negb (includes validTypes (file_type f))); [reflexivity|].
  destruct (file_size f >? maxSize)%Z; reflexivity.
Qed.

Lemma filterValid_fst files s :
  (filterValid files s).1 = List.filter allowed files.
Proof.
  revert s. induction files as [|f files IH]; intros s; simpl; [reflexivity|].
  pose proof (validFile_fst f s) as Hf.
  destruct (validFile f s) as [ok s1]. simpl in Hf. subst ok.
  specialize (IH s1). destruct (filterValid files s1) as [valid s2].
  simpl in *. subst valid. reflexivity.
Qed.

Lemma filterValid_snd files s :
  (filterValid files s).2
  = fold_left (fun s m => showError m s) (flat_map rejection files) s.
Proof.
  revert s. induction files as [|f files IH]; intros s; simpl; [reflexivity|].
  pose proof (validFile_snd f s) as Hf.
  destruct (validFile f s) as [ok s1]. simpl in Hf.
  specialize (IH s1). destruct (filterValid files s1) as [valid s2].
  simpl in *. rewrite fold_left_app. now subst.
Qed.

Lemma showErrors_frame msgs s :
  let s' := fold_left (fun s m => showError m s) msgs s in
  tasks s' = tasks s /\ loops s' = loops s /\ core s' = core s
  /\ nextTask s' = nextTask s
  /\ shownErrors (effects s') = shownErrors (effects s) ++ msgs.
Proof.
  revert s. induction msgs as [|m msgs IH]; intros s; simpl.
  - now rewrite app_nil_r.
  - destruct (IH (showError m s)) as (-> & -> & -> & -> & ->).
    destruct s; simpl. now rewrite <- app_assoc.
Qed.

Lemma showErrors_active msgs s :
  msgs <> [] ->
  er_active (errorMessage (fold_left (fun s m => showError m s) msgs s)) = true.
Proof.
  intros Hne. destruct (exists_last Hne) as (front & m & ->).
  rewrite fold_left_app. simpl.
  now destruct (fold_left (fun s m => showError m s) front s).
Qed.

Lemma processImage_start_tasks f s :
  exists pc,
    tasks (processImage_start f s).2
    = tasks s ++ [{| task_id := nextTask s; task_file := f; task_pc := pc |}].
Proof.
  unfold processImage_start, initializeModel_start.
  destruct s as [fn ? ? ? ? ? ? ? ? ? ? ? ? ? ?]; destruct fn; simpl; eauto.
Qed.

Lemma processImage_start_frame f s :
  let s' := (processImage_start f s).2 in
  loops s' = loops s /\ effects s' = effects s /\ core s' = core s
  /\ (processImage_start f s).1 = nextTask s /\ nextTask s' = S (nextTask s).
Proof.
  unfold processImage_start, initializeModel_start.
  destruct s as [fn ? ? ? ? ? ? ? ? ? ? ? ? ? ?]; destruct fn; simpl; auto 6.
Qed.

Lemma processImage_start_hides f s :
  er_active (errorMessage (processImage_start f s).2) = false.
Proof.
  unfold processImage_start, initializeModel_start.
  destruct s as [fn ? ? ? ? ? ? ? ? ? ? ? ? ? ?]; destruct fn; reflexivity.
Qed.

Lemma pendingFiles_start f s :
  pendingFiles (processImage_start f s).2 ≡ₚ pendingFiles s ++ [f].
Proof.
  unfold pendingFiles.
  destruct (processImage_start_tasks f s) as [pc ->].
  destruct (processImage_start_frame f s) as (-> & _).
  rewrite map_app. simpl. rewrite <- !app_assoc.
  apply Permutation_app_head, Permutation_app_comm.
Qed.

Lemma processRemainingFiles_pending files s :
  pendingFiles (processRemainingFiles files s) ≡ₚ pendingFiles s ++ files.
Proof.
  destruct files as [|f rest]; simpl; [now rewrite app_nil_r|].
  pose proof (pendingFiles_start f s) as Hp.
  destruct (processImage_start f s) as [tid s1]. simpl in Hp.
  unfold pendingFiles in *. destruct s1; simpl in *.
  rewrite map_app, concat_app. simpl. rewrite app_nil_r, app_assoc, Hp.
  now rewrite <- app_assoc.
Qed.

Lemma processRemainingFiles_frame files s :
  let s' := processRemainingFiles files s in
  effects s' = effects s /\ core s' = core s.
Proof.
  destruct files as [|f rest]; simpl; [auto|].
  destruct (processImage_start_frame f s) as (_ & He & Hc & _).
  destruct (processImage_start f s) as [tid s1]. simpl in *.
  rewrite <- He, <- Hc. now destruct s1.
Qed.

Lemma handleFiles_pending files s :
  pendingFiles (handleFiles files s)
  ≡ₚ pendingFiles s ++ List.filter allowed files.
Proof.
  unfold handleFiles.
  pose proof (filterValid_fst files s) as H1.
  pose proof (filterValid_snd files s) as H2.
  destruct (filterValid files s) as [valid s1]. simpl in *. subst valid.
  assert (Hp : pendingFiles s1 = pendingFiles s).
  { subst s1. unfold pendingFiles.
    now destruct (showErrors_frame (flat_map rejection files) s) as (-> & -> & _). }
  destruct (List.filter allowed files) as [|f0 others].
  - now rewrite app_nil_r, Hp.
  - pose proof (pendingFiles_start f0 s1) as H0.
    destruct (processImage_start f0 s1) as [tid s2]. simpl in H0.
    destruct others as [|f1 rest].
    + now rewrite H0, Hp.
    + rewrite processRemainingFiles_pending, H0, Hp.
      now rewrite <- app_assoc.
Qed.

Lemma handleFiles_frame files s :
  let s' := handleFiles files s in
  core s' = core s
  /\ shownErrors (effects s')
     = shownErrors (effects s) ++ flat_map rejection files.
Proof.
  unfold handleFiles.
  pose proof (filterValid_snd files s) as H2.
  destruct (filterValid files s) as [valid s1]. simpl in *.
  destruct (showErrors_frame (flat_map rejection files) s)
    as (_ & _ & Hc & _ & He).
  rewrite <- H2 in Hc, He. rewrite <- Hc, <- He. clear.
  destruct valid as [|f0 others]; [auto|].
  destruct (processImage_start_frame f0 s1) as (_ & He & Hc & _).
  destruct (processImage_start f0 s1) as [tid s2]. simpl in *.
  rewrite <- He, <- Hc.
  destruct others as [|f1 rest]; [auto|].
  destruct (processRemainingFiles_frame (f1 :: rest) s2) as [-> ->]. auto.
Qed.


Lemma allowed_isImage f : includes validTypes (file_type f) = true -> isImage f = true.
Proof.
  unfold includes, validTypes, isImage. simpl. rewrite !orb_true_iff.
  intros [H | [H | [H | H]]]; try discriminate;
    apply String.eqb_eq in H; rewrite H; reflexivity.
Qed.

Lemma filter_allowed_images files :
  List.filter allowed (List.filter isImage files) = List.filter allowed files.
Proof.
  induction files as [|f files IH]; simpl; [reflexivity|].
  destruct (isImage f) eqn:Hi; simpl; rewrite IH; [reflexivity|].
  destruct (allowed f) eqn:Ha; [|reflexivity].
  unfold allowed in Ha. apply andb_true_iff in Ha as [Ha _].
  apply allowed_isImage in Ha. congruence.
Qed.

Lemma onChange_spec files s :
  accepts (Change files) s (List.filter allowed files)
  /\ shownErrors (effects (step (Change files) s))
     = shownErrors (effects s) ++ flat_map rejection files.
Proof.
  unfold accepts. simpl. unfold onChange. destruct files as [|f files].
  - simpl. rewrite !app_nil_r. auto.
  - destruct (handleFiles_frame (f :: files) s) as [Hc He].
    split; [split|];
      [apply handleFiles_pending | unfold core in Hc; congruence | exact He].
Qed.

Lemma onDrop_spec files s :
  accepts (Drop files) s (List.filter allowed files)
  /\ shownErrors (effects (step (Drop files) s))
     = shownErrors (effects s) ++ flat_map rejection (List.filter isImage files).
Proof.
  unfold accepts. simpl. unfold onDrop.
  rewrite <- (filter_allowed_images files).
  change (List.filter (fun file => String.prefix "image/" (file_type file)) files)
    with (List.filter isImage files).
  set (s0 := with_uploadZone _ s).
  assert (H0 : pendingFiles s0 = pendingFiles s /\ core s0 = core s
               /\ effects s0 = effects s) by (now destruct s).
  destruct H0 as (Hp & Hc & He). rewrite <- Hp, <- He.
  assert (Hi : processedImages s = processedImages s0)
    by (unfold core in Hc; congruence).
  rewrite Hi. clear Hp Hc He Hi.
  destruct (List.filter isImage files) as [|f images] eqn:E.
  - simpl. rewrite !app_nil_r. auto.
  - destruct (handleFiles_frame (f :: images) s0) as [Hc He].
    split; [split|];
      [apply handleFiles_pending | unfold core in Hc; congruence | exact He].
Qed.

Lemma rejection_in f files (P : File -> bool) m :
  In f files -> P f = true -> In m (rejection f) ->
  In m (flat_map rejection (List.filter P files)).
Proof.
  intros Hf HP Hm. apply in_flat_map. exists f. split; [|exact Hm].
  apply filter_In. auto.
Qed.

Lemma filter_true_id (files : list File) : List.filter (fun _ => true) files = files.
Proof. induction files; simpl; congruence. Qed.

Lemma not_allowed_out f files : allowed f = false -> ~ In f (List.filter allowed files).
Proof. intros Hf [_ H]%filter_In. congruence. Qed.

(** Where the message stays on the page: when no file of the batch is
    accepted.  When one is, its [processImage] call starts in the same
    handler and hides the message again. *)
Lemma gate_message_stays files s :
  List.filter allowed files = [] -> flat_map rejection files <> [] ->
  er_active (errorMessage (handleFiles files s)) = true.
Proof.
  intros Hnone Hsome. unfold handleFiles.
  pose proof (filterValid_fst files s) as H1.
  pose proof (filterValid_snd files s) as H2.
  destruct (filterValid files s) as [valid s1]. simpl in *.
  rewrite Hnone in H1. subst valid s1. now apply showErrors_active.
Qed.

Lemma gate_message_hidden files s :
  List.filter allowed files <> [] ->
  er_active (errorMessage (handleFiles files s)) = false.
Proof.
  intros Hsome. unfold handleFiles.
  pose proof (filterValid_fst files s) as H1.
  destruct (filterValid files s) as [valid s1]. simpl in *. subst valid.
  destruct (List.filter allowed files) as [|f0 others]; [congruence|].
  pose proof (processImage_start_hides f0 s1) as H0.
  destruct (processImage_start f0 s1) as [tid s2]. simpl in H0.
  destruct others as [|f1 rest]; [exact H0|].
  simpl. pose proof (processImage_start_hides f1 s2) as H3.
  destruct (processImage_start f1 s2) as [tid' s3]. simpl in *.
  now destruct s3.
Qed.

End GateFacts.

(** ** The queue and its cursor *)

Module QueueFacts.
Import App Samples.

Lemma Inv_core s s' : core s' = core s -> Inv s -> Inv s'.
Proof.
  unfold Inv, cursor_valid, items_valid, core. intros [= -> -> ->]. auto.
Qed.

Lemma showResult_core r s : core (showResult r s) = core s.
Proof. by_cases. Qed.

Lemma showResult_enter_core s : core (showResult_enter s) = core s.
Proof. by_cases. Qed.

Lemma processImage_infer_core t s : core (processImage_infer t s) = core s.
Proof. by_cases. Qed.

Lemma processImage_catch_core t e s : core (processImage_catch t e s) = core s.
Proof. destruct e; by_cases. Qed.

Lemma set_pc_core tid pc s : core (set_pc tid pc s) = core s.
Proof. by_cases. Qed.

Lemma finish_task_core tid s : core (finish_task tid s) = core s.
Proof. by_cases. Qed.

Lemma onDownloadClick_core s : core (onDownloadClick s) = core s.
Proof.
  unfold onDownloadClick. destruct (_ >=? _)%Z; [|reflexivity].
  destruct (imageAt s _); [|reflexivity]. by_cases.
Qed.

Lemma onNewImageClick_core s : core (onNewImageClick s) = core s.
Proof. by_cases. Qed.

Lemma handleSliderMove_core x rect s : core (handleSliderMove x rect s) = core s.
Proof. by_cases. Qed.

Lemma loop_resume_core tid s : core (loop_resume tid s) = core s.
Proof.
  unfold loop_resume. destruct (find_task tid s); [reflexivity|].
  destruct (List.find _ (loops s)) as [l|]; [|reflexivity].
  destruct (GateFacts.processRemainingFiles_frame (loop_rest l)
              (set_loops (List.filter (fun l => negb (Nat.eqb (loop_awaits l) tid))
                            (loops s)) s)) as [_ ->].
  by_cases.
Qed.

Lemma onChange_core files s : core (onChange files s) = core s.
Proof.
  unfold onChange. destruct files; [reflexivity|].
  apply GateFacts.handleFiles_frame.
Qed.

Lemma onDrop_core files s : core (onDrop files s) = core s.
Proof.
  unfold onDrop. destruct (List.filter _ files).
  - by_cases.
  - etransitivity; [apply GateFacts.handleFiles_frame|]. by_cases.
Qed.

Lemma updateQueue_Inv s : Inv s -> Inv (updateQueue s).
Proof.
  intros [Hc Hi]. unfold updateQueue.
  destruct (length (processedImages s) <=? 1)%nat.
  - apply (Inv_core s); [by_cases | split; assumption].
  - split; [now destruct s|].
    unfold items_valid. destruct s; simpl in *. clear.
    apply Forall_lookup. intros i item Hl.
    rewrite list_lookup_imap in Hl.
    destruct (processedImages0 !! i) as [img|] eqn:E; [|discriminate].
    injection Hl as <-. simpl. eapply lookup_lt_Some, E.
Qed.

Lemma showAt_Inv i s : Inv s -> Inv (showAt i s).
Proof.
  intros H. unfold showAt. destruct (imageAt s i) as [img|].
  - apply updateQueue_Inv.
    apply (Inv_core s); [apply showResult_core | exact H].
  - apply (Inv_core s); [apply showResult_enter_core | exact H].
Qed.

Lemma set_cursor_Inv i s :
  Inv s -> (0 <= i < Z.of_nat (length (processedImages s)))%Z ->
  Inv (set_currentImageIndex i s).
Proof.
  intros [Hc Hi] Hr. split; [|now destruct s].
  unfold cursor_valid in *. destruct s; simpl in *.
  destruct processedImages0; [simpl in Hr; lia | exact Hr].
Qed.

Lemma cursor_valid_range s :
  cursor_valid s -> processedImages s <> [] ->
  (0 <= currentImageIndex s < Z.of_nat (length (processedImages s)))%Z.
Proof. unfold cursor_valid. destruct (processedImages s); [congruence | auto]. Qed.

Lemma cursor_valid_lower s : cursor_valid s -> (-1 <= currentImageIndex s)%Z.
Proof. unfold cursor_valid. destruct (processedImages s); lia. Qed.

Lemma cursor_valid_upper s :
  cursor_valid s -> (currentImageIndex s < Z.of_nat (length (processedImages s)))%Z.
Proof. unfold cursor_valid. destruct (processedImages s); simpl; lia. Qed.

Lemma onKeydown_Inv key s : Inv s -> Inv (onKeydown key s).
Proof.
  intros H. unfold onKeydown.
  destruct (rv_active (resultContainer s)); [|exact H].
  destruct (String.eqb key "ArrowLeft" && (currentImageIndex s >? 0)%Z) eqn:E1.
  { apply andb_true_iff in E1 as [_ E1]. apply Z.gtb_lt in E1.
    apply showAt_Inv, set_cursor_Inv; [exact H|].
    pose proof (cursor_valid_upper s (proj1 H)). lia. }
  destruct (String.eqb key "ArrowRight" && _) eqn:E2.
  { apply andb_true_iff in E2 as [_ E2]. apply Z.ltb_lt in E2.
    apply showAt_Inv, set_cursor_Inv; [exact H|].
    pose proof (cursor_valid_lower s (proj1 H)). lia. }
  destruct (String.eqb key "d" || String.eqb key "D").
  { apply (Inv_core s); [apply onDownloadClick_core | exact H]. }
  destruct (String.eqb key "n" || String.eqb key "N"); [|exact H].
  apply (Inv_core s); [apply onNewImageClick_core | exact H].
Qed.

Lemma onQueueItemClick_Inv k s : Inv s -> Inv (onQueueItemClick k s).
Proof.
  intros H. unfold onQueueItemClick.
  destruct (queueList (queueContainer s) !! k) as [item|] eqn:E; [|exact H].
  apply showAt_Inv, set_cursor_Inv; [exact H|].
  destruct H as [_ Hi]. unfold items_valid in Hi.
  rewrite Forall_lookup in Hi. specialize (Hi k item E). simpl in Hi. lia.
Qed.

Lemma processImage_done_queue t u blob s :
  exists r,
    processedImages (processImage_done t u blob s) = processedImages s ++ [r]
    /\ currentImageIndex (processImage_done t u blob s)
       = (Z.of_nat (length (processedImages s ++ [r])) - 1)%Z
    /\ displayed r (processImage_done t u blob s)
    /\ original r = u
    /\ resultBlob r = blob
    /\ url_source (result r) = OfBlob blob
    /\ name r = Naming.nobgName (file_name (task_file t)).
Proof.
  exists {| original := u;
            result := {| url_id := nextUrl s; url_source := OfBlob blob |};
            resultBlob := blob;
            name := Naming.nobgName (file_name (task_file t)) |}.
  unfold processImage_done, displayed, updateQueue.
  destruct s; simpl.
  match goal with |- context [if ?b then _ else _] => destruct b end;
    simpl; repeat split; reflexivity.
Qed.

Lemma processImage_done_Inv t u blob s : Inv s -> Inv (processImage_done t u blob s).
Proof.
  intros [Hc Hi]. unfold processImage_done.
  destruct s; simpl in *.
  set (r := {| original := u |}).
  match goal with
  | |- Inv (finish_task _ ?x) => apply (Inv_core x); [apply finish_task_core|]
  end.
  apply updateQueue_Inv. split.
  - unfold cursor_valid. simpl. destruct (processedImages0 ++ [r]) eqn:E.
    + now destruct processedImages0.
    + rewrite <- E, length_app. simpl. lia.
  - unfold items_valid in *. simpl in *. eapply Forall_impl; [exact Hi|].
    intros item. simpl. rewrite length_app. lia.
Qed.

Lemma initial_Inv : Inv initial.
Proof. split; [reflexivity | constructor]. Qed.

Lemma step_Inv ev s : Inv s -> Inv (step ev s).
Proof.
  intros H.
  destruct ev; simpl;
    try (destruct (isDragging s); [|exact H]);
    try (destruct touches as [|x [|? ?]]; try exact H);
    try (destruct onSlider; [exact H|]);
    try (destruct (find_task tid s) as [[? ? []]|]; try exact H; simpl);
    lazymatch goal with
    | |- Inv (onQueueItemClick _ _) => now apply onQueueItemClick_Inv
    | |- Inv (onKeydown _ _) => now apply onKeydown_Inv
    | |- Inv (processImage_done _ _ _ _) => now apply processImage_done_Inv
    | |- Inv (set_pc _ _ (initializeModel_loaded _)) =>
        apply (Inv_core (initializeModel_loaded s)); [apply set_pc_core|];
        apply (Inv_core s); [by_cases | exact H]
    | |- Inv (onDrop _ _) => apply (Inv_core s); [apply onDrop_core | exact H]
    | |- Inv (onChange _ _) => apply (Inv_core s); [apply onChange_core | exact H]
    | |- Inv (onDownloadClick _) =>
        apply (Inv_core s); [apply onDownloadClick_core | exact H]
    | |- Inv (onNewImageClick _) =>
        apply (Inv_core s); [apply onNewImageClick_core | exact H]
    | |- Inv (loop_resume _ _) =>
        apply (Inv_core s); [apply loop_resume_core | exact H]
    | |- Inv (handleSliderMove _ _ _) =>
        apply (Inv_core s); [apply handleSliderMove_core | exact H]
    | |- Inv (set_pc _ _ _) => apply (Inv_core s); [apply set_pc_core | exact H]
    | |- Inv (processImage_infer _ _) =>
        apply (Inv_core s); [apply processImage_infer_core | exact H]
    | |- Inv (processImage_catch _ _ _) =>
        apply (Inv_core s); [apply processImage_catch_core | exact H]
    | |- _ => apply (Inv_core s); [by_cases | exact H]
    end.
Qed.

Lemma run_Inv evs s : Inv s -> Inv (run evs s).
Proof.
  revert s. induction evs as [|ev evs IH]; intros s H; [exact H|].
  simpl. apply IH, step_Inv, H.
Qed.

(** C4. In every state that the application can reach, by any sequence of
    events from its initial state, the cursor is [-1] when the queue is empty
    and an index in [0, length-1] when it is not; every event handler and
    every continuation of [processImage] keeps it so. *)
Theorem cursor_invariant evs ev :
  cursor_valid initial
  /\ cursor_valid (run evs initial)
  /\ cursor_valid (step ev (run evs initial)).
Proof.
  split; [reflexivity|]. split.
  - apply run_Inv, initial_Inv.
  - apply step_Inv, run_Inv, initial_Inv.
Qed.

End QueueFacts.

(** ** Navigation, failures and file names in the pipeline *)

Module PipelineFacts.
Import App Samples.

Lemma imageAt_set_cursor i j s :
  imageAt (set_currentImageIndex j s) i = imageAt s i.
Proof. by_cases. Qed.

Lemma imageAt_in_range s i :
  (0 <= i < Z.of_nat (length (processedImages s)))%Z ->
  exists r, imageAt s i = Some r.
Proof.
  intros Hi. unfold imageAt.
  destruct (i <? 0)%Z eqn:E; [apply Z.ltb_lt in E; lia|].
  apply lookup_lt_is_Some. lia.
Qed.

Lemma updateQueue_frame s :
  resultContainer (updateQueue s) = resultContainer s
  /\ currentImageIndex (updateQueue s) = currentImageIndex s
  /\ processedImages (updateQueue s) = processedImages s.
Proof.
  unfold updateQueue. destruct (_ <=? _)%nat; now destruct s.
Qed.

Lemma showResult_displays r s :
  displayed r (showResult r s)
  /\ currentImageIndex (showResult r s) = currentImageIndex s
  /\ processedImages (showResult r s) = processedImages s.
Proof. unfold displayed. now destruct s. Qed.

Lemma showAt_displays i r s :
  imageAt s i = Some r ->
  displayed r (showAt i s)
  /\ currentImageIndex (showAt i s) = currentImageIndex s
  /\ processedImages (showAt i s) = processedImages s.
Proof.
  intros Hr. unfold showAt. rewrite Hr.
  destruct (updateQueue_frame (showResult r s)) as (Hv & Hc & Hp).
  destruct (showResult_displays r s) as (Hd & Hc' & Hp').
  unfold displayed in *. rewrite Hv, Hc, Hp. auto.
Qed.

(** C8. While a result is on display: the left arrow at index 0 and the
    right arrow at the last index change nothing at all; at any other
    position the left arrow moves the cursor by -1 and the right arrow by
    +1, and the record at the new cursor is the one displayed. *)
Theorem arrow_navigation s :
  rv_active (resultContainer s) = true ->
  cursor_valid s ->
  processedImages s <> [] ->
  let cur := currentImageIndex s in
  let last := (Z.of_nat (length (processedImages s)) - 1)%Z in
  (cur = 0%Z -> step (Keydown "ArrowLeft") s = s)
  /\ (cur = last -> step (Keydown "ArrowRight") s = s)
  /\ ((0 < cur)%Z ->
      exists r, imageAt s (cur - 1) = Some r
        /\ currentImageIndex (step (Keydown "ArrowLeft") s) = (cur - 1)%Z
        /\ displayed r (step (Keydown "ArrowLeft") s))
  /\ ((cur < last)%Z ->
      exists r, imageAt s (cur + 1) = Some r
        /\ currentImageIndex (step (Keydown "ArrowRight") s) = (cur + 1)%Z
        /\ displayed r (step (Keydown "ArrowRight") s)).
Proof.
  intros Hact Hvalid Hne cur last.
  pose proof (QueueFacts.cursor_valid_range s Hvalid Hne) as Hrange.
  fold cur in Hrange. simpl. unfold onKeydown. rewrite Hact. fold cur last.
  repeat split.
  - intros ->. reflexivity.
  - intros ->. simpl. now rewrite Z.ltb_irrefl.
  - intros Hpos.
    destruct (imageAt_in_range s (cur - 1)) as [r Hr]; [lia|].
    exists r. split; [exact Hr|].
    replace (cur >? 0)%Z with true by (symmetry; apply Z.gtb_lt; lia).
    simpl.
    destruct (showAt_displays (cur - 1) r (set_currentImageIndex (cur - 1) s))
      as (Hd & Hc & _); [now rewrite imageAt_set_cursor|].
    replace (currentImageIndex (set_currentImageIndex (cur - 1) s))
      with (cur - 1)%Z in * by (now destruct s).
    auto.
  - intros Hlt.
    destruct (imageAt_in_range s (cur + 1)) as [r Hr]; [lia|].
    exists r. split; [exact Hr|].
    replace (cur <? last)%Z with true by (symmetry; apply Z.ltb_lt; lia).
    simpl.
    destruct (showAt_displays (cur + 1) r (set_currentImageIndex (cur + 1) s))
      as (Hd & Hc & _); [now rewrite imageAt_set_cursor|].
    replace (currentImageIndex (set_currentImageIndex (cur + 1) s))
      with (cur + 1)%Z in * by (now destruct s).
    auto.
Qed.


Lemma arrow_navigation_witness :
  step (Keydown "ArrowRight") twoResults = twoResults
  /\ exists r, imageAt twoResults 0 = Some r
       /\ currentImageIndex (step (Keydown "ArrowLeft") twoResults) = 0%Z
       /\ displayed r (step (Keydown "ArrowLeft") twoResults).
Proof.
  assert (Ha : rv_active (resultContainer twoResults) = true)
    by (vm_compute; reflexivity).
  assert (Hv : cursor_valid twoResults)
    by (vm_compute; split; [discriminate | reflexivity]).
  assert (Hne : processedImages twoResults <> [])
    by (vm_compute; discriminate).
  destruct (arrow_navigation twoResults Ha Hv Hne) as (_ & Hr & Hl & _).
  split; [apply Hr | apply Hl]; vm_compute; reflexivity.
Defined.

(** *** Failures *)

Lemma find_task_id tid s t : find_task tid s = Some t -> task_id t = tid.
Proof.
  unfold find_task. intros H. apply find_some in H as [_ H].
  now apply Nat.eqb_eq.
Qed.

Lemma find_filter_out tid (ts : list Task) :
  List.find (fun t => Nat.eqb (task_id t) tid)
    (List.filter (fun t => negb (Nat.eqb (task_id t) tid)) ts) = None.
Proof.
  induction ts as [|t ts IH]; simpl; [reflexivity|].
  destruct (Nat.eqb (task_id t) tid) eqn:E; simpl; [exact IH|].
  now rewrite E.
Qed.

Lemma find_task_finish tid s : find_task tid (finish_task tid s) = None.
Proof. unfold find_task. destruct s; simpl. apply find_filter_out. Qed.

Lemma find_task_set_pc tid pc s t :
  find_task tid s = Some t ->
  find_task tid (set_pc tid pc s)
  = Some {| task_id := tid; task_file := task_file t; task_pc := pc |}.
Proof.
  unfold find_task. destruct s; simpl. clear.
  induction tasks0 as [|t0 ts IH]; simpl; [discriminate|].
  destruct (Nat.eqb (task_id t0) tid) eqn:E; simpl.
  - intros [= ->]. now rewrite Nat.eqb_refl.
  - rewrite E. exact IH.
Qed.

Lemma processImage_catch_shows t e s :
  let s' := processImage_catch t (Value e) s in
  failureShown (catch_text e) s'
  /\ processedImages s' = processedImages s
  /\ currentImageIndex s' = currentImageIndex s
  /\ find_task (task_id t) s' = None
  /\ loops s' = loops s
  /\ nextTask s' = nextTask s
  /\ consoleErrors (effects s') = consoleErrors (effects s) ++ [Value e].
Proof.
  unfold processImage_catch, failureShown.
  repeat split; try (now destruct s).
  apply find_task_finish.
Qed.

Lemma set_pc_frame tid pc s :
  processedImages (set_pc tid pc s) = processedImages s
  /\ currentImageIndex (set_pc tid pc s) = currentImageIndex s
  /\ loops (set_pc tid pc s) = loops s
  /\ nextTask (set_pc tid pc s) = nextTask s.
Proof. now destruct s. Qed.

Lemma processImage_start_page f s :
  let s' := (processImage_start f s).2 in
  er_active (errorMessage s') = false
  /\ pr_active (processing s') = true
  /\ uz_display (uploadZone s') = DisplayNone.
Proof.
  unfold processImage_start, initializeModel_start.
  destruct s as [fn ? ? ? ? ? ? ? ? ? ? ? ? ? ?]; destruct fn; simpl; auto.
Qed.

Lemma loops_set_loops ls s : loops (set_loops ls s) = ls.
Proof. now destruct s. Qed.

Lemma tasks_set_loops ls s : tasks (set_loops ls s) = tasks s.
Proof. now destruct s. Qed.

(** The loop that awaits a call that has returned takes its next file. *)
Lemma loop_takes_next tid l f rest s :
  find_task tid s = None ->
  List.find (fun l => Nat.eqb (loop_awaits l) tid) (loops s) = Some l ->
  loop_rest l = f :: rest ->
  let s' := step (ProcessImageSettled tid) s in
  (exists pc,
     In {| task_id := nextTask s; task_file := f; task_pc := pc |} (tasks s'))
  /\ In {| loop_awaits := nextTask s; loop_rest := rest |} (loops s')
  /\ er_active (errorMessage s') = false
  /\ pr_active (processing s') = true
  /\ uz_display (uploadZone s') = DisplayNone
  /\ core s' = core s.
Proof.
  intros Hf Hl Hrest. unfold step, loop_resume. rewrite Hf, Hl, Hrest.
  set (s0 := set_loops _ s).
  assert (E : nextTask s0 = nextTask s /\ core s0 = core s)
    by (now destruct s).
  destruct E as [En Ec]. rewrite <- En, <- Ec.
  unfold processRemainingFiles.
  destruct (GateFacts.processImage_start_tasks f s0) as [pc Ht].
  destruct (GateFacts.processImage_start_frame f s0) as (_ & _ & Hc & Hi & _).
  destruct (processImage_start_page f s0) as (He & Hp & Hu).
  destruct (processImage_start f s0) as [tid' s1].
  cbn [fst snd] in Ht, Hc, Hi, He, Hp, Hu. subst tid'.
  rewrite <- Hc, <- He, <- Hp, <- Hu.
  split; [exists pc|];
    [|split; [|now destruct s1]].
  - rewrite tasks_set_loops, Ht. apply in_or_app. right. now left.
  - rewrite loops_set_loops. apply in_or_app. right. now left.
Qed.

(** The loop that awaits a call that has returned ends when no file is
    left, and nothing happens when no loop awaits the call. *)
Lemma loop_ends tid s :
  find_task tid s = None ->
  let s' := step (ProcessImageSettled tid) s in
  match List.find (fun l => Nat.eqb (loop_awaits l) tid) (loops s) with
  | None => s' = s
  | Some l =>
      loop_rest l = [] ->
      errorMessage s' = errorMessage s
      /\ uploadZone s' = uploadZone s
      /\ processing s' = processing s
      /\ resultContainer s' = resultContainer s
      /\ core s' = core s
  end.
Proof.
  intros Hf. unfold step, loop_resume. rewrite Hf.
  destruct (List.find _ (loops s)) as [l|]; [|reflexivity].
  intros ->. cbn [processRemainingFiles]. now destruct s.
Qed.

Lemma failureHandled_intro tid text s s1 :
  failureShown text s1 ->
  core s1 = core s ->
  loops s1 = loops s ->
  nextTask s1 = nextTask s ->
  find_task tid s1 = None ->
  failureHandled tid text s s1.
Proof.
  intros Hs Hc Hl Hn Hf. unfold failureHandled.
  assert (Hp : processedImages s1 = processedImages s
               /\ currentImageIndex s1 = currentImageIndex s)
    by (unfold core in Hc; split; congruence).
  destruct Hp as [Hp Hi].
  split; [exact Hs|]. split; [exact Hp|]. split; [exact Hi|].
  split; [exact Hf|]. cbv zeta. rewrite <- Hl, <- Hn, <- Hp, <- Hi.
  pose proof (loop_ends tid s1 Hf) as Hend. cbv zeta in Hend.
  destruct (List.find _ (loops s1)) as [l|] eqn:Hfind.
  - destruct (loop_rest l) as [|f rest] eqn:Hrest.
    + destruct (Hend eq_refl) as (He & Hu & Hpr & Hr & Hc').
      unfold core in Hc'. split; [congruence|]. split; [congruence|].
      unfold failureShown in *. rewrite He, Hu, Hpr, Hr. exact Hs.
    + destruct (loop_takes_next tid l f rest s1 Hf Hfind Hrest)
        as (Ht & _ & He & Hpr & Hu & Hc').
      unfold core in Hc'. split; [congruence|]. split; [congruence|]. auto.
  - rewrite Hend. auto.
Qed.

(** C7, amended.  When the inference of an item, or the loading of the
    model, fails with a value other than [null] and [undefined], the
    [catch] block of [processImage] puts the message of the failure into
    the error box (for a failed import after the fixed prefix of
    [initializeModel], for a failed inference as it is, a fixed text
    standing in for an absent or empty message), shows the upload view and
    ends the item without touching the queue or its cursor.  That is what
    the user sees unless the call is awaited by the loop of
    [processRemainingFiles] with a file left: then the call for that file
    starts at once, hiding the message and the upload zone again; the queue
    and its cursor stay as they were. *)
Theorem failure_handling s tid t e :
  find_task tid s = Some t ->
  (forall u, task_pc t = AtInference u ->
     failureHandled tid (catch_text e) s
       (step (InferenceRejected tid (Value e)) s)
     /\ (forall m, message e = Some m -> m <> "" -> catch_text e = m)
     /\ ((message e = None \/ message e = Some "") ->
         catch_text e = "Failed to process image. Please try again."))
  /\ (task_pc t = AtImport ->
      failureHandled tid
        ("Failed to load background removal model: " +:+ message_text e) s
        (step (InitSettled tid) (step (ImportRejected tid (Value e)) s))
      /\ (forall m, message e = Some m -> message_text e = m)).
Proof.
  intros Hfind. pose proof (find_task_id _ _ _ Hfind) as Hid. split.
  - intros u Hpc. split; [|split].
    + unfold step. rewrite Hfind, Hpc.
      destruct (processImage_catch_shows t e s)
        as (Hs & Hp & Hc & Hf & Hl & Hn & _).
      rewrite Hid in Hf. apply failureHandled_intro; try assumption.
      apply QueueFacts.processImage_catch_core.
    + intros m Hm Hne. unfold catch_text. rewrite Hm.
      destruct (String.eqb m "") eqn:E; [|reflexivity].
      apply String.eqb_eq in E. contradiction.
    + unfold catch_text. now intros [-> | ->].
  - intros Hpc. split.
    + unfold step at 2. rewrite Hfind.
      destruct t as [tid' file pc]. simpl in Hid, Hpc. subst pc tid'.
      cbn [initializeModel_error].
      set (e' := {| message := Some ("Failed to load background removal model: "
                                     +:+ message_text e) |}).
      set (s1 := set_pc tid (AtInitFailed e') s).
      assert (H1 : find_task tid s1
                   = Some {| task_id := tid; task_file := file;
                             task_pc := AtInitFailed e' |})
        by (apply (find_task_set_pc tid _ s _ Hfind)).
      unfold step. rewrite H1. cbn [task_pc].
      destruct (processImage_catch_shows
                  {| task_id := tid; task_file := file;
                     task_pc := AtInitFailed e' |} e' s1)
        as (Hs & _ & _ & Hf & Hl & Hn & _).
      destruct (set_pc_frame tid (AtInitFailed e') s) as (_ & _ & Hl1 & Hn1).
      fold s1 in Hl1, Hn1. cbn [task_id] in Hf.
      assert (Htext : catch_text e'
                      = "Failed to load background removal model: "
                        +:+ message_text e) by reflexivity.
      rewrite Htext in Hs.
      apply failureHandled_intro; try assumption; try congruence.
      rewrite QueueFacts.processImage_catch_core.
      apply QueueFacts.set_pc_core.
    + intros m Hm. unfold message_text. now rewrite Hm.
Qed.

Lemma failure_handling_witness :
  failureHandled 1 "out of memory" threeInFlight
    (step (InferenceRejected 1 (Value boom)) threeInFlight)
  /\ failureHandled 0 "Failed to load background removal model: out of memory"
       oneLoading
       (step (InitSettled 0) (step (ImportRejected 0 (Value boom)) oneLoading)).
Proof.
  split.
  - destruct (find_task 1 threeInFlight) as [t|] eqn:Hfind; [|discriminate].
    destruct (failure_handling threeInFlight 1 t boom Hfind) as [H _].
    injection Hfind as <-.
    destruct (H _ eq_refl) as (H1 & _). exact H1.
  - destruct (find_task 0 oneLoading) as [t|] eqn:Hfind; [|discriminate].
    destruct (failure_handling oneLoading 0 t boom Hfind) as [_ H].
    injection Hfind as <-.
    destruct (H eq_refl) as (H1 & _). exact H1.
Defined.

(** C7, as stated, fails for an item that the loop awaits while a file is
    left: the inference of the second of three files fails, the loop goes
    on with the third before the page is painted, and the user sees the
    processing view without a message. *)
Lemma failure_hidden_by_next_item :
  let s := threeInFlight in
  let s' := run [InferenceRejected 1 (Value boom); ProcessImageSettled 1] s in
  (exists t u, find_task 1 s = Some t /\ task_pc t = AtInference u)
  /\ ~ (exists text, failureShown text s')
  /\ er_active (errorMessage s') = false
  /\ uz_display (uploadZone s') = DisplayNone
  /\ pr_active (processing s') = true.
Proof.
  cbv zeta. split; [|split].
  - vm_compute. eauto.
  - intros (text & H & _). vm_compute in H. discriminate H.
  - vm_compute. auto.
Qed.

(** The message of an item that no loop awaits stays on the page. *)
Example inference_failure_shown :
  errorMessage (run [InferenceRejected 0 (Value boom); ProcessImageSettled 0]
                  twoInFlight)
  = {| er_active := true; er_text := "out of memory" |}.
Proof. vm_compute. reflexivity. Qed.

(** A rejection with [null] or [undefined] is outside the amended claim:
    [error.message] throws in the [catch] block, nothing is shown, the
    processing view stays and the loop that awaits the call ends, so the
    third file is never taken. *)
Example nullish_rejection_shows_nothing :
  let s := threeInFlight in
  let s' := run [InferenceRejected 1 (Nullish "Cannot read properties of null");
                 ProcessImageSettled 1] s in
  errorMessage s' = errorMessage s
  /\ pr_active (processing s') = true
  /\ uz_display (uploadZone s') = DisplayNone
  /\ pendingFiles s = [photoA; photoB; photoC]
  /\ pendingFiles s' = [photoA].
Proof. vm_compute. auto. Qed.


(** *** The stored record and the download *)

Lemma onDownloadClick_saves s r :
  imageAt s (currentImageIndex s) = Some r ->
  downloads (effects (step DownloadClick s))
  = downloads (effects s) ++ [(result r, name r)].
Proof.
  intros Hr. simpl. unfold onDownloadClick. rewrite Hr.
  destruct (currentImageIndex s >=? 0)%Z eqn:E; [now destruct s|].
  unfold imageAt in Hr.
  replace (currentImageIndex s <? 0)%Z with true in Hr; [discriminate|].
  symmetry. apply Z.ltb_lt. rewrite Z.geb_leb in E. apply Z.leb_gt in E. lia.
Qed.

(** C10. The record stored for a successfully processed file carries the
    result blob and, as its name, the name of the file without its final
    extension (the last dot followed by one or more characters that are
    neither dots nor slashes, at the end of the name) followed by
    [_nobg.png]; a name without such an extension is kept whole.  The
    download action saves the URL of that result under that name. *)
Theorem suggested_file_name s tid t u blob :
  find_task tid s = Some t ->
  task_pc t = AtInference u ->
  let fname := file_name (task_file t) in
  let s' := step (InferenceResolved tid blob) s in
  exists r,
    processedImages s' = processedImages s ++ [r]
    /\ imageAt s' (currentImageIndex s') = Some r
    /\ resultBlob r = blob
    /\ url_source (result r) = OfBlob blob
    /\ (forall stem ext,
          fname = stem +:+ "." +:+ ext -> Naming.is_extension ext ->
          name r = stem +:+ "_nobg.png")
    /\ ((forall stem ext,
           Naming.is_extension ext -> fname <> stem +:+ "." +:+ ext) ->
        name r = fname +:+ "_nobg.png")
    /\ (forall s2,
          imageAt s2 (currentImageIndex s2) = Some r ->
          downloads (effects (step DownloadClick s2))
          = downloads (effects s2) ++ [(result r, name r)]).
Proof.
  intros Hfind Hpc fname s'. subst s'. unfold step. rewrite Hfind, Hpc.
  destruct (QueueFacts.processImage_done_queue t u blob s)
    as (r & Hp & Hc & _ & _ & Hb & Hs & Hn).
  exists r. repeat split; try assumption.
  - rewrite Hc. unfold imageAt. rewrite Hp, length_app. simpl.
    replace (Z.of_nat (length (processedImages s) + 1) - 1 <? 0)%Z with false
      by (symmetry; apply Z.ltb_ge; lia).
    replace (Z.to_nat (Z.of_nat (length (processedImages s) + 1) - 1))
      with (length (processedImages s) + 0)%nat by lia.
    now rewrite lookup_app_r, Nat.add_0_r, Nat.sub_diag by lia.
  - intros stem ext E Hext. rewrite Hn. unfold Naming.nobgName. fold fname.
    rewrite E. now rewrite NamingFacts.replace_ext_strips.
  - intros Hno. rewrite Hn. unfold Naming.nobgName. fold fname.
    now rewrite NamingFacts.replace_ext_keeps.
  - intros s2. apply onDownloadClick_saves.
Qed.

Lemma suggested_file_name_witness :
  exists r,
    processedImages (step (InferenceResolved 1 []) twoInFlight) = [r]
    /\ name r = "b_nobg.png"
    /\ downloads (effects (step DownloadClick
                             (step (InferenceResolved 1 []) twoInFlight)))
       = [(result r, "b_nobg.png")].
Proof.
  destruct (find_task 1 twoInFlight) as [t|] eqn:Hfind; [|discriminate].
  destruct (suggested_file_name twoInFlight 1 t
              {| url_id := 1; url_source := OfFile photoB |} [] Hfind)
    as (r & Hp & Hcur & _ & _ & Hstem & _ & Hdl).
  - injection Hfind as <-. reflexivity.
  - injection Hfind as <-. exists r. split; [exact Hp|].
    assert (Hn : name r = "b_nobg.png").
    { apply (Hstem "b" "jpg"); [reflexivity|]. split; [discriminate|].
      simpl. intros c [<- | [<- | [<- | []]]]; split; discriminate. }
    split; [exact Hn|]. rewrite (Hdl _ Hcur), Hn. reflexivity.
Defined.


(** *** The order of processing *)

Lemma filterValid_all_allowed files s :
  Forall (fun f => allowed f = true) files -> filterValid files s = (files, s).
Proof.
  induction 1 as [|f files Hf _ IH]; simpl; [reflexivity|].
  unfold validFile. unfold allowed in Hf.
  apply andb_true_iff in Hf as [Ht Hs]. rewrite Ht. simpl.
  replace (file_size f >? maxSize)%Z with false
    by (symmetry; rewrite Z.gtb_ltb; apply Z.ltb_ge; now apply Z.leb_le).
  now rewrite IH.
Qed.

Lemma handleFiles_all_allowed f0 f1 rest s :
  Forall (fun f => allowed f = true) (f0 :: f1 :: rest) ->
  handleFiles (f0 :: f1 :: rest) s
  = processRemainingFiles (f1 :: rest) (processImage_start f0 s).2.
Proof.
  intros H. unfold handleFiles. rewrite (filterValid_all_allowed _ _ H).
  now destruct (processImage_start f0 s).
Qed.

Lemma run_cons ev evs s : run (ev :: evs) s = run evs (step ev s).
Proof. reflexivity. Qed.

Lemma step_Change f files s :
  step (Change (f :: files)) s = handleFiles (f :: files) s.
Proof. reflexivity. Qed.

(** C1 does not hold of the code.  [handleFiles] calls
    [processImage(validFiles[0])] without awaiting it and starts the loop
    over the other files at once, so for every batch of two or more
    accepted files the second [processImage] call starts before the first
    has a result or an error; once both have passed [initializeModel] the
    two inference calls are in flight together, and the first item has
    neither produced a record nor shown an error. *)
Theorem first_two_overlap f0 f1 rest :
  Forall (fun f => allowed f = true) (f0 :: f1 :: rest) ->
  let s := run (Change (f0 :: f1 :: rest) :: bothStarted) initial in
  inferencesInFlight s = [f0; f1]
  /\ processedImages s = []
  /\ shownErrors (effects s) = []
  /\ map loop_rest (loops s) = [rest].
Proof.
  intros H s. subst s. rewrite run_cons, step_Change.
  rewrite (handleFiles_all_allowed _ _ _ _ H).
  vm_compute. auto.
Qed.

Lemma first_two_overlap_witness :
  inferencesInFlight twoInFlight = [photoA; photoB]
  /\ processedImages twoInFlight = []
  /\ shownErrors (effects twoInFlight) = []
  /\ map loop_rest (loops twoInFlight) = [[]].
Proof.
  apply (first_two_overlap photoA photoB []).
  repeat constructor.
Defined.

(** C5 does not hold of the code as far as the order is concerned.  The
    first two files of a batch are in inference together, and the record of
    the one that finishes first is appended first: when the second file
    finishes before the first, the queue holds the second file's record
    before the first file's. *)
Theorem completion_order f0 f1 blob0 blob1 :
  allowed f0 = true ->
  allowed f1 = true ->
  let s := run (Change [f0; f1] :: bothStarted
                ++ [InferenceResolved 1 blob1; InferenceResolved 0 blob0])
             initial in
  map name (processedImages s)
  = [Naming.nobgName (file_name f1); Naming.nobgName (file_name f0)]
  /\ map resultBlob (processedImages s) = [blob1; blob0]
  /\ map (fun r => url_source (original r)) (processedImages s)
     = [OfFile f1; OfFile f0]
  /\ currentImageIndex s = 1%Z.
Proof.
  intros H0 H1 s. subst s. rewrite run_cons, step_Change.
  rewrite handleFiles_all_allowed by (repeat constructor; assumption).
  vm_compute. auto.
Qed.

Lemma completion_order_witness :
  let s := run (Change [photoA; photoB] :: bothStarted
                ++ [InferenceResolved 1 []; InferenceResolved 0 []])
             initial in
  map name (processedImages s) = ["b_nobg.png"; "a_nobg.png"]
  /\ map resultBlob (processedImages s) = [[]; []]
  /\ map (fun r => url_source (original r)) (processedImages s)
     = [OfFile photoB; OfFile photoA]
  /\ currentImageIndex s = 1%Z.
Proof.
  apply (completion_order photoA photoB [] []); vm_compute; reflexivity.
Defined.

(** What does hold of the queue: an event leaves the array as it is or
    appends one record at its end, and after an append the cursor is the
    new last index. *)
Lemma showAt_images i s : processedImages (showAt i s) = processedImages s.
Proof.
  unfold showAt. destruct (imageAt s i) as [r|]; [|now destruct s].
  destruct (updateQueue_frame (showResult r s)) as (_ & _ & ->).
  now destruct s.
Qed.

Lemma core_images s s' : core s' = core s -> processedImages s' = processedImages s.
Proof. unfold core. congruence. Qed.

Lemma queue_append_only ev s :
  processedImages (step ev s) = processedImages s
  \/ exists r,
       processedImages (step ev s) = processedImages s ++ [r]
       /\ currentImageIndex (step ev s)
          = (Z.of_nat (length (processedImages (step ev s))) - 1)%Z.
Proof.
  destruct ev; unfold step;
    try (destruct (isDragging s); [|now left]);
    try (destruct touches as [|x [|? ?]]; try (now left));
    try (destruct onSlider; [now left|]);
    try (destruct (find_task tid s) as [[? ? []]|]; try (now left);
         cbn [task_pc]);
    lazymatch goal with
    | |- context [processImage_done ?t ?u ?b ?s] =>
        right; destruct (QueueFacts.processImage_done_queue t u b s)
          as (r & Hp & Hc & _); exists r; split; [exact Hp|];
        rewrite Hc, Hp; reflexivity
    | |- context [onQueueItemClick ?k ?s] =>
        left; unfold onQueueItemClick;
        destruct (queueList (queueContainer s) !! k); [|reflexivity];
        rewrite showAt_images; now destruct s
    | |- context [onKeydown ?k ?s] =>
        left; unfold onKeydown;
        destruct (rv_active (resultContainer s)); [|reflexivity];
        repeat (match goal with
                | |- context [if ?b then _ else _] => destruct b
                end);
        try reflexivity;
        try (rewrite showAt_images; now destruct s);
        first [ apply core_images, QueueFacts.onDownloadClick_core
              | apply core_images, QueueFacts.onNewImageClick_core ]
    | |- context [onDrop ?f ?s] => left; apply core_images, QueueFacts.onDrop_core
    | |- context [onChange ?f ?s] =>
        left; apply core_images, QueueFacts.onChange_core
    | |- context [onDownloadClick ?s] =>
        left; apply core_images, QueueFacts.onDownloadClick_core
    | |- context [loop_resume ?t ?s] =>
        left; apply core_images, QueueFacts.loop_resume_core
    | |- context [processImage_infer ?t ?s] =>
        left; apply core_images, QueueFacts.processImage_infer_core
    | |- context [processImage_catch ?t ?e ?s] =>
        left; apply core_images, QueueFacts.processImage_catch_core
    | |- _ => left; now destruct s
    end.
Qed.

End PipelineFacts.

(** ** The comparison slider *)

Module SliderFacts.
Import App Samples.
Local Open Scope Q_scope.

Lemma clamped_range p : 0 <= clampedPercentage p <= 100.
Proof.
  unfold clampedPercentage. split.
  - apply Q.le_max_l.
  - apply Q.max_lub; [discriminate | apply Q.le_min_l].
Qed.

Lemma clamped_low p : p <= 0 -> clampedPercentage p == 0.
Proof.
  intros H. unfold clampedPercentage. apply Q.max_l.
  eapply Qle_trans; [apply Q.le_min_r | exact H].
Qed.

Lemma clamped_high p : 100 <= p -> clampedPercentage p == 100.
Proof.
  intros H. unfold clampedPercentage.
  rewrite (Q.min_l 100 p H). apply Q.max_r. discriminate.
Qed.

Lemma clamped_inside p : 0 <= p <= 100 -> clampedPercentage p == p.
Proof.
  intros [H0 H1]. unfold clampedPercentage.
  rewrite (Q.min_r 100 p H1). now apply Q.max_r.
Qed.

Lemma handleSliderMove_left clientX rect s :
  sliderLine_left (resultContainer (handleSliderMove clientX rect s))
  = Some (clampedPercentage (pointerPercentage clientX rect)).
Proof. now destruct s. Qed.

Lemma pointer_left x rect :
  0 < rect_width rect -> x <= rect_left rect -> pointerPercentage x rect <= 0.
Proof.
  intros Hw Hx. unfold pointerPercentage.
  assert (H : (x - rect_left rect) / rect_width rect <= 0)
    by (apply Qle_shift_div_r; [exact Hw | lra]).
  revert H. generalize ((x - rect_left rect) / rect_width rect). intros t H.
  lra.
Qed.

Lemma pointer_right x rect :
  0 < rect_width rect -> rect_left rect + rect_width rect <= x ->
  100 <= pointerPercentage x rect.
Proof.
  intros Hw Hx. unfold pointerPercentage.
  assert (H : 1 <= (x - rect_left rect) / rect_width rect)
    by (apply Qle_shift_div_l; [exact Hw | lra]).
  revert H. generalize ((x - rect_left rect) / rect_width rect). intros t H.
  lra.
Qed.

Lemma pointer_inside x rect :
  0 < rect_width rect ->
  rect_left rect < x < rect_left rect + rect_width rect ->
  0 < pointerPercentage x rect < 100.
Proof.
  intros Hw [Hl Hr]. unfold pointerPercentage.
  assert (H0 : 0 < (x - rect_left rect) / rect_width rect)
    by (apply Qlt_shift_div_l; [exact Hw | lra]).
  assert (H1 : (x - rect_left rect) / rect_width rect < 1)
    by (apply Qlt_shift_div_r; [exact Hw | lra]).
  revert H0 H1. generalize ((x - rect_left rect) / rect_width rect).
  intros t H0 H1. split; lra.
Qed.

(** The three ways in which the pointer sets the slider. *)
Lemma pointer_events clientX rect s :
  (isDragging s = true ->
   step (MouseMove clientX rect) s = handleSliderMove clientX rect s
   /\ step (TouchMove [clientX] rect) s = handleSliderMove clientX rect s)
  /\ step (ComparisonClick false clientX rect) s
     = handleSliderMove clientX rect s.
Proof. split; [intros H; simpl; now rewrite H | reflexivity]. Qed.

(** C6. With numbers read as exact rationals and a widget of positive
    width, the position that [handleSliderMove] applies lies in [0,100]: it
    is 0 for a pointer at or left of the left edge, 100 for a pointer at or
    right of the right edge, and the proportional percentage
    [(clientX - left) / width * 100] for a pointer strictly inside. *)
Theorem slider_clamped clientX rect s :
  0 < rect_width rect ->
  let left := rect_left rect in
  let right := left + rect_width rect in
  exists p,
    sliderLine_left (resultContainer (handleSliderMove clientX rect s)) = Some p
    /\ 0 <= p <= 100
    /\ (clientX <= left -> p == 0)
    /\ (right <= clientX -> p == 100)
    /\ (left < clientX < right ->
        p == (clientX - left) / rect_width rect * 100 /\ 0 < p < 100).
Proof.
  intros Hw left right.
  exists (clampedPercentage (pointerPercentage clientX rect)).
  split; [apply handleSliderMove_left|].
  split; [apply clamped_range|].
  split; [|split].
  - intros H. apply clamped_low, pointer_left; assumption.
  - intros H. apply clamped_high, pointer_right; assumption.
  - intros H. pose proof (pointer_inside clientX rect Hw H) as [H0 H1].
    assert (E : clampedPercentage (pointerPercentage clientX rect)
                == pointerPercentage clientX rect)
      by (apply clamped_inside; split; apply Qlt_le_weak; assumption).
    split; [exact E|]. rewrite E. split; assumption.
Qed.

Lemma slider_clamped_witness :
  let rect := {| rect_left := 100; rect_width := 200 |} in
  (exists p,
     sliderLine_left (resultContainer (handleSliderMove 20 rect twoResults))
     = Some p /\ p == 0)
  /\ (exists p,
        sliderLine_left (resultContainer (handleSliderMove 900 rect twoResults))
        = Some p /\ p == 100)
  /\ (exists p,
        sliderLine_left (resultContainer (handleSliderMove 150 rect twoResults))
        = Some p /\ p == 25).
Proof.
  intros rect.
  assert (Hw : 0 < rect_width rect) by reflexivity.
  split; [|split].
  - destruct (slider_clamped 20 rect twoResults Hw) as (p & Hp & _ & H & _).
    exists p. split; [exact Hp | apply H; discriminate].
  - destruct (slider_clamped 900 rect twoResults Hw) as (p & Hp & _ & _ & H & _).
    exists p. split; [exact Hp | apply H; discriminate].
  - destruct (slider_clamped 150 rect twoResults Hw)
      as (p & Hp & _ & _ & _ & H).
    exists p. split; [exact Hp|].
    destruct H as [H _]; [split; reflexivity|]. rewrite H. reflexivity.
Defined.

Lemma showErrors_slider msgs s :
  slider (fold_left (fun s m => showError m s) msgs s) = slider s.
Proof.
  revert s. induction msgs as [|m msgs IH]; intros s; simpl; [reflexivity|].
  rewrite IH. by_cases.
Qed.

Lemma processImage_start_slider f s :
  slider (processImage_start f s).2 = slider s.
Proof.
  unfold processImage_start, initializeModel_start.
  destruct s as [fn ? ? ? ? ? ? ? ? ? ? ? ? ? ?]; destruct fn; reflexivity.
Qed.

Lemma processRemainingFiles_slider files s :
  slider (processRemainingFiles files s) = slider s.
Proof.
  destruct files as [|f rest]; simpl; [reflexivity|].
  pose proof (processImage_start_slider f s) as H.
  destruct (processImage_start f s) as [tid s1]. simpl in H.
  rewrite <- H. by_cases.
Qed.

Lemma handleFiles_slider files s : slider (handleFiles files s) = slider s.
Proof.
  unfold handleFiles.
  pose proof (GateFacts.filterValid_snd files s) as H2.
  destruct (filterValid files s) as [valid s1]. simpl in H2.
  rewrite <- (showErrors_slider (flat_map rejection files) s), <- H2.
  destruct valid as [|f0 others]; [reflexivity|].
  pose proof (processImage_start_slider f0 s1) as H0.
  destruct (processImage_start f0 s1) as [tid s2]. simpl in H0.
  rewrite <- H0. destruct others; [reflexivity|].
  apply processRemainingFiles_slider.
Qed.

Lemma loop_resume_slider tid s : slider (loop_resume tid s) = slider s.
Proof.
  unfold loop_resume. destruct (find_task tid s); [reflexivity|].
  destruct (List.find _ (loops s)) as [l|]; [|reflexivity].
  rewrite processRemainingFiles_slider. by_cases.
Qed.

Lemma setSliderPosition_valid p s : slider_valid (setSliderPosition p s).
Proof.
  unfold slider_valid. destruct s; simpl. apply clamped_range.
Qed.

Lemma slider_valid_eq s s' : slider s' = slider s -> slider_valid s -> slider_valid s'.
Proof. unfold slider_valid, slider. now intros ->. Qed.

Lemma showResult_valid r s : slider_valid (showResult r s).
Proof.
  unfold slider_valid. destruct s; simpl. apply (clamped_range 50).
Qed.

Lemma updateQueue_slider s : slider (updateQueue s) = slider s.
Proof. unfold updateQueue. destruct (_ <=? _)%nat; by_cases. Qed.

Lemma showAt_valid i s : slider_valid s -> slider_valid (showAt i s).
Proof.
  intros H. unfold showAt. destruct (imageAt s i) as [r|].
  - apply (slider_valid_eq (showResult r s)); [apply updateQueue_slider|].
    apply showResult_valid.
  - apply (slider_valid_eq s); [by_cases | exact H].
Qed.

Lemma set_cursor_valid i s :
  slider_valid s -> slider_valid (set_currentImageIndex i s).
Proof. apply slider_valid_eq. by_cases. Qed.

Lemma onDownloadClick_slider s : slider (onDownloadClick s) = slider s.
Proof.
  unfold onDownloadClick. destruct (_ >=? _)%Z; [|reflexivity].
  destruct (imageAt s _); [|reflexivity]. by_cases.
Qed.

Lemma onKeydown_valid key s : slider_valid s -> slider_valid (onKeydown key s).
Proof.
  intros H. unfold onKeydown.
  destruct (rv_active (resultContainer s)); [|exact H].
  destruct (_ && _); [now apply showAt_valid, set_cursor_valid|].
  destruct (_ && _); [now apply showAt_valid, set_cursor_valid|].
  destruct (_ || _).
  { apply (slider_valid_eq s); [apply onDownloadClick_slider | exact H]. }
  destruct (_ || _); [|exact H].
  apply (slider_valid_eq s); [by_cases | exact H].
Qed.

Lemma processImage_done_valid t u blob s :
  slider_valid (processImage_done t u blob s).
Proof.
  unfold processImage_done. cbv zeta.
  destruct (createObjectURL (OfBlob blob) (updateProgress 95 s)) as [url s1].
  match goal with
  | |- slider_valid (finish_task _ (updateQueue (showResult ?r ?x))) =>
      apply (slider_valid_eq (showResult r x)); [|apply showResult_valid];
      transitivity (slider (updateQueue (showResult r x)));
      [generalize (updateQueue (showResult r x)); by_cases
      | apply updateQueue_slider]
  end.
Qed.

Lemma step_slider_valid ev s : slider_valid s -> slider_valid (step ev s).
Proof.
  intros H.
  destruct ev; unfold step;
    try (destruct (isDragging s); [|exact H]);
    try (destruct touches as [|x [|? ?]]; try exact H);
    try (destruct onSlider; [exact H|]);
    try (destruct (find_task tid s) as [[? ? []]|]; try exact H;
         cbn [task_pc]);
    lazymatch goal with
    | |- slider_valid (handleSliderMove _ _ _) => apply setSliderPosition_valid
    | |- slider_valid (onKeydown _ _) => now apply onKeydown_valid
    | |- slider_valid (processImage_done _ _ _ _) =>
        apply processImage_done_valid
    | |- slider_valid (onQueueItemClick ?k _) =>
        unfold onQueueItemClick;
        destruct (queueList (queueContainer s) !! k); [|exact H];
        now apply showAt_valid, set_cursor_valid
    | |- slider_valid (onDrop ?files _) =>
        unfold onDrop; destruct (List.filter _ files);
        [ apply (slider_valid_eq s); [by_cases | exact H]
        | apply (slider_valid_eq s); [|exact H];
          rewrite handleFiles_slider; by_cases ]
    | |- slider_valid (onChange ?files _) =>
        unfold onChange; destruct files; [exact H|];
        apply (slider_valid_eq s); [apply handleFiles_slider | exact H]
    | |- slider_valid (onDownloadClick _) =>
        apply (slider_valid_eq s); [apply onDownloadClick_slider | exact H]
    | |- slider_valid (loop_resume _ _) =>
        apply (slider_valid_eq s); [apply loop_resume_slider | exact H]
    | |- slider_valid (set_pc _ _ (initializeModel_loaded _)) =>
        apply (slider_valid_eq s); [by_cases | exact H]
    | |- slider_valid (processImage_infer ?t _) =>
        apply (slider_valid_eq s); [|exact H];
        generalize t; by_cases
    | |- slider_valid (processImage_catch ?t ?e _) =>
        apply (slider_valid_eq s); [|exact H];
        generalize t; destruct e; by_cases
    | |- _ => apply (slider_valid_eq s); [by_cases | exact H]
    end.
Qed.

(** The position on the page is a percentage in every reachable state. *)
Lemma slider_always_in_range evs : slider_valid (run evs initial).
Proof.
  assert (H : forall s, slider_valid s -> slider_valid (run evs s)).
  { induction evs as [|ev evs IH]; intros s Hs; [exact Hs|].
    simpl. apply IH, step_slider_valid, Hs. }
  apply H. exact I.
Qed.

End SliderFacts.

(** ** The model downloader *)

Module FetcherFacts.
Import Fetcher Samples.

Lemma append_inj_l a x y : a +:+ x = a +:+ y -> x = y.
Proof. induction a as [|c a IH]; simpl; [auto | intros [= H]; auto]. Qed.

Lemma chunkUrl_inj base x y : chunkUrl base x = chunkUrl base y -> x = y.
Proof.
  unfold chunkUrl. intros H. apply append_inj_l in H.
  now apply (append_inj_l "/") in H.
Qed.

Lemma chunkPath_inj env x y : chunkPath env x = chunkPath env y -> x = y.
Proof.
  unfold chunkPath, join. intros H. apply append_inj_l in H.
  now apply (append_inj_l "/") in H.
Qed.

(** *** The set of chunks *)

Lemma set_add_NoDup h s : NoDup s -> NoDup (set_add h s).
Proof.
  intros Hs. unfold set_add. case_bool_decide as Hin; [exact Hs|].
  apply NoDup_app. split; [exact Hs|]. split.
  - intros x Hx Hx'. apply list_elem_of_singleton in Hx'. now subst.
  - apply NoDup_singleton.
Qed.

Lemma add_chunks_NoDup cs acc :
  NoDup acc ->
  NoDup (fold_left (fun acc chunk => set_add (hash chunk) acc) cs acc).
Proof.
  revert acc. induction cs as [|c cs IH]; intros acc H; simpl; [exact H|].
  apply IH, set_add_NoDup, H.
Qed.

Lemma allChunks_NoDup resources : NoDup (allChunks resources).
Proof.
  unfold allChunks. generalize (NoDup_nil_2 (A := string)).
  generalize (@nil string) as acc.
  induction resources as [|[path resource] rs IH]; intros acc H; simpl;
    [exact H|].
  apply IH. destruct (chunks resource); [now apply add_chunks_NoDup | exact H].
Qed.

(** *** One download *)

Lemma downloadFile_fails env url dest w :
  fetchFails env url = true ->
  exists msg, downloadFile env url dest w = (inr msg, fetchedMore url w).
Proof.
  unfold fetchFails, downloadFile, fetchedMore.
  destruct (fetch env url) as [msg|r]; [eauto|].
  destruct (ok r); [discriminate | eauto].
Qed.

Lemma downloadFile_succeeds env url dest w :
  fetchFails env url = false ->
  exists r,
    fetch env url = Fulfilled r /\ ok r = true
    /\ downloadFile env url dest w
       = (inl (byteLength (body r)),
          {| files := <[dest := body r]> (files w); console := console w;
             fetched := fetched w ++ [url] |}).
Proof.
  unfold fetchFails, downloadFile.
  destruct (fetch env url) as [msg|r]; [discriminate|].
  destruct (ok r) eqn:E; [eauto | discriminate].
Qed.

(** *** The chunk loop *)

Lemma missing_files env w w' hashes :
  files w = files w' -> missing env w hashes = missing env w' hashes.
Proof. unfold missing, existsSync. now intros ->. Qed.

Lemma missing_insert env w w' h b hashes :
  files w' = <[chunkPath env h := b]> (files w) ->
  ~ In h hashes ->
  missing env w' hashes = missing env w hashes.
Proof.
  intros Hf Hh. unfold missing. apply filter_ext_in. intros h' Hin.
  unfold existsSync. rewrite Hf, lookup_insert_ne; [reflexivity|].
  intros E. apply chunkPath_inj in E. now subst.
Qed.

Lemma chunkStep_cases env baseUrl h c w :
  (existsSync (chunkPath env h) w = true
   /\ chunkStep env baseUrl h (c, w)
      = ({| downloaded := downloaded c; skipped := S (skipped c);
            failed := failed c; totalBytes := totalBytes c |},
         log (ChunkExists (hash16 h)) w))
  \/ (existsSync (chunkPath env h) w = false
      /\ fetchFails env (chunkUrl baseUrl h) = true
      /\ exists msg,
           chunkStep env baseUrl h (c, w)
           = ({| downloaded := downloaded c; skipped := skipped c;
                 failed := S (failed c); totalBytes := totalBytes c |},
              log (ChunkFailed (hash16 h) msg)
                (fetchedMore (chunkUrl baseUrl h) w)))
  \/ (existsSync (chunkPath env h) w = false
      /\ fetchFails env (chunkUrl baseUrl h) = false
      /\ exists r,
           chunkStep env baseUrl h (c, w)
           = ({| downloaded := S (downloaded c); skipped := skipped c;
                 failed := failed c;
                 totalBytes := (totalBytes c + byteLength (body r))%Z |},
              log (ChunkOk (hash16 h) (byteLength (body r)))
                {| files := <[chunkPath env h := body r]> (files w);
                   console := console w;
                   fetched := fetched w ++ [chunkUrl baseUrl h] |})).
Proof.
  unfold chunkStep.
  destruct (existsSync (chunkPath env h) w); [left; auto | right].
  destruct (fetchFails env (chunkUrl baseUrl h)) eqn:Hfail; [left | right].
  - destruct (downloadFile_fails env _ (chunkPath env h) w Hfail) as [msg ->].
    eauto.
  - destruct (downloadFile_succeeds env _ (chunkPath env h) w Hfail)
      as (r & _ & _ & ->).
    eauto.
Qed.

Lemma chunkLoop_cons env baseUrl h rest cw :
  chunkLoop env baseUrl (h :: rest) cw
  = chunkLoop env baseUrl rest (chunkStep env baseUrl h cw).
Proof. reflexivity. Qed.

Lemma missing_cons env w h rest :
  missing env w (h :: rest)
  = if existsSync (chunkPath env h) w then missing env w rest
    else h :: missing env w rest.
Proof. unfold missing. simpl. now destruct (existsSync _ w). Qed.

Lemma failing_cons env baseUrl h hs :
  failing env baseUrl (h :: hs)
  = if fetchFails env (chunkUrl baseUrl h) then h :: failing env baseUrl hs
    else failing env baseUrl hs.
Proof. reflexivity. Qed.

Lemma chunkLoop_done env baseUrl hashes :
  NoDup hashes ->
  forall c w,
    loopDone env baseUrl hashes c w
      (chunkLoop env baseUrl hashes (c, w)).1
      (chunkLoop env baseUrl hashes (c, w)).2.
Proof.
  induction 1 as [|h rest Hh Hrest IH]; intros c w.
  - unfold loopDone. simpl. rewrite app_nil_r, !Nat.add_0_r.
    repeat split; auto. intros h [].
  - assert (Hnot : ~ In h rest) by (now rewrite <- list_elem_of_In).
    rewrite chunkLoop_cons. unfold loopDone. rewrite missing_cons.
    destruct (chunkStep_cases env baseUrl h c w)
      as [(Hex & ->) | [(Hex & Hfail & msg & ->) | (Hex & Hfail & r & ->)]];
      rewrite Hex;
      match goal with
      | |- context [chunkLoop _ _ _ (?c1, ?w1)] =>
          destruct (IH c1 w1) as (Hf & Hn & Hsum & Hcon & Hlog);
          first
            [ rewrite (missing_files env w1 w rest eq_refl) in Hf, Hn, Hlog
            | rewrite (missing_insert env w w1 h _ rest eq_refl Hnot)
                in Hf, Hn, Hlog ]
      end.
    + (* already on disk *)
      cbn [fetched failed downloaded skipped log console length] in *.
      split; [exact Hf|]. split; [exact Hn|]. split; [lia|].
      split; [|exact Hlog].
      intros l Hl. apply Hcon, in_or_app. now left.
    + (* the download fails *)
      cbn [fetched failed downloaded skipped log console fetchedMore length]
        in *.
      rewrite failing_cons, Hfail. cbn [map length].
      rewrite Hf, <- app_assoc.
      split; [reflexivity|]. split; [lia|]. split; [lia|]. split.
      * intros l Hl. apply Hcon, in_or_app. now left.
      * intros h' [<- | Hin]; [|now apply Hlog].
        exists msg. apply Hcon, in_or_app. right. now left.
    + (* the download succeeds *)
      cbn [fetched failed downloaded skipped log console length] in *.
      rewrite failing_cons, Hfail. cbn [map].
      rewrite Hf, <- app_assoc.
      split; [reflexivity|]. split; [exact Hn|]. split; [lia|].
      split; [|exact Hlog].
      intros l Hl. apply Hcon, in_or_app. now left.
Qed.


(** *** The whole run *)

Lemma NoDup_map_inj (f : string -> string) (l : list string) :
  (forall x y, f x = f y -> x = y) -> NoDup l -> NoDup (map f l).
Proof.
  intros Hinj. induction 1 as [|x l Hx Hl IH]; simpl; constructor; [|exact IH].
  rewrite list_elem_of_In, in_map_iff. intros (y & E & Hy).
  apply Hinj in E. subst y. now apply Hx, list_elem_of_In.
Qed.

Lemma announce_frame env version w :
  files (announce env version w) = files w
  /\ fetched (announce env version w) = fetched w.
Proof. auto. Qed.

Lemma report_frame c w :
  fetched (report c w) = fetched w
  /\ In Complete (console (report c w))
  /\ (forall l, In l (console w) -> In l (console (report c w))).
Proof.
  unfold report. split; [now destruct (0 <? failed c)%nat|]. split.
  - simpl. apply in_or_app. right. now left.
  - intros l Hl. simpl. apply in_or_app. left.
    destruct (0 <? failed c)%nat; simpl; repeat (apply in_or_app; left);
      exact Hl.
Qed.

(** The run when the manifest cannot be downloaded. *)
Lemma main_without_manifest env w version :
  packageVersion env = Some version ->
  fetchFails env (chunkUrl (getBaseUrl version) "resources.json") = true ->
  exists msg w',
    main env w
    = {| exitCode := 1; world := log (ManifestFailed msg) w';
         counters := None |}
    /\ fetched w'
       = fetched w ++ [chunkUrl (getBaseUrl version) "resources.json"].
Proof.
  intros Hv Hfail. unfold main. rewrite Hv.
  match goal with
  | |- context [downloadFile env ?u ?p ?w0] =>
      destruct (downloadFile_fails env u p w0 Hfail) as [msg ->];
      exists msg, (fetchedMore u w0)
  end.
  split; reflexivity.
Qed.

(** The run when the manifest has been downloaded and read. *)
Lemma main_with_manifest env w version r resources :
  packageVersion env = Some version ->
  fetch env (chunkUrl (getBaseUrl version) "resources.json") = Fulfilled r ->
  ok r = true ->
  json (body r) = Some resources ->
  let url := chunkUrl (getBaseUrl version) "resources.json" in
  exists w1,
    files w1 = files (withManifest env url (body r) w)
    /\ fetched w1 = fetched w ++ [url]
    /\ main env w
       = {| exitCode := 0;
            world := report
                       (chunkLoop env (getBaseUrl version)
                          (allChunks resources) (noCounters, w1)).1
                       (chunkLoop env (getBaseUrl version)
                          (allChunks resources) (noCounters, w1)).2;
            counters := Some (chunkLoop env (getBaseUrl version)
                                (allChunks resources) (noCounters, w1)).1 |}.
Proof.
  intros Hv Hfetch Hok Hjson url. subst url. unfold main. rewrite Hv.
  unfold downloadFile. rewrite Hfetch, Hok.
  cbn [files log]. rewrite lookup_insert_eq. cbn [mbind option_bind].
  rewrite Hjson.
  match goal with
  | |- context [chunkLoop env _ _ (noCounters, ?w0)] => exists w0
  end.
  split; [reflexivity|]. split; [reflexivity|].
  now destruct (chunkLoop _ _ _ _).
Qed.

(** C9. The failure to fetch the manifest ends the run with exit code 1
    before any chunk is fetched.  Once the manifest is there, the failure
    to fetch a chunk is logged and counted and the loop goes on: every
    chunk that is not on disk is fetched, the run ends with exit code 0,
    and the three counters add up to the number of chunks.  No URL is
    fetched twice in a run. *)
Theorem fetch_failures env w version :
  packageVersion env = Some version ->
  let baseUrl := getBaseUrl version in
  let resourcesUrl := chunkUrl baseUrl "resources.json" in
  let out := main env w in
  (fetchFails env resourcesUrl = true ->
     exitCode out = 1%Z
     /\ fetched (world out) = fetched w ++ [resourcesUrl]
     /\ exists msg, In (ManifestFailed msg) (console (world out)))
  /\ (forall r resources,
        fetch env resourcesUrl = Fulfilled r ->
        ok r = true ->
        json (body r) = Some resources ->
        let hashes := allChunks resources in
        let ms := missing env (withManifest env resourcesUrl (body r) w)
                    hashes in
        exitCode out = 0%Z
        /\ In Complete (console (world out))
        /\ fetched (world out)
           = fetched w ++ resourcesUrl :: map (chunkUrl baseUrl) ms
        /\ exists c,
             counters out = Some c
             /\ failed c = length (failing env baseUrl ms)
             /\ (downloaded c + skipped c + failed c = length hashes)%nat
             /\ forall h, In h (failing env baseUrl ms) ->
                  exists msg,
                    In (ChunkFailed (hash16 h) msg) (console (world out)))
  /\ exists new, fetched (world out) = fetched w ++ new /\ NoDup new.
Proof.
  intros Hv baseUrl resourcesUrl out.
  assert (Hfatal :
    fetchFails env resourcesUrl = true ->
    exitCode out = 1%Z
    /\ fetched (world out) = fetched w ++ [resourcesUrl]
    /\ exists msg, In (ManifestFailed msg) (console (world out))).
  { intros Hfail.
    destruct (main_without_manifest env w version Hv Hfail)
      as (msg & w' & E & Hw').
    subst out. rewrite E. cbn [exitCode world]. split; [reflexivity|].
    split; [exact Hw'|]. exists msg. simpl. apply in_or_app. right. now left. }
  assert (Hloop :
    forall r resources,
      fetch env resourcesUrl = Fulfilled r ->
      ok r = true ->
      json (body r) = Some resources ->
      let hashes := allChunks resources in
      let ms := missing env (withManifest env resourcesUrl (body r) w)
                  hashes in
      exitCode out = 0%Z
      /\ In Complete (console (world out))
      /\ fetched (world out)
         = fetched w ++ resourcesUrl :: map (chunkUrl baseUrl) ms
      /\ exists c,
           counters out = Some c
           /\ failed c = length (failing env baseUrl ms)
           /\ (downloaded c + skipped c + failed c = length hashes)%nat
           /\ forall h, In h (failing env baseUrl ms) ->
                exists msg,
                  In (ChunkFailed (hash16 h) msg) (console (world out))).
  { intros r resources Hfetch Hok Hjson hashes ms.
    destruct (main_with_manifest env w version r resources Hv Hfetch Hok Hjson)
      as (w1 & Hfiles & Hfetched & E).
    subst out. rewrite E. cbn [exitCode world counters].
    destruct (chunkLoop_done env baseUrl hashes (allChunks_NoDup resources)
                noCounters w1) as (Hf & Hn & Hsum & Hcon & Hlog).
    fold baseUrl hashes.
    rewrite (missing_files env w1 _ hashes Hfiles) in Hf, Hn, Hlog.
    fold resourcesUrl ms in Hf, Hn, Hlog.
    destruct (report_frame (chunkLoop env baseUrl hashes (noCounters, w1)).1
                (chunkLoop env baseUrl hashes (noCounters, w1)).2)
      as (Hrf & Hrc & Hrl).
    split; [reflexivity|]. split; [exact Hrc|]. split.
    - rewrite Hrf, Hf, Hfetched, <- app_assoc. reflexivity.
    - eexists. split; [reflexivity|]. split; [exact Hn|].
      split; [exact Hsum|].
      intros h Hh. destruct (Hlog h Hh) as [msg Hmsg]. exists msg.
      now apply Hrl. }
  split; [exact Hfatal|]. split; [exact Hloop|].
  destruct (fetchFails env resourcesUrl) eqn:Hfail.
  { exists [resourcesUrl]. split; [now apply Hfatal|].
    apply NoDup_singleton. }
  unfold fetchFails in Hfail.
  destruct (fetch env resourcesUrl) as [msg|r] eqn:Hfetch; [discriminate|].
  apply negb_false_iff in Hfail.
  destruct (json (body r)) as [resources|] eqn:Hjson.
  - destruct (Hloop r resources eq_refl Hfail Hjson) as (_ & _ & Hf & _).
    eexists. split; [exact Hf|].
    set (ms := missing env (withManifest env resourcesUrl (body r) w)
                 (allChunks resources)) in *.
    apply NoDup_cons. split.
    + rewrite list_elem_of_In, in_map_iff. intros (h & E & Hh).
      apply chunkUrl_inj in E. subst h.
      unfold ms, missing in Hh. apply filter_In in Hh as [_ Hh].
      unfold existsSync, withManifest in Hh. cbn [files] in Hh.
      rewrite lookup_insert_eq in Hh.
      rewrite bool_decide_eq_true_2 in Hh by eauto. discriminate.
    + apply NoDup_map_inj; [apply chunkUrl_inj|].
      apply NoDup_ListNoDup, List.NoDup_filter, NoDup_ListNoDup,
        allChunks_NoDup.
  - exists [resourcesUrl]. split; [|apply NoDup_singleton].
    subst out. unfold main. rewrite Hv. unfold downloadFile.
    fold baseUrl resourcesUrl. rewrite Hfetch, Hfail.
    cbn [files log]. rewrite lookup_insert_eq. cbn [mbind option_bind].
    rewrite Hjson. reflexivity.
Qed.

Lemma fetch_failures_witness :
  (exitCode (main offline emptyWorld) = 1%Z
   /\ length (fetched (world (main offline emptyWorld))) = 1%nat)
  /\ (exitCode (main online emptyWorld) = 0%Z
      /\ In Complete (console (world (main online emptyWorld)))
      /\ exists c, counters (main online emptyWorld) = Some c
           /\ failed c = 1%nat
           /\ (downloaded c + skipped c + failed c = 3)%nat).
Proof.
  split.
  - destruct (fetch_failures offline emptyWorld "1.4.5" eq_refl)
      as (H & _ & _).
    destruct H as (H1 & H2 & _); [reflexivity|].
    split; [exact H1|]. rewrite H2. reflexivity.
  - destruct (fetch_failures online emptyWorld "1.4.5" eq_refl)
      as (_ & H & _).
    destruct (H _ manifest eq_refl eq_refl eq_refl)
      as (H1 & H2 & _ & c & Hc & Hfail & Hsum & _).
    split; [exact H1|]. split; [exact H2|].
    exists c. split; [exact Hc|]. split; [|exact Hsum].
    rewrite Hfail. vm_compute. reflexivity.
Defined.

End FetcherFacts.

(** ** A proof principle for the page *)

Module Preservation.
Import App Page.

Lemma onKeydown_cases key s :
  onKeydown key s = s
  \/ (rv_active (resultContainer s) = true
      /\ ((currentImageIndex s > 0)%Z
          /\ onKeydown key s = goto (currentImageIndex s - 1) s
          \/ (currentImageIndex s
              < Z.of_nat (length (processedImages s)) - 1)%Z
             /\ onKeydown key s = goto (currentImageIndex s + 1) s
          \/ onKeydown key s = onDownloadClick s
          \/ onKeydown key s = onNewImageClick s)).
Proof.
  unfold onKeydown.
  destruct (rv_active (resultContainer s)); [|now left].
  destruct (String.eqb key "ArrowLeft" && (currentImageIndex s >? 0)%Z) eqn:E1.
  { apply andb_true_iff in E1 as [_ E1]. apply Z.gtb_lt in E1.
    right. split; [reflexivity|]. left. split; [lia | reflexivity]. }
  destruct (String.eqb key "ArrowRight" && _) eqn:E2.
  { apply andb_true_iff in E2 as [_ E2]. apply Z.ltb_lt in E2.
    right. split; [reflexivity|]. right. left. split; [lia | reflexivity]. }
  destruct (String.eqb key "d" || String.eqb key "D"); [now right; auto 6|].
  destruct (String.eqb key "n" || String.eqb key "N"); [right; auto 6 | now left].
Qed.

Section Step.

Variable P : State -> Prop.

Hypothesis P_showError : forall m s, P s -> P (showError m s).
Hypothesis P_start : forall f s, P s -> P (processImage_start f s).2.
Hypothesis P_loops : forall ls s, P s -> P (set_loops ls s).
Hypothesis P_dragOver :
  forall b s, P s -> P (with_uploadZone (set_dragOver b (uploadZone s)) s).
Hypothesis P_isDragging : forall b s, P s -> P (set_isDragging b s).
Hypothesis P_slider : forall p s, P s -> P (setSliderPosition p s).
Hypothesis P_download : forall s, P s -> P (onDownloadClick s).
Hypothesis P_newImage : forall s, P s -> P (onNewImageClick s).
Hypothesis P_left :
  forall s, P s -> (currentImageIndex s > 0)%Z ->
            P (goto (currentImageIndex s - 1) s).
Hypothesis P_right :
  forall s, P s ->
            (currentImageIndex s
             < Z.of_nat (length (processedImages s)) - 1)%Z ->
            P (goto (currentImageIndex s + 1) s).
Hypothesis P_click :
  forall k item s, P s -> queueList (queueContainer s) !! k = Some item ->
                   P (goto (Z.of_nat (qi_index item)) s).
Hypothesis P_loaded :
  forall tid s, P s -> P (set_pc tid AtInit (initializeModel_loaded s)).
Hypothesis P_pc : forall tid pc s, P s -> P (set_pc tid pc s).
Hypothesis P_infer : forall t s, P s -> P (processImage_infer t s).
Hypothesis P_catch : forall t e s, P s -> P (processImage_catch t e s).
Hypothesis P_done : forall t u b s, P s -> P (processImage_done t u b s).

Lemma P_showErrors msgs s :
  P s -> P (fold_left (fun s m => showError m s) msgs s).
Proof.
  revert s. induction msgs as [|m msgs IH]; intros s H; simpl; auto.
Qed.

Lemma P_remaining files s : P s -> P (processRemainingFiles files s).
Proof.
  intros H. destruct files as [|f rest]; simpl; [exact H|].
  pose proof (P_start f s H) as H1.
  destruct (processImage_start f s) as [tid s1]. simpl in H1.
  now apply P_loops.
Qed.

Lemma P_handleFiles files s : P s -> P (handleFiles files s).
Proof.
  intros H. unfold handleFiles.
  pose proof (GateFacts.filterValid_snd files s) as H2.
  destruct (filterValid files s) as [valid s1]. simpl in H2.
  assert (H1 : P s1) by (subst s1; now apply P_showErrors).
  destruct valid as [|f0 others]; [exact H1|].
  pose proof (P_start f0 s1 H1) as H0.
  destruct (processImage_start f0 s1) as [tid s2]. simpl in H0.
  destruct others; [exact H0 | now apply P_remaining].
Qed.

Lemma P_loop_resume tid s : P s -> P (loop_resume tid s).
Proof.
  intros H. unfold loop_resume. destruct (find_task tid s); [exact H|].
  destruct (List.find _ (loops s)); [|exact H].
  now apply P_remaining, P_loops.
Qed.

Lemma P_onKeydown key s : P s -> P (onKeydown key s).
Proof.
  intros H.
  destruct (onKeydown_cases key s)
    as [-> | (_ & [[Hc ->] | [[Hc ->] | [-> | ->]]])]; auto.
Qed.

Lemma step_preserves ev s : P s -> P (step ev s).
Proof.
  intros H.
  destruct ev; unfold step;
    try (destruct (isDragging s); [|exact H]);
    try (destruct touches as [|x [|? ?]]; try exact H);
    try (destruct onSlider; [exact H|]);
    try (destruct (find_task tid s) as [[? ? []]|]; try exact H;
         cbn [task_pc]);
    lazymatch goal with
    | |- P (handleSliderMove _ _ _) => now apply P_slider
    | |- P (onKeydown _ _) => now apply P_onKeydown
    | |- P (processImage_done _ _ _ _) => now apply P_done
    | |- P (onQueueItemClick ?k _) =>
        unfold onQueueItemClick;
        destruct (queueList (queueContainer s) !! k) as [item|] eqn:E;
        [now apply (P_click k item s) | exact H]
    | |- P (onDrop ?files _) =>
        unfold onDrop; destruct (List.filter _ files);
        [now apply P_dragOver | now apply P_handleFiles, P_dragOver]
    | |- P (onChange ?files _) =>
        unfold onChange; destruct files; [exact H | now apply P_handleFiles]
    | |- P (onDownloadClick _) => now apply P_download
    | |- P (onNewImageClick _) => now apply P_newImage
    | |- P (loop_resume _ _) => now apply P_loop_resume
    | |- P (set_pc _ _ (initializeModel_loaded _)) => now apply P_loaded
    | |- P (set_pc _ _ _) => now apply P_pc
    | |- P (processImage_infer _ _) => now apply P_infer
    | |- P (processImage_catch _ _ _) => now apply P_catch
    | |- P (set_isDragging _ _) => now apply P_isDragging
    | |- P (with_uploadZone _ _) => now apply P_dragOver
    end.
Qed.

Lemma run_preserves evs s : P s -> P (run evs s).
Proof.
  revert s. induction evs as [|ev evs IH]; intros s H; [exact H|].
  simpl. apply IH, step_preserves, H.
Qed.

(** The same for a property that a press on the divider may break. *)
Hypothesis P_release : forall s, P s -> P (set_isDragging false s).

Lemma step_preserves_no_press ev s : isPress ev = false -> P s -> P (step ev s).
Proof.
  intros Hev H.
  destruct ev; try discriminate Hev; unfold step;
    try (destruct (isDragging s); [|exact H]);
    try (destruct touches as [|x [|? ?]]; try exact H);
    try (destruct onSlider; [exact H|]);
    try (destruct (find_task tid s) as [[? ? []]|]; try exact H;
         cbn [task_pc]);
    lazymatch goal with
    | |- P (handleSliderMove _ _ _) => now apply P_slider
    | |- P (onKeydown _ _) => now apply P_onKeydown
    | |- P (processImage_done _ _ _ _) => now apply P_done
    | |- P (onQueueItemClick ?k _) =>
        unfold onQueueItemClick;
        destruct (queueList (queueContainer s) !! k) as [item|] eqn:E;
        [now apply (P_click k item s) | exact H]
    | |- P (onDrop ?files _) =>
        unfold onDrop; destruct (List.filter _ files);
        [now apply P_dragOver | now apply P_handleFiles, P_dragOver]
    | |- P (onChange ?files _) =>
        unfold onChange; destruct files; [exact H | now apply P_handleFiles]
    | |- P (onDownloadClick _) => now apply P_download
    | |- P (onNewImageClick _) => now apply P_newImage
    | |- P (loop_resume _ _) => now apply P_loop_resume
    | |- P (set_pc _ _ (initializeModel_loaded _)) => now apply P_loaded
    | |- P (set_pc _ _ _) => now apply P_pc
    | |- P (processImage_infer _ _) => now apply P_infer
    | |- P (processImage_catch _ _ _) => now apply P_catch
    | |- P (set_isDragging false _) => now apply P_release
    | |- P (with_uploadZone _ _) => now apply P_dragOver
    end.
Qed.

Lemma run_preserves_no_press evs s :
  Forall (fun ev => isPress ev = false) evs -> P s -> P (run evs s).
Proof.
  intros Hevs. revert s.
  induction Hevs as [|ev evs Hev _ IH]; intros s H; [exact H|].
  simpl. now apply IH, step_preserves_no_press.
Qed.

End Step.

End Preservation.

(** ** What the page keeps true *)

Module PageFacts.
Import App Page Samples MoreSamples.

(** An equation between observations of two states: the tests that the
    handler makes are decided case by case, and the fields are then read
    off. *)
Ltac decide_tests :=
  repeat match goal with
         | |- context [if ?b then _ else _] => destruct b eqn:?
         | |- context [match ?x with Some _ => _ | None => _ end] =>
             destruct x eqn:?
         end.

Ltac read_fields :=
  intros;
  unfold goto, showAt, onDownloadClick, onNewImageClick, processImage_start,
    initializeModel_start, processImage_done, processImage_catch,
    processImage_reject, processImage_infer, updateQueue, createObjectURL;
  repeat match goal with e : Thrown |- _ => destruct e end;
  cbv beta iota zeta;
  decide_tests;
  repeat match goal with s : State |- _ => destruct s end;
  try reflexivity.

(** *** The model is loaded once *)

Lemma memo_of_obs s s' : memo_obs s' = memo_obs s -> memo_ok s -> memo_ok s'.
Proof. unfold memo_obs, memo_ok. intros [= -> -> ->]. auto. Qed.

Lemma memo_start f s : memo_ok s -> memo_ok (processImage_start f s).2.
Proof.
  unfold memo_ok, processImage_start, initializeModel_start.
  destruct s as [fn ld ? ? ? ? ? ? ? ? ? ? ? ? ?]. cbn [modelLoaded removeBackgroundFn].
  intros [-> H]. destruct fn; split; try reflexivity; try exact H.
  discriminate.
Qed.

Lemma memo_loaded tid s :
  memo_ok s -> memo_ok (set_pc tid AtInit (initializeModel_loaded s)).
Proof.
  unfold memo_ok. intros [_ H]. destruct s. split; [reflexivity | exact H].
Qed.

Lemma memo_infer t s : memo_ok s -> memo_ok (processImage_infer t s).
Proof.
  unfold memo_ok. intros [H _]. destruct s.
  split; [exact H | discriminate].
Qed.

Lemma memo_run evs s : memo_ok s -> memo_ok (run evs s).
Proof.
  apply Preservation.run_preserves; intros;
    lazymatch goal with
    | |- memo_ok (processImage_start _ _).2 => now apply memo_start
    | |- memo_ok (set_pc _ _ (initializeModel_loaded _)) =>
        now apply memo_loaded
    | |- memo_ok (processImage_infer _ _) => now apply memo_infer
    | |- _ => eapply memo_of_obs; [|eassumption]; read_fields
    end.
Qed.


(** X1. In every reachable state [modelLoaded] is true exactly when
    [removeBackgroundFn] is set.  As [initializeModel] returns at once when
    the function is set, its text [Preparing...] is never on the page. *)
Theorem model_flag_follows_function evs :
  modelLoaded (run evs initial) = removeBackgroundFn (run evs initial)
  /\ processingSubtext (processing (run evs initial)) <> "Preparing...".
Proof. apply memo_run. split; [reflexivity | discriminate]. Qed.

Lemma function_stays evs s :
  removeBackgroundFn s = true -> removeBackgroundFn (run evs s) = true.
Proof.
  apply (Preservation.run_preserves (fun s => removeBackgroundFn s = true));
    cbv beta; intros;
    lazymatch goal with
    | H : removeBackgroundFn ?s0 = true
      |- removeBackgroundFn (processImage_start _ ?s0).2 = true =>
        destruct s0 as [fn ? ? ? ? ? ? ? ? ? ? ? ? ? ?];
        cbn [removeBackgroundFn] in H; subst fn; reflexivity
    | |- removeBackgroundFn (set_pc _ _ (initializeModel_loaded ?s0)) = true =>
        now destruct s0
    | H : removeBackgroundFn ?s0 = true
      |- removeBackgroundFn (processImage_infer _ ?s0) = true =>
        destruct s0; exact H
    | H : removeBackgroundFn ?a = true |- removeBackgroundFn ?b = true =>
        assert (E : memo_obs b = memo_obs a) by read_fields;
        unfold memo_obs in E; congruence
    end.
Qed.

(** X2. The model is loaded once: when [removeBackgroundFn] is set it
    stays set whatever happens afterwards, and every later [processImage]
    call passes [initializeModel] without a new import and without touching
    the progress bar or the texts. *)
Theorem model_loaded_once evs s f :
  removeBackgroundFn s = true ->
  let s1 := run evs s in
  let s2 := (processImage_start f s1).2 in
  removeBackgroundFn s1 = true
  /\ tasks s2
     = tasks s1 ++ [{| task_id := nextTask s1; task_file := f;
                       task_pc := AtInit |}]
  /\ processingText (processing s2) = processingText (processing s1)
  /\ processingSubtext (processing s2) = processingSubtext (processing s1)
  /\ progressFill (processing s2) = progressFill (processing s1).
Proof.
  intros H s1 s2. pose proof (function_stays evs s H) as H1. fold s1 in H1.
  split; [exact H1|]. subst s2. generalize dependent s1. intros s1 H1.
  destruct s1 as [fn ? ? ? ? ? ? ? ? ? ? ? ? ? ?].
  cbn [removeBackgroundFn] in H1. subst fn. repeat split; reflexivity.
Qed.

Lemma model_loaded_once_witness :
  let s1 := run [NewImageClick] twoResults in
  let s2 := (processImage_start photoC s1).2 in
  removeBackgroundFn s1 = true
  /\ tasks s2
     = tasks s1 ++ [{| task_id := nextTask s1; task_file := photoC;
                       task_pc := AtInit |}]
  /\ processingText (processing s2) = processingText (processing s1)
  /\ processingSubtext (processing s2) = processingSubtext (processing s1)
  /\ progressFill (processing s2) = progressFill (processing s1).
Proof.
  apply (model_loaded_once [NewImageClick] twoResults photoC).
  vm_compute. reflexivity.
Defined.

(** *** The views *)

Lemma views_of_obs s s' : view_obs s' = view_obs s -> views_ok s -> views_ok s'.
Proof. unfold view_obs, views_ok. intros [= -> -> ->]. auto. Qed.

Lemma views_start f s : views_ok (processImage_start f s).2.
Proof. left. read_fields. Qed.

Lemma views_new s : views_ok (onNewImageClick s).
Proof. left. read_fields. Qed.

Lemma views_catch t e s : views_ok s -> views_ok (processImage_catch t e s).
Proof.
  destruct e as [m|e]; [|left; read_fields].
  apply views_of_obs. read_fields.
Qed.

Lemma views_done t u b s : views_ok (processImage_done t u b s).
Proof. right. split; read_fields. Qed.

Lemma views_goto i s : views_ok (goto i s).
Proof. right. split; read_fields. Qed.

Lemma views_run evs s : views_ok s -> views_ok (run evs s).
Proof.
  apply Preservation.run_preserves; intros;
    lazymatch goal with
    | |- views_ok (processImage_start _ _).2 => apply views_start
    | |- views_ok (onNewImageClick _) => apply views_new
    | |- views_ok (processImage_catch _ _ _) => now apply views_catch
    | |- views_ok (processImage_done _ _ _ _) => apply views_done
    | |- views_ok (goto _ _) => apply views_goto
    | |- _ => eapply views_of_obs; [|eassumption]; read_fields
    end.
Qed.

(** X3. In every reachable state the result view is not shown together
    with the processing view or with the upload zone: while the result
    container is active, the processing container is not and the upload
    zone has [display: none]. *)
Theorem result_view_exclusive evs :
  let s := run evs initial in
  rv_active (resultContainer s) = false
  \/ (pr_active (processing s) = false
      /\ uz_display (uploadZone s) = DisplayNone).
Proof. apply views_run. now left. Qed.

(** *** The divider and the clip path *)

Lemma slider_of_obs s s' :
  slider_obs s' = slider_obs s -> slider_synced s -> slider_synced s'.
Proof. unfold slider_obs, slider_synced. intros [= -> ->]. auto. Qed.

Lemma slider_synced_set p s : slider_synced (setSliderPosition p s).
Proof.
  unfold slider_synced. destruct s.
  split; [apply SliderFacts.clamped_range | reflexivity].
Qed.

Lemma slider_synced_show r s : slider_synced (showResult r s).
Proof.
  unfold slider_synced. destruct s.
  split; [apply (SliderFacts.clamped_range 50) | reflexivity].
Qed.

Lemma slider_synced_goto i s : slider_synced s -> slider_synced (goto i s).
Proof.
  intros H. unfold goto, showAt.
  destruct (imageAt _ _) as [r|].
  - eapply slider_of_obs; [|apply (slider_synced_show r (set_currentImageIndex i s))].
    read_fields.
  - eapply slider_of_obs; [|exact H]. read_fields.
Qed.

Lemma slider_synced_done t u b s : slider_synced (processImage_done t u b s).
Proof.
  unfold processImage_done. cbv zeta.
  destruct (createObjectURL (OfBlob b) (updateProgress 95 s)) as [url s1].
  match goal with
  | |- slider_synced (finish_task _ (updateQueue (showResult ?r ?x))) =>
      eapply slider_of_obs; [|apply (slider_synced_show r x)];
      generalize (showResult r x); read_fields
  end.
Qed.

Lemma slider_synced_run evs s : slider_synced s -> slider_synced (run evs s).
Proof.
  apply Preservation.run_preserves; intros;
    lazymatch goal with
    | |- slider_synced (setSliderPosition _ _) => apply slider_synced_set
    | |- slider_synced (processImage_done _ _ _ _) =>
        apply slider_synced_done
    | |- slider_synced (goto _ _) => now apply slider_synced_goto
    | |- _ => eapply slider_of_obs; [|eassumption]; read_fields
    end.
Qed.

(** X4. In every reachable state the divider and the clip path agree: once
    set, the position is a percentage [p] in [0,100] and the original image
    is clipped by [100 - p] from the right. *)
Theorem divider_and_clip_agree evs :
  match sliderLine_left (resultContainer (run evs initial)),
        imageBefore_inset (resultContainer (run evs initial)) with
  | Some p, Some q => (0 <= p <= 100)%Q /\ (q == 100 - p)%Q
  | None, None => True
  | _, _ => False
  end.
Proof. apply (slider_synced_run evs initial). exact I. Qed.

(** *** The queue list *)

Lemma queue_of_obs s s' : queue_obs s' = queue_obs s -> queue_ok s -> queue_ok s'.
Proof.
  unfold queue_obs, queue_ok, queue_synced, Inv, cursor_valid, items_valid.
  intros [= -> -> ->]. auto.
Qed.

Lemma updateQueue_synced s :
  ((length (processedImages s) <=? 1)%nat = true ->
   queueList (queueContainer s) = []) ->
  queue_synced (updateQueue s).
Proof.
  intros H. unfold queue_synced, updateQueue.
  destruct (length (processedImages s) <=? 1)%nat eqn:E.
  - specialize (H eq_refl). destruct s.
    cbn [processedImages queueContainer queueList qv_active
         currentImageIndex with_queueContainer] in *.
    rewrite E, H. auto.
  - destruct s.
    cbn [processedImages queueContainer queueList qv_active
         currentImageIndex with_queueContainer] in *.
    rewrite E. auto.
Qed.

Lemma goto_ok i s :
  queue_ok s ->
  (0 <= i < Z.of_nat (length (processedImages s)))%Z ->
  queue_ok (goto i s).
Proof.
  intros [HI HS] Hi. unfold goto.
  assert (E : currentImageIndex (set_currentImageIndex i s) = i)
    by (now destruct s).
  rewrite E. split.
  - apply QueueFacts.showAt_Inv, QueueFacts.set_cursor_Inv; assumption.
  - destruct (PipelineFacts.imageAt_in_range s i Hi) as [r Hr].
    unfold showAt. rewrite PipelineFacts.imageAt_set_cursor, Hr.
    apply updateQueue_synced. intros Hlen.
    destruct HS as [_ HS].
    assert (E1 : processedImages (showResult r (set_currentImageIndex i s))
                 = processedImages s) by (now destruct s).
    assert (E2 : queueContainer (showResult r (set_currentImageIndex i s))
                 = queueContainer s) by (now destruct s).
    rewrite E1 in Hlen. rewrite E2. now rewrite Hlen in HS.
Qed.

Lemma done_ok t u b s : queue_ok s -> queue_ok (processImage_done t u b s).
Proof.
  intros [HI HS]. split; [now apply QueueFacts.processImage_done_Inv|].
  unfold processImage_done. cbv zeta.
  destruct (createObjectURL (OfBlob b) (updateProgress 95 s)) as [url s1] eqn:E.
  injection E as <- <-.
  match goal with
  | |- queue_synced (finish_task ?tid (updateQueue ?x)) =>
      assert (Hu : queue_synced (updateQueue x));
      [ apply updateQueue_synced
      | destruct Hu as [Hu1 Hu2]; generalize dependent (updateQueue x);
        intros y Hy1 Hy2; destruct y; split; assumption ]
  end.
  match goal with
  | |- (length (processedImages ?x) <=? 1)%nat = true -> _ =>
      assert (E1 : exists r, processedImages x = processedImages s ++ [r])
        by (destruct s; eexists; reflexivity);
      assert (E2 : queueContainer x = queueContainer s) by (now destruct s)
  end.
  destruct E1 as [r ->]. rewrite E2. intros Hlen.
  destruct HS as [_ HS]. rewrite length_app in Hlen. simpl in Hlen.
  apply Nat.leb_le in Hlen.
  destruct (processedImages s); [exact HS | simpl in Hlen; lia].
Qed.

Lemma queue_ok_run evs s : queue_ok s -> queue_ok (run evs s).
Proof.
  apply Preservation.run_preserves; intros;
    lazymatch goal with
    | |- queue_ok (processImage_done _ _ _ _) => now apply done_ok
    | H : queue_ok ?s0, Hc : (currentImageIndex ?s0 > 0)%Z
      |- queue_ok (goto _ ?s0) =>
        apply goto_ok; [exact H|];
        pose proof (QueueFacts.cursor_valid_upper s0 (proj1 (proj1 H))); lia
    | H : queue_ok ?s0, Hc : (currentImageIndex ?s0 < _)%Z
      |- queue_ok (goto _ ?s0) =>
        apply goto_ok; [exact H|];
        pose proof (QueueFacts.cursor_valid_lower s0 (proj1 (proj1 H))); lia
    | H : queue_ok ?s0, Hk : queueList (queueContainer ?s0) !! ?k = Some ?item
      |- queue_ok (goto _ ?s0) =>
        apply goto_ok; [exact H|];
        destruct H as [[_ Hi] _]; unfold items_valid in Hi;
        rewrite Forall_lookup in Hi; specialize (Hi k item Hk);
        simpl in Hi; lia
    | |- _ => eapply queue_of_obs; [|eassumption]; read_fields
    end.
Qed.

Lemma initial_queue_ok : queue_ok initial.
Proof. split; [apply QueueFacts.initial_Inv | split; reflexivity]. Qed.

(** X5. In every reachable state the queue list shows the queue: the
    container is active exactly when there are two records or more, and
    then the list has one item per record, in order, each with the result
    URL of its record, the item of the current record being the active
    one; with fewer records nothing is rendered. *)
Theorem queue_list_shows_queue evs :
  let s := run evs initial in
  qv_active (queueContainer s)
  = negb (length (processedImages s) <=? 1)%nat
  /\ queueList (queueContainer s)
     = (if (length (processedImages s) <=? 1)%nat then []
        else imap (renderItem (currentImageIndex s)) (processedImages s)).
Proof. apply (queue_ok_run evs initial initial_queue_ok). Qed.

(** X6. In every reachable state with two records or more, a click on the
    [k]-th queue item makes record [k] the current one and displays it,
    leaving the queue as it is; a click where no item is rendered changes
    nothing. *)
Theorem queue_item_selects evs k r :
  let s := run evs initial in
  (2 <= length (processedImages s))%nat ->
  processedImages s !! k = Some r ->
  currentImageIndex (step (QueueItemClick k) s) = Z.of_nat k
  /\ displayed r (step (QueueItemClick k) s)
  /\ processedImages (step (QueueItemClick k) s) = processedImages s
  /\ forall j, (length (processedImages s) <= j)%nat ->
               step (QueueItemClick j) s = s.
Proof.
  intros s Hlen Hk.
  destruct (queue_list_shows_queue evs) as [_ Hlist]. fold s in Hlist.
  replace (length (processedImages s) <=? 1)%nat with false in Hlist
    by (symmetry; apply Nat.leb_gt; lia).
  assert (Hat : imageAt s (Z.of_nat k) = Some r).
  { unfold imageAt. replace (Z.of_nat k <? 0)%Z with false
      by (symmetry; apply Z.ltb_ge; lia).
    now rewrite Nat2Z.id. }
  assert (Hstep : step (QueueItemClick k) s = goto (Z.of_nat k) s).
  { simpl. unfold onQueueItemClick. rewrite Hlist, list_lookup_imap, Hk.
    reflexivity. }
  rewrite Hstep. unfold goto.
  assert (E : currentImageIndex (set_currentImageIndex (Z.of_nat k) s)
              = Z.of_nat k) by (now destruct s).
  rewrite E.
  destruct (PipelineFacts.showAt_displays (Z.of_nat k) r
              (set_currentImageIndex (Z.of_nat k) s))
    as (Hd & Hc & Hp); [now rewrite PipelineFacts.imageAt_set_cursor|].
  split; [now rewrite Hc|]. split; [exact Hd|].
  split; [rewrite Hp; now destruct s|].
  intros j Hj. simpl. unfold onQueueItemClick.
  rewrite Hlist, list_lookup_imap.
  now rewrite (lookup_ge_None_2 (processedImages s) j Hj).
Qed.

Lemma queue_item_selects_witness :
  let s := run twoResultsEvents initial in
  exists r,
    processedImages s !! 0%nat = Some r
    /\ currentImageIndex (step (QueueItemClick 0) s) = 0%Z
    /\ displayed r (step (QueueItemClick 0) s)
    /\ step (QueueItemClick 2) s = s.
Proof.
  intros s.
  destruct (processedImages s !! 0%nat) as [r|] eqn:Hr;
    [|vm_compute in Hr; discriminate].
  exists r. split; [reflexivity|].
  destruct (queue_item_selects twoResultsEvents 0 r) as (H1 & H2 & _ & H4).
  - vm_compute. lia.
  - exact Hr.
  - split; [exact H1|]. split; [exact H2|]. apply H4. vm_compute. lia.
Defined.

(** X7. The queue only grows: whatever events follow, the records present
    stay where they are, unchanged, and new records come after them. *)
Theorem queue_only_grows evs s :
  exists new, processedImages (run evs s) = processedImages s ++ new.
Proof.
  revert s. induction evs as [|ev evs IH]; intros s.
  - exists []. simpl. now rewrite app_nil_r.
  - simpl. destruct (IH (step ev s)) as [new Hnew].
    destruct (PipelineFacts.queue_append_only ev s) as [E | (r & E & _)];
      rewrite Hnew, E; [eauto|].
    exists (r :: new). now rewrite <- app_assoc.
Qed.


(** *** Download, new image and the keyboard *)

(** X8. The download action touches nothing on the page and nothing of
    the queue: it shows no error, and with an empty queue it does nothing
    at all.  The keys [d] and [D] are this action while a result is shown,
    and nothing otherwise. *)
Theorem download_leaves_page s :
  samePage s (step DownloadClick s)
  /\ shownErrors (effects (step DownloadClick s)) = shownErrors (effects s)
  /\ (processedImages s = [] -> step DownloadClick s = s)
  /\ (forall key, key = "d" \/ key = "D" ->
      step (Keydown key) s
      = if rv_active (resultContainer s) then step DownloadClick s else s).
Proof.
  unfold samePage, step, onDownloadClick, imageAt.
  split; [|split; [|split]].
  - destruct (_ >=? _)%Z; [|now destruct s].
    destruct (_ <? _)%Z; [now destruct s|].
    destruct (processedImages s !! _); now destruct s.
  - destruct (_ >=? _)%Z; [|reflexivity].
    destruct (_ <? _)%Z; [reflexivity|].
    destruct (processedImages s !! _); now destruct s.
  - intros ->. destruct (_ >=? _)%Z; [|reflexivity].
    destruct (_ <? _)%Z; reflexivity.
  - intros key [-> | ->]; unfold onKeydown;
      destruct (rv_active (resultContainer s)); reflexivity.
Qed.

(** X9. The New Image button keeps the queue and its cursor, shows the
    upload zone and hides the result view and the error message; after it
    every key is ignored, the shortcuts being bound to the result view. *)
Theorem new_image_turns_keys_off s key :
  let s' := step NewImageClick s in
  processedImages s' = processedImages s
  /\ currentImageIndex s' = currentImageIndex s
  /\ uz_display (uploadZone s') = DisplayBlock
  /\ rv_active (resultContainer s') = false
  /\ er_active (errorMessage s') = false
  /\ step (Keydown key) s' = s'.
Proof.
  intros s'. subst s'. unfold step.
  assert (H : rv_active (resultContainer (onNewImageClick s)) = false)
    by (now destruct s).
  split; [now destruct s|]. split; [now destruct s|].
  split; [now destruct s|]. split; [exact H|]. split; [now destruct s|].
  unfold onKeydown. now rewrite H.
Qed.

End PageFacts.

(** ** More on the validation gate *)

Module GateMore.
Import App Page Samples.

Lemma handleFiles_none_allowed files s :
  List.filter allowed files = [] ->
  handleFiles files s
  = fold_left (fun s m => showError m s) (flat_map rejection files) s.
Proof.
  intros Hnone. unfold handleFiles.
  pose proof (GateFacts.filterValid_fst files s) as H1.
  pose proof (GateFacts.filterValid_snd files s) as H2.
  destruct (filterValid files s) as [valid s1]. simpl in *.
  rewrite Hnone in H1. now subst.
Qed.

Lemma showErrors_last msgs m s :
  errorMessage (fold_left (fun s m => showError m s) (msgs ++ [m]) s)
  = {| er_active := true; er_text := m |}.
Proof.
  rewrite fold_left_app. simpl.
  now destruct (fold_left (fun s m => showError m s) msgs s).
Qed.

Lemma rejection_not_allowed f :
  allowed f = false ->
  rejection f
  = [if includes validTypes (file_type f) then sizeError else typeError].
Proof.
  unfold allowed, rejection.
  destruct (includes validTypes (file_type f)); simpl; [|reflexivity].
  rewrite Z.gtb_ltb, Z.ltb_antisym. intros ->. reflexivity.
Qed.

(** X10. A batch from the file picker in which no file is valid leaves
    the message of its last file on the page (the queue and the pending
    work untouched); a batch with at least one valid file leaves no message
    on the page, although [showError] has run for each rejected file: the
    [processImage] call of the first valid file hides it in the same
    handler. *)
Theorem rejection_message_visibility files last s :
  let batch := files ++ [last] in
  (List.filter allowed batch = [] ->
   errorMessage (step (Change batch) s)
   = {| er_active := true;
        er_text := if includes validTypes (file_type last) then sizeError
                   else typeError |}
   /\ pendingFiles (step (Change batch) s) = pendingFiles s
   /\ processedImages (step (Change batch) s) = processedImages s)
  /\ (List.filter allowed batch <> [] ->
      er_active (errorMessage (step (Change batch) s)) = false
      /\ shownErrors (effects (step (Change batch) s))
         = shownErrors (effects s) ++ flat_map rejection batch).
Proof.
  intros batch.
  assert (Hstep : step (Change batch) s = handleFiles batch s).
  { subst batch. simpl. unfold onChange. now destruct files. }
  rewrite Hstep. split.
  - intros Hnone. rewrite (handleFiles_none_allowed _ _ Hnone).
    assert (Hlast : allowed last = false).
    { subst batch. rewrite List.filter_app in Hnone.
      apply app_eq_nil in Hnone as [_ Hnone]. simpl in Hnone.
      now destruct (allowed last). }
    subst batch. rewrite flat_map_app. simpl. rewrite app_nil_r.
    rewrite (rejection_not_allowed last Hlast).
    rewrite showErrors_last.
    match goal with
    | |- context [fold_left _ ?msgs s] =>
        destruct (GateFacts.showErrors_frame msgs s) as (Ht & Hl & Hc & _)
    end.
    unfold pendingFiles. rewrite Ht, Hl.
    split; [reflexivity|]. split; [reflexivity|].
    unfold core in Hc. congruence.
  - intros Hsome. split; [now apply GateFacts.gate_message_hidden|].
    apply GateFacts.handleFiles_frame.
Qed.


Lemma rejection_message_visibility_witness :
  errorMessage (step (Change [gif; png12]) initial)
  = {| er_active := true; er_text := sizeError |}
  /\ er_active (errorMessage (step (Change [gif; photoA]) initial)) = false
  /\ shownErrors (effects (step (Change [gif; photoA]) initial)) = [typeError].
Proof.
  split.
  - destruct (rejection_message_visibility [gif] png12 initial) as [H _].
    destruct H as (H & _); [reflexivity | exact H].
  - destruct (rejection_message_visibility [gif] photoA initial) as [_ H].
    destruct H as (H1 & H2); [vm_compute; discriminate|].
    split; [exact H1 | exact H2].
Defined.

Lemma processRemainingFiles_sched f rest s :
  exists pc,
    tasks (processRemainingFiles (f :: rest) s)
    = tasks s ++ [{| task_id := nextTask s; task_file := f; task_pc := pc |}]
    /\ loops (processRemainingFiles (f :: rest) s)
       = loops s ++ [{| loop_awaits := nextTask s; loop_rest := rest |}]
    /\ nextTask (processRemainingFiles (f :: rest) s) = S (nextTask s)
    /\ removeBackgroundFn (processRemainingFiles (f :: rest) s)
       = removeBackgroundFn s
    /\ (removeBackgroundFn s = true -> pc = AtInit).
Proof.
  unfold processRemainingFiles, processImage_start, initializeModel_start.
  destruct s as [fn ? ? ? ? ? ? ? ? ? ? ? ? ? ?]; destruct fn; simpl;
    eexists; repeat split; congruence.
Qed.

(** X11. Starting from a page with no work pending, the files that a batch
    from the file picker hands to [processImage] are exactly its valid
    files in the order given: the first two are started at once and the
    others wait in the loop, in order. *)
Theorem accepted_in_order files s :
  tasks s = [] ->
  loops s = [] ->
  let valid := List.filter allowed files in
  let s' := step (Change files) s in
  map task_file (tasks s') = take 2 valid
  /\ concat (map loop_rest (loops s')) = drop 2 valid
  /\ pendingFiles s' = valid.
Proof.
  intros Ht Hl valid s'.
  assert (Hstep : s' = handleFiles files s).
  { subst s'. simpl. unfold onChange. destruct files; [|reflexivity].
    unfold handleFiles. simpl. reflexivity. }
  assert (H : map task_file (tasks s') = take 2 valid
              /\ concat (map loop_rest (loops s')) = drop 2 valid).
  { rewrite Hstep. unfold handleFiles.
    pose proof (GateFacts.filterValid_fst files s) as H1.
    pose proof (GateFacts.filterValid_snd files s) as H2.
    destruct (filterValid files s) as [valid' s1]. simpl in H1, H2.
    fold valid in H1. subst valid'.
    destruct (GateFacts.showErrors_frame (flat_map rejection files) s)
      as (Ht1 & Hl1 & _). rewrite <- H2, Ht in Ht1. rewrite <- H2, Hl in Hl1.
    clear H2. destruct valid as [|f0 others].
    - rewrite Ht1, Hl1. auto.
    - destruct (GateFacts.processImage_start_tasks f0 s1) as [pc0 Ht2].
      destruct (GateFacts.processImage_start_frame f0 s1) as (Hl2 & _).
      destruct (processImage_start f0 s1) as [tid s2]. simpl in Ht2, Hl2.
      rewrite Ht1 in Ht2. rewrite Hl1 in Hl2.
      destruct others as [|f1 rest].
      + rewrite Ht2, Hl2. auto.
      + destruct (processRemainingFiles_sched f1 rest s2)
          as (pc1 & -> & -> & _).
        rewrite Ht2, Hl2. simpl. rewrite app_nil_r. auto. }
  destruct H as [H1 H2]. split; [exact H1|]. split; [exact H2|].
  unfold pendingFiles. rewrite H1, H2. apply take_drop.
Qed.

Lemma accepted_in_order_witness :
  let s' := step (Change [photoA; gif; photoB; png12; photoC]) initial in
  map task_file (tasks s') = [photoA; photoB]
  /\ concat (map loop_rest (loops s')) = [photoC]
  /\ pendingFiles s' = [photoA; photoB; photoC].
Proof.
  apply (accepted_in_order [photoA; gif; photoB; png12; photoC] initial);
    reflexivity.
Defined.

End GateMore.

(** ** The validation gate and the error box *)

Module GateClaims.
Import App Page Samples.

Lemma filter_filter_same {A} (f : A -> bool) l :
  List.filter f (List.filter f l) = List.filter f l.
Proof.
  induction l as [|x l IH]; [reflexivity|]. simpl.
  destruct (f x) eqn:E; simpl; rewrite ?E, IH; reflexivity.
Qed.

Lemma Change_not_Drop : Change <> Drop.
Proof. intros E. apply (f_equal (fun f => f [])) in E. discriminate E. Qed.

(** The error box when [handleFiles] returns. *)
Lemma handleFiles_box batch s front last :
  List.filter allowed batch = [] ->
  batch = front ++ [last] ->
  errorMessage (handleFiles batch s)
  = {| er_active := true;
       er_text := if includes validTypes (file_type last) then sizeError
                  else typeError |}.
Proof.
  intros Hnone ->.
  rewrite (GateMore.handleFiles_none_allowed _ _ Hnone).
  assert (Hlast : allowed last = false).
  { rewrite List.filter_app in Hnone.
    apply app_eq_nil in Hnone as [_ Hnone]. simpl in Hnone.
    now destruct (allowed last). }
  rewrite flat_map_app. simpl. rewrite app_nil_r.
  rewrite (GateMore.rejection_not_allowed last Hlast).
  apply GateMore.showErrors_last.
Qed.

Lemma onDrop_images files s :
  step (Drop (List.filter isImage files)) s = step (Drop files) s.
Proof.
  cbn [step]. unfold onDrop.
  assert (E : forall l,
            List.filter (fun file => String.prefix "image/" (file_type file)) l
            = List.filter isImage l) by reflexivity.
  rewrite !E, filter_filter_same. reflexivity.
Qed.

(** The two ways in: the file picker validates the files chosen, the
    [drop] listener those whose type starts with [image/]. *)
Lemma gate arrive files batch s :
  (arrive = Change /\ batch = files)
  \/ (arrive = Drop /\ batch = List.filter isImage files) ->
  let s' := step (arrive files) s in
  let valid := List.filter allowed files in
  accepts (arrive files) s valid
  /\ step (arrive files) s = step (arrive batch) s
  /\ shownErrors (effects s')
     = shownErrors (effects s) ++ flat_map rejection batch
  /\ List.filter allowed batch = valid
  /\ (batch = [] -> effects s' = effects s /\ errorMessage s' = errorMessage s)
  /\ (valid = [] ->
      forall front last, batch = front ++ [last] ->
      errorMessage s'
      = {| er_active := true;
           er_text := if includes validTypes (file_type last) then sizeError
                      else typeError |})
  /\ (valid <> [] -> er_active (errorMessage s') = false).
Proof.
  intros [[-> ->] | [-> ->]] s' valid; subst s' valid.
  - destruct (GateFacts.onChange_spec files s) as [Hacc Herr].
    split; [exact Hacc|]. split; [reflexivity|]. split; [exact Herr|].
    split; [reflexivity|].
    assert (Hstep : files <> [] -> step (Change files) s = handleFiles files s)
      by (destruct files; [congruence | reflexivity]).
    split; [intros ->; auto|]. split.
    + intros Hnone front last E. rewrite Hstep by (subst; now destruct front).
      now apply (handleFiles_box files s front last).
    + intros Hsome. rewrite Hstep by (intros ->; now apply Hsome).
      now apply GateFacts.gate_message_hidden.
  - destruct (GateFacts.onDrop_spec files s) as [Hacc Herr].
    split; [exact Hacc|].
    set (images := List.filter isImage files) in *.
    set (s0 := with_uploadZone (set_dragOver false (uploadZone s)) s).
    assert (Hstep : step (Drop files) s
                    = match images with
                      | [] => s0
                      | _ :: _ => handleFiles images s0
                      end) by reflexivity.
    pose proof (onDrop_images files s) as Hagain. fold images in Hagain.
    split; [now rewrite Hagain|]. split; [exact Herr|].
    split; [apply GateFacts.filter_allowed_images|].
    rewrite <- (GateFacts.filter_allowed_images files). fold images.
    rewrite Hstep. split; [intros ->; now destruct s|]. split.
    + intros Hnone front last E.
      destruct images as [|g images']; [now destruct front|].
      now apply (handleFiles_box (g :: images') s0 front last).
    + intros Hsome. destruct images as [|g images']; [now destruct Hsome|].
      now apply GateFacts.gate_message_hidden.
Qed.

(** C2, as stated, fails twice.  A dropped file whose type does not start
    with [image/] is discarded by the [drop] listener before
    [handleFiles] runs: [showError] is not called.  And in a batch with an
    accepted file the message of a rejected file is hidden again by the
    [processImage] call that the same handler starts: no message is on the
    page when it returns. *)
Lemma type_error_not_always_shown :
  ~ rejectsWithError Drop
  /\ (let s' := step (Change [pdf; photoA]) initial in
      includes validTypes (file_type pdf) = false
      /\ In typeError (shownErrors (effects s'))
      /\ er_active (errorMessage s') = false).
Proof.
  split.
  - intros H.
    destruct (H [pdf] initial pdf) as [_ (new & Heq & Hin)].
    + left. reflexivity.
    + reflexivity.
    + vm_compute in Heq. subst new. exact Hin.
  - vm_compute. auto.
Qed.

(** C2, amended.  A file whose type is not JPEG, PNG or WebP is never
    accepted, whatever its size and whichever way it arrives.  The file
    picker validates every file; the [drop] listener validates the dropped
    files whose type starts with [image/] and discards the others, which
    leave no trace.  A validated file of a wrong type makes [showError] put
    the type message into the error box.  When the handler returns, the
    box is active if no file was accepted and one was validated, and it
    then shows the message of the last file validated; if a file was
    accepted the box is hidden, the [processImage] call of the first
    accepted file having hidden it. *)
Theorem type_gate (arrive : list File -> Event) files batch s f :
  (arrive = Change /\ batch = files)
  \/ (arrive = Drop /\ batch = List.filter isImage files) ->
  In f files ->
  includes validTypes (file_type f) = false ->
  let s' := step (arrive files) s in
  let valid := List.filter allowed files in
  (~ In f valid /\ accepts (arrive files) s valid)
  /\ step (arrive files) s = step (arrive batch) s
  /\ (In f batch <-> arrive = Change \/ isImage f = true)
  /\ shownErrors (effects s')
     = shownErrors (effects s) ++ flat_map rejection batch
  /\ (In f batch ->
      In typeError (flat_map rejection batch)
      /\ forall s0,
           validFile f s0 = (false, showError typeError s0)
           /\ errorMessage (showError typeError s0)
              = {| er_active := true; er_text := typeError |})
  /\ (batch = [] -> effects s' = effects s /\ errorMessage s' = errorMessage s)
  /\ (valid = [] -> batch <> [] ->
      er_active (errorMessage s') = true
      /\ (forall front last, batch = front ++ [last] ->
          er_text (errorMessage s')
          = if includes validTypes (file_type last) then sizeError
            else typeError)
      /\ (forall front, batch = front ++ [f] ->
          er_text (errorMessage s') = typeError))
  /\ (valid <> [] -> er_active (errorMessage s') = false).
Proof.
  intros Harr Hin Htype s' valid.
  destruct (gate arrive files batch s Harr)
    as (Hacc & Hstep & Herr & Hvalid & Hnone & Hstay & Hhide).
  fold s' valid in Hacc, Herr, Hvalid, Hnone, Hstay, Hhide.
  assert (Hna : allowed f = false) by (unfold allowed; now rewrite Htype).
  assert (Hrej : rejection f = [typeError])
    by (unfold rejection; now rewrite Htype).
  split; [split; [now apply GateFacts.not_allowed_out | exact Hacc]|].
  split; [exact Hstep|]. split; [|split; [exact Herr|split]].
  - destruct Harr as [[-> ->] | [-> ->]].
    + split; auto.
    + rewrite filter_In. split.
      * intros [_ H]. now right.
      * intros [H | H]; [now destruct Change_not_Drop | auto].
  - intros Hb. split.
    + apply in_flat_map. exists f. rewrite Hrej. split; [exact Hb | now left].
    + intros s0. split; [|now destruct s0].
      unfold validFile. now rewrite Htype.
  - split; [exact Hnone|]. split; [|exact Hhide].
    intros Hv Hb. destruct (exists_last Hb) as (front & last & E).
    split; [now rewrite (Hstay Hv front last E)|]. split.
    + intros front' last' E'. now rewrite (Hstay Hv front' last' E').
    + intros front' E'. rewrite (Hstay Hv front' f E').
      cbn [er_text]. now rewrite Htype.
Qed.

Lemma type_gate_witness :
  (~ In gif (List.filter allowed [pdf; gif])
   /\ step (Drop [pdf; gif]) initial = step (Drop [gif]) initial
   /\ shownErrors (effects (step (Drop [pdf; gif]) initial)) = [typeError]
   /\ errorMessage (step (Drop [pdf; gif]) initial)
      = {| er_active := true; er_text := typeError |})
  /\ (shownErrors (effects (step (Change [pdf; gif]) initial))
      = [typeError; typeError]
      /\ er_active (errorMessage (step (Change [gif; photoA]) initial)) = false).
Proof.
  split.
  - destruct (type_gate Drop [pdf; gif] [gif] initial gif)
      as ((H1 & _) & H2 & _ & H3 & _ & _ & H4 & _).
    + right. split; reflexivity.
    + right. left. reflexivity.
    + reflexivity.
    + split; [exact H1|]. split; [exact H2|]. split; [exact H3|].
      destruct H4 as (Ha & _ & Ht); [reflexivity | discriminate |].
      specialize (Ht [] eq_refl).
      destruct (errorMessage (step (Drop [pdf; gif]) initial)).
      cbn [er_active er_text] in Ha, Ht. now subst.
  - split.
    + destruct (type_gate Change [pdf; gif] [pdf; gif] initial pdf)
        as (_ & _ & _ & H3 & _).
      * left. split; reflexivity.
      * left. reflexivity.
      * reflexivity.
      * exact H3.
    + destruct (type_gate Change [gif; photoA] [gif; photoA] initial gif)
        as (_ & _ & _ & _ & _ & _ & _ & H).
      * left. split; reflexivity.
      * left. reflexivity.
      * reflexivity.
      * apply H. vm_compute. discriminate.
Defined.

(** C3, as stated, fails in a batch with an accepted file: the file that
    is too large is rejected and [showError] runs with the size message,
    but the [processImage] call of the accepted file, started by the same
    handler, hides the error box, and no message is on the page when the
    handler returns. *)
Lemma oversize_error_hidden :
  let s' := step (Change [png12; photoA]) initial in
  (includes validTypes (file_type png12) = true
   /\ (file_size png12 > 10 * 1024 * 1024)%Z)
  /\ pendingFiles s' = [photoA]
  /\ In sizeError (shownErrors (effects s'))
  /\ er_active (errorMessage s') = false.
Proof. vm_compute. auto 6. Qed.

(** C3, amended.  A file of an allowed type that reaches the gate is
    accepted when its size is at most 10 MiB (10 * 1024 * 1024 bytes): it
    is handed to [processImage], in a call started by the handler or held
    by the loop of [processRemainingFiles], which starts the call when it
    reaches the file.  When its size is larger it is not accepted and
    [showError] puts the size message into the error box.  When the
    handler returns, the box is active if no file of the batch was
    accepted, showing the message of the last file validated; if a file
    was accepted the box is hidden, the [processImage] call of the first
    accepted file having hidden it.  This holds for the file picker and
    for a drop alike. *)
Theorem size_ceiling (arrive : list File -> Event) files batch s f :
  (arrive = Change /\ batch = files)
  \/ (arrive = Drop /\ batch = List.filter isImage files) ->
  In f files ->
  includes validTypes (file_type f) = true ->
  let s' := step (arrive files) s in
  let valid := List.filter allowed files in
  In f batch
  /\ accepts (arrive files) s valid
  /\ shownErrors (effects s')
     = shownErrors (effects s) ++ flat_map rejection batch
  /\ ((file_size f <= 10 * 1024 * 1024)%Z ->
      In f valid
      /\ (forall s0, validFile f s0 = (true, s0))
      /\ ((exists t, In t (tasks s') /\ task_file t = f)
          \/ (exists l, In l (loops s') /\ In f (loop_rest l)))
      /\ (forall x tid l rest,
            find_task tid x = None ->
            List.find (fun l => Nat.eqb (loop_awaits l) tid) (loops x)
            = Some l ->
            loop_rest l = f :: rest ->
            let x' := step (ProcessImageSettled tid) x in
            (exists pc,
               In {| task_id := nextTask x; task_file := f; task_pc := pc |}
                 (tasks x'))
            /\ In {| loop_awaits := nextTask x; loop_rest := rest |}
                 (loops x'))
      /\ er_active (errorMessage s') = false)
  /\ ((file_size f > 10 * 1024 * 1024)%Z ->
      ~ In f valid
      /\ In sizeError (flat_map rejection batch)
      /\ (forall s0,
            validFile f s0 = (false, showError sizeError s0)
            /\ errorMessage (showError sizeError s0)
               = {| er_active := true; er_text := sizeError |})
      /\ (valid = [] ->
          er_active (errorMessage s') = true
          /\ (forall front last, batch = front ++ [last] ->
              er_text (errorMessage s')
              = if includes validTypes (file_type last) then sizeError
                else typeError)
          /\ (forall front, batch = front ++ [f] ->
              er_text (errorMessage s') = sizeError))
      /\ (valid <> [] -> er_active (errorMessage s') = false)).
Proof.
  intros Harr Hin Htype s' valid.
  destruct (gate arrive files batch s Harr)
    as (Hacc & _ & Herr & Hvalid & _ & Hstay & Hhide).
  fold s' valid in Hacc, Herr, Hvalid, Hstay, Hhide.
  assert (Hb : In f batch).
  { destruct Harr as [[_ ->] | [_ ->]]; [exact Hin|].
    apply filter_In. auto using GateFacts.allowed_isImage. }
  split; [exact Hb|]. split; [exact Hacc|]. split; [exact Herr|].
  split; intros Hsize.
  - assert (Hok : allowed f = true).
    { unfold allowed. rewrite Htype. apply Z.leb_le. exact Hsize. }
    assert (Hv : In f valid) by (apply filter_In; auto).
    split; [exact Hv|]. split.
    { intros s0. unfold validFile. rewrite Htype. cbn [negb].
      unfold allowed in Hok. rewrite Htype in Hok. cbn [andb] in Hok.
      rewrite Z.gtb_ltb, Z.ltb_antisym, Hok. reflexivity. }
    split.
    { destruct Hacc as [Hp _].
      assert (Hpend : In f (pendingFiles s')).
      { apply (Permutation_in f (Permutation_sym Hp)), in_or_app. now right. }
      unfold pendingFiles in Hpend. apply in_app_or in Hpend as [H | H].
      - left. apply in_map_iff in H as (t & E & Ht). eauto.
      - right. apply in_concat in H as (r & Hr & Hf).
        apply in_map_iff in Hr as (l & <- & Hl). eauto. }
    split.
    { intros x tid l rest Hf Hl Hrest x'.
      destruct (PipelineFacts.loop_takes_next tid l f rest x Hf Hl Hrest)
        as (H1 & H2 & _).
      split; assumption. }
    apply Hhide. intros E. rewrite E in Hv. exact Hv.
  - assert (Hna : allowed f = false).
    { unfold allowed. rewrite Htype. apply Z.leb_gt. unfold maxSize. lia. }
    assert (Hgt : (file_size f >? maxSize)%Z = true)
      by (apply Z.gtb_lt; unfold maxSize; lia).
    assert (Hrej : rejection f = [sizeError]).
    { unfold rejection. now rewrite Htype, Hgt. }
    split; [now apply GateFacts.not_allowed_out|]. split.
    { apply in_flat_map. exists f. rewrite Hrej. split; [exact Hb | now left]. }
    split.
    { intros s0. split; [|now destruct s0].
      unfold validFile. now rewrite Htype, Hgt. }
    split; [|exact Hhide].
    intros Hv. assert (Hne : batch <> []) by (intros E; now rewrite E in Hb).
    destruct (exists_last Hne) as (front & last & E).
    split; [now rewrite (Hstay Hv front last E)|]. split.
    + intros front' last' E'. now rewrite (Hstay Hv front' last' E').
    + intros front' E'. rewrite (Hstay Hv front' f E').
      cbn [er_text]. now rewrite Htype.
Qed.

Lemma size_ceiling_witness :
  (In jpeg10 (List.filter allowed [png12; jpeg10])
   /\ er_active (errorMessage (step (Drop [png12; jpeg10]) initial)) = false)
  /\ (~ In png12 (List.filter allowed [gif; png12])
      /\ errorMessage (step (Change [gif; png12]) initial)
         = {| er_active := true; er_text := sizeError |}).
Proof.
  split.
  - destruct (size_ceiling Drop [png12; jpeg10] [png12; jpeg10] initial jpeg10)
      as (_ & _ & _ & H & _).
    + right. split; reflexivity.
    + right. left. reflexivity.
    + reflexivity.
    + destruct H as (H1 & _ & _ & _ & H2); [vm_compute; discriminate|].
      split; assumption.
  - destruct (size_ceiling Change [gif; png12] [gif; png12] initial png12)
      as (_ & _ & _ & _ & H).
    + left. split; reflexivity.
    + right. left. reflexivity.
    + reflexivity.
    + destruct H as (H1 & _ & _ & H2 & _); [reflexivity|].
      split; [exact H1|].
      destruct H2 as (Ha & _ & Ht); [reflexivity|].
      specialize (Ht [gif] eq_refl).
      destruct (errorMessage (step (Change [gif; png12]) initial)).
      cbn [er_active er_text] in Ha, Ht. now subst.
Defined.

End GateClaims.


(** ** More on the comparison slider *)

Module SliderMore.
Import App Page Samples MoreSamples.

(** X12. A drag ends on release: once [isDragging] is false, whatever
    happens next short of a new press on the divider, it stays false, and
    moves of the mouse or of a finger change nothing. *)
Theorem drag_ends_on_release evs s clientX rect :
  Forall (fun ev => isPress ev = false) evs ->
  isDragging s = false ->
  let s' := run evs s in
  isDragging s' = false
  /\ step (MouseMove clientX rect) s' = s'
  /\ step (TouchMove [clientX] rect) s' = s'.
Proof.
  intros Hevs H s'.
  assert (H' : isDragging s' = false).
  { subst s'. revert Hevs H. revert s.
    apply (Preservation.run_preserves_no_press
             (fun s => isDragging s = false));
      cbv beta; intros;
      match goal with
      | H : isDragging ?a = false |- isDragging ?b = false =>
          first [ rewrite <- H; now PageFacts.read_fields
                | now destruct a ]
      end. }
  split; [exact H'|]. simpl. now rewrite H'.
Qed.

Lemma drag_ends_on_release_witness :
  let s' := run [MouseMove 120 box;
                  Keydown "ArrowLeft"; TouchEnd]
              (step MouseUp (step SliderMouseDown twoResults)) in
  isDragging s' = false
  /\ step (MouseMove 300 box) s' = s'
  /\ step (TouchMove [300%Q] box) s' = s'.
Proof.
  apply (drag_ends_on_release
           [MouseMove 120 box;
            Keydown "ArrowLeft"; TouchEnd]
           (step MouseUp (step SliderMouseDown twoResults))).
  - repeat constructor.
  - vm_compute. reflexivity.
Defined.


Local Open Scope Q_scope.

Lemma pointerPercentage_mono x y rect :
  0 < rect_width rect -> x <= y ->
  pointerPercentage x rect <= pointerPercentage y rect.
Proof.
  intros Hw Hxy. unfold pointerPercentage.
  assert (H : (x - rect_left rect) / rect_width rect
              <= (y - rect_left rect) / rect_width rect).
  { apply Qle_shift_div_l; [exact Hw|].
    unfold Qdiv. rewrite <- Qmult_assoc, (Qmult_comm (/ _)), Qmult_inv_r, Qmult_1_r;
      [lra | intros E; rewrite E in Hw; discriminate]. }
  revert H. generalize ((x - rect_left rect) / rect_width rect).
  generalize ((y - rect_left rect) / rect_width rect). intros a b H. lra.
Qed.

Lemma clamped_mono p q : p <= q -> clampedPercentage p <= clampedPercentage q.
Proof.
  intros H. unfold clampedPercentage.
  apply Q.max_le_compat_l, Q.min_le_compat_l, H.
Qed.

Lemma clamped_idempotent p :
  clampedPercentage (clampedPercentage p) == clampedPercentage p.
Proof. apply SliderFacts.clamped_inside, SliderFacts.clamped_range. Qed.

(** X13. With exact rationals and a widget of positive width, the divider
    follows the pointer: a pointer further to the right never gives a
    smaller position. *)
Theorem divider_follows_pointer x y rect s :
  0 < rect_width rect ->
  x <= y ->
  exists p q,
    slider (handleSliderMove x rect s) = Some p
    /\ slider (handleSliderMove y rect s) = Some q
    /\ p <= q.
Proof.
  intros Hw Hxy.
  exists (clampedPercentage (pointerPercentage x rect)),
         (clampedPercentage (pointerPercentage y rect)).
  split; [apply SliderFacts.handleSliderMove_left|].
  split; [apply SliderFacts.handleSliderMove_left|].
  now apply clamped_mono, pointerPercentage_mono.
Qed.

Lemma divider_follows_pointer_witness :
  exists p q,
    slider (handleSliderMove 120 box
              twoResults) = Some p
    /\ slider (handleSliderMove 250 box
                 twoResults) = Some q
    /\ p <= q.
Proof.
  apply (divider_follows_pointer 120 250
           box twoResults).
  - reflexivity.
  - discriminate.
Defined.

(** X14. Showing a record puts the divider back in the middle, wherever a
    drag had left it: after a successful inference and after every move to
    a record of the queue the position is 50 and the clip is 50. *)
Theorem shown_record_is_centred s :
  (forall tid t u b,
     find_task tid s = Some t -> task_pc t = AtInference u ->
     slider (step (InferenceResolved tid b) s) = Some 50
     /\ imageBefore_inset (resultContainer (step (InferenceResolved tid b) s))
        = Some (100 - 50))
  /\ (forall i r,
        imageAt s i = Some r ->
        slider (goto i s) = Some 50
        /\ imageBefore_inset (resultContainer (goto i s)) = Some (100 - 50)).
Proof.
  split.
  - intros tid t u b Hfind Hpc. unfold step. rewrite Hfind, Hpc.
    unfold processImage_done, updateQueue, slider.
    destruct s; simpl.
    match goal with |- context [if ?c then _ else _] => destruct c end;
      simpl; auto.
  - intros i r Hr. unfold goto.
    replace (currentImageIndex (set_currentImageIndex i s)) with i
      by (now destruct s).
    unfold showAt. rewrite PipelineFacts.imageAt_set_cursor, Hr.
    unfold updateQueue, slider. destruct s; simpl.
    match goal with |- context [if ?c then _ else _] => destruct c end;
      simpl; auto.
Qed.

Lemma shown_record_is_centred_witness :
  let dragged := step (MouseMove 120 box) (step SliderMouseDown twoResults) in
  (exists p, slider dragged = Some p /\ p == 10)
  /\ slider (goto 0 dragged) = Some 50.
Proof.
  intros dragged. split.
  - eexists. split; [vm_compute; reflexivity | reflexivity].
  - destruct (imageAt dragged 0) as [r|] eqn:Hr;
      [|vm_compute in Hr; discriminate].
    destruct (shown_record_is_centred dragged) as [_ H].
    now destruct (H 0%Z r Hr) as [H1 _].
Defined.

End SliderMore.

(** ** The progress callback *)

Module ProgressFacts.
Import App Page Samples.
Local Open Scope Q_scope.

Lemma share_range current total :
  0 < total -> 0 <= current <= total -> 0 <= current / total * 70 <= 70.
Proof.
  intros Ht [H0 H1].
  assert (Ha : 0 <= current / total)
    by (apply Qle_shift_div_l; [exact Ht | lra]).
  assert (Hb : current / total <= 1)
    by (apply Qle_shift_div_r; [exact Ht | lra]).
  revert Ha Hb. generalize (current / total). intros t Ha Hb. split; lra.
Qed.

Lemma share_mono a b total :
  0 < total -> a <= b -> a / total * 70 <= b / total * 70.
Proof.
  intros Ht Hab.
  assert (H : a / total <= b / total).
  { apply Qle_shift_div_l; [exact Ht|].
    unfold Qdiv.
    rewrite <- Qmult_assoc, (Qmult_comm (/ _)), Qmult_inv_r, Qmult_1_r;
      [exact Hab | intros E; rewrite E in Ht; discriminate]. }
  revert H. generalize (a / total), (b / total). intros x y H. lra.
Qed.

Lemma progress_value current total s :
  progressFill (processing (progress "compute:inference" current total s))
  = (20 + Math_round (current / total * 70))%Z.
Proof. unfold progress. now destruct s. Qed.

(** X15. With exact rationals, the [progress] callback maps the inference
    phase into the part 20..90 of the bar: for [0 <= current <= total] with
    [total] positive the width is between 20 and 90, it is 20 at the start
    and 90 at the end, it never decreases when [current] grows, and a call
    for any other phase changes nothing. *)
Theorem inference_progress_range current total s :
  0 < total ->
  0 <= current <= total ->
  let width c :=
    progressFill (processing (progress "compute:inference" c total s)) in
  (20 <= width current <= 90)%Z
  /\ width 0 = 20%Z
  /\ width total = 90%Z
  /\ (forall next, current <= next -> (width current <= width next)%Z)
  /\ (forall key, String.eqb key "compute:inference" = false ->
      progress key current total s = s).
Proof.
  intros Ht Hc width. subst width. cbv beta. rewrite !progress_value.
  unfold Math_round.
  destruct (share_range current total Ht Hc) as [Hlo Hhi].
  split; [|split; [|split; [|split]]].
  - assert (H1 : (Qfloor 0 <= Qfloor (current / total * 70 + (1 # 2)))%Z)
      by (apply Qfloor_resp_le; lra).
    assert (H2 : (Qfloor (current / total * 70 + (1 # 2))
                  <= Qfloor (141 # 2))%Z)
      by (apply Qfloor_resp_le; lra).
    change (Qfloor 0) with 0%Z in H1. change (Qfloor (141 # 2)) with 70%Z in H2.
    lia.
  - assert (E : 0 / total * 70 + (1 # 2) == 1 # 2).
    { unfold Qdiv. rewrite Qmult_0_l. reflexivity. }
    rewrite E. reflexivity.
  - assert (E : total / total * 70 + (1 # 2) == 141 # 2).
    { unfold Qdiv. rewrite Qmult_inv_r;
        [reflexivity | intros E; rewrite E in Ht; discriminate]. }
    rewrite E. reflexivity.
  - intros next Hn. rewrite progress_value. unfold Math_round.
    assert (H : (Qfloor (current / total * 70 + (1 # 2))
                 <= Qfloor (next / total * 70 + (1 # 2)))%Z).
    { apply Qfloor_resp_le. pose proof (share_mono current next total Ht Hn).
      lra. }
    lia.
  - intros key Hkey. unfold progress. now rewrite Hkey.
Qed.

Lemma inference_progress_range_witness :
  let width c :=
    progressFill (processing (progress "compute:inference" c 7 twoInFlight)) in
  (20 <= width 3%Q <= 90)%Z
  /\ width 3 = 50%Z
  /\ progress "fetch:model" 3 7 twoInFlight = twoInFlight.
Proof.
  intros width.
  destruct (inference_progress_range 3 7 twoInFlight) as (H1 & _ & _ & _ & H5).
  - reflexivity.
  - split; discriminate.
  - split; [exact H1|]. split; [vm_compute; reflexivity|].
    apply H5. reflexivity.
Defined.

End ProgressFacts.

(** ** How many calls are in flight *)

Module SchedFacts.
Import App Page Sched Samples MoreSamples.

Lemma sched_of_obs s s' : sched_obs s' = sched_obs s -> sched_ok s -> sched_ok s'.
Proof. unfold sched_obs, sched_ok. intros [= -> -> ->]. auto. Qed.

Lemma ids_set_pc tid pc s : sched_obs (set_pc tid pc s) = sched_obs s.
Proof.
  unfold sched_obs, ids. destruct s.
  cbn [set_pc set_tasks with_sched tasks loops nextTask]. f_equal. f_equal.
  rewrite map_map. apply map_ext. intros t.
  destruct (Nat.eqb (task_id t) tid) eqn:E; [|reflexivity].
  apply Nat.eqb_eq in E. now subst.
Qed.

Lemma ids_finish tid s :
  sched_obs (finish_task tid s)
  = (List.filter (differs tid) (ids s), loops s, nextTask s).
Proof.
  unfold sched_obs, ids. destruct s.
  cbn [finish_task set_tasks with_sched tasks loops nextTask]. f_equal. f_equal.
  induction tasks0 as [|t ts IH]; [reflexivity|]. simpl. unfold differs at 1.
  destruct (Nat.eqb (task_id t) tid); simpl; now rewrite IH.
Qed.

Lemma filter_length_le {A} (f : A -> bool) l :
  (length (List.filter f l) <= length l)%nat.
Proof. induction l as [|x l IH]; simpl; [lia|]. destruct (f x); simpl; lia. Qed.

Lemma filter_swap {A} (f g : A -> bool) l :
  List.filter f (List.filter g l) = List.filter g (List.filter f l).
Proof.
  induction l as [|x l IH]; [reflexivity|]. simpl.
  destruct (f x) eqn:Ef, (g x) eqn:Eg; simpl; rewrite ?Ef, ?Eg, IH; reflexivity.
Qed.

(** Ending a call keeps the batch in order. *)
Lemma sched_finished tid s s' :
  sched_obs s' = (List.filter (differs tid) (ids s), loops s, nextTask s) ->
  sched_ok s -> sched_ok s'.
Proof.
  unfold sched_obs, sched_ok. intros [= -> -> ->] (Hlt & Hnd & Hl).
  split; [|split].
  - apply List.Forall_forall. intros i [Hi _]%filter_In.
    rewrite List.Forall_forall in Hlt. now apply Hlt.
  - apply NoDup_ListNoDup, List.NoDup_filter, NoDup_ListNoDup, Hnd.
  - destruct (loops s) as [|l [|]]; [| |exact Hl].
    + pose proof (filter_length_le (differs tid) (ids s)). lia.
    + rewrite filter_swap.
      pose proof (filter_length_le (differs tid)
                    (List.filter (differs (loop_awaits l)) (ids s))). lia.
Qed.


Lemma sched_infer t s : sched_obs (processImage_infer t s) = sched_obs s.
Proof.
  unfold processImage_infer. cbv zeta.
  destruct (createObjectURL _ _) as [url s1] eqn:E. injection E as _ <-.
  rewrite ids_set_pc. now destruct s.
Qed.

Lemma sched_obs_finish tid s0 s :
  sched_obs s0 = sched_obs s ->
  sched_obs (finish_task tid s0)
  = (List.filter (differs tid) (ids s), loops s, nextTask s).
Proof.
  intros H. rewrite ids_finish. unfold sched_obs in H.
  now injection H as -> -> ->.
Qed.

Lemma sched_reject t m s :
  sched_obs (processImage_catch t (Nullish m) s)
  = (List.filter (differs (task_id t)) (ids s),
     List.filter (fun l => negb (Nat.eqb (loop_awaits l) (task_id t)))
       (loops s),
     nextTask s).
Proof.
  unfold processImage_catch, processImage_reject. cbv zeta.
  rewrite ids_finish. now destruct s.
Qed.

(** A call that rejects takes the loop that awaits it along. *)
Lemma sched_rejected tid s s' :
  sched_obs s'
  = (List.filter (differs tid) (ids s),
     List.filter (fun l => negb (Nat.eqb (loop_awaits l) tid)) (loops s),
     nextTask s) ->
  sched_ok s -> sched_ok s'.
Proof.
  unfold sched_obs, sched_ok. intros [= -> -> ->] (Hlt & Hnd & Hl).
  split; [|split].
  - apply List.Forall_forall. intros i [Hi _]%filter_In.
    rewrite List.Forall_forall in Hlt. now apply Hlt.
  - apply NoDup_ListNoDup, List.NoDup_filter, NoDup_ListNoDup, Hnd.
  - destruct (loops s) as [|l [|]]; [| |contradiction].
    + pose proof (filter_length_le (differs tid) (ids s)).
      cbn [List.filter]. lia.
    + cbn [List.filter].
      destruct (Nat.eqb (loop_awaits l) tid) eqn:E; cbn [negb].
      * apply Nat.eqb_eq in E. now rewrite <- E.
      * rewrite filter_swap.
        pose proof (filter_length_le (differs tid)
                      (List.filter (differs (loop_awaits l)) (ids s))).
        lia.
Qed.

Lemma sched_catch t e s : sched_ok s -> sched_ok (processImage_catch t e s).
Proof.
  intros H. destruct e as [m|e].
  - eapply sched_rejected; [apply sched_reject | exact H].
  - eapply sched_finished; [|exact H].
    unfold processImage_catch. cbv zeta. apply sched_obs_finish.
    now destruct s.
Qed.

Lemma sched_done t u b s :
  sched_obs (processImage_done t u b s)
  = (List.filter (differs (task_id t)) (ids s), loops s, nextTask s).
Proof.
  unfold processImage_done. cbv zeta.
  destruct (createObjectURL _ _) as [url s1] eqn:E. injection E as _ <-.
  apply sched_obs_finish.
  unfold updateQueue; destruct (_ <=? _)%nat; now destruct s.
Qed.

Lemma find_task_none tid s : find_task tid s = None -> ~ In tid (ids s).
Proof.
  unfold find_task, ids. intros H [t [E Ht]]%in_map_iff.
  apply (find_none _ _ H) in Ht. simpl in Ht.
  rewrite E, Nat.eqb_refl in Ht. discriminate.
Qed.

Lemma filter_differs_absent a l : ~ In a l -> List.filter (differs a) l = l.
Proof.
  induction l as [|x l IH]; intros H; [reflexivity|]. simpl. unfold differs at 1.
  destruct (Nat.eqb x a) eqn:E.
  - apply Nat.eqb_eq in E. subst. exfalso. apply H. now left.
  - simpl. rewrite IH; [reflexivity|]. intros ?. apply H. now right.
Qed.

Lemma sched_started f rest s :
  Forall (fun i => (i < nextTask s)%nat) (ids s) ->
  NoDup (ids s) ->
  (length (ids s) <= 1)%nat ->
  loops s = [] ->
  sched_ok (processRemainingFiles (f :: rest) s).
Proof.
  intros Hlt Hnd Hlen Hl.
  destruct (GateMore.processRemainingFiles_sched f rest s)
    as (pc & Ht & Hl' & Hn & _).
  unfold sched_ok, ids. rewrite Ht, Hl', Hn, Hl, map_app. simpl.
  fold (ids s). rewrite List.Forall_forall in Hlt.
  split; [|split].
  - apply List.Forall_forall. intros i [Hi | [<- | []]]%in_app_or; [|lia].
    specialize (Hlt i Hi). lia.
  - apply NoDup_app. split; [exact Hnd|]. split; [|apply NoDup_singleton].
    intros i Hi Hi'. apply list_elem_of_singleton in Hi'. subst i.
    apply list_elem_of_In in Hi. specialize (Hlt _ Hi). lia.
  - rewrite List.filter_app. simpl. unfold differs at 2.
    rewrite Nat.eqb_refl. simpl. rewrite app_nil_r.
    pose proof (filter_length_le (differs (nextTask s)) (ids s)). lia.
Qed.

Lemma sched_resume tid s : sched_ok s -> sched_ok (loop_resume tid s).
Proof.
  intros H. unfold loop_resume.
  destruct (find_task tid s) eqn:Hf; [exact H|].
  destruct (List.find _ (loops s)) as [l|] eqn:Hfl; [|exact H].
  destruct H as (Hlt & Hnd & Hl).
  destruct (loops s) as [|l0 [|]] eqn:El; [discriminate| |contradiction].
  simpl in Hfl. destruct (Nat.eqb (loop_awaits l0) tid) eqn:E; [|discriminate].
  injection Hfl as <-. apply Nat.eqb_eq in E. simpl. rewrite E, Nat.eqb_refl.
  simpl. rewrite E in Hl.
  rewrite (filter_differs_absent tid (ids s) (find_task_none tid s Hf)) in Hl.
  set (s1 := set_loops [] s).
  assert (E1 : ids s1 = ids s /\ nextTask s1 = nextTask s /\ loops s1 = [])
    by (now destruct s).
  destruct E1 as (Ei & En & El1).
  destruct (loop_rest l0) as [|f rest].
  - simpl. unfold sched_ok. rewrite Ei, En, El1. auto.
  - apply sched_started; rewrite ?Ei, ?En; assumption.
Qed.

Lemma sched_keydown key s : sched_obs (onKeydown key s) = sched_obs s.
Proof.
  destruct (Preservation.onKeydown_cases key s)
    as [-> | (_ & [[_ ->] | [[_ ->] | [-> | ->]]])];
    try reflexivity; PageFacts.read_fields.
Qed.

Lemma sched_step ev s : isUpload ev = false -> sched_ok s -> sched_ok (step ev s).
Proof.
  intros Hev H.
  destruct ev; try discriminate Hev; unfold step;
    try (destruct (isDragging s); [|exact H]);
    try (destruct touches as [|x [|? ?]]; try exact H);
    try (destruct onSlider; [exact H|]);
    try (destruct (find_task tid s) as [[? ? []]|]; try exact H;
         cbn [task_pc]);
    lazymatch goal with
    | |- sched_ok (onKeydown _ _) =>
        eapply sched_of_obs; [apply sched_keydown | exact H]
    | |- sched_ok (processImage_done _ _ _ _) =>
        eapply sched_finished; [apply sched_done | exact H]
    | |- sched_ok (processImage_catch _ _ _) => now apply sched_catch
    | |- sched_ok (processImage_infer _ _) =>
        eapply sched_of_obs; [apply sched_infer | exact H]
    | |- sched_ok (loop_resume _ _) => now apply sched_resume
    | |- sched_ok (set_pc _ _ (initializeModel_loaded _)) =>
        eapply sched_of_obs; [rewrite ids_set_pc; now destruct s | exact H]
    | |- sched_ok (set_pc _ _ _) =>
        eapply sched_of_obs; [apply ids_set_pc | exact H]
    | |- sched_ok (onQueueItemClick ?k _) =>
        unfold onQueueItemClick;
        destruct (queueList (queueContainer s) !! k); [|exact H];
        eapply sched_of_obs; [|exact H]; PageFacts.read_fields
    | |- _ => eapply sched_of_obs; [|exact H]; PageFacts.read_fields
    end.
Qed.

Lemma sched_batch files s :
  tasks s = [] -> loops s = [] -> sched_ok (handleFiles files s).
Proof.
  intros Ht Hl. unfold handleFiles.
  pose proof (GateFacts.filterValid_snd files s) as H2.
  destruct (filterValid files s) as [valid s1]. simpl in H2.
  destruct (GateFacts.showErrors_frame (flat_map rejection files) s)
    as (Ht1 & Hl1 & _). rewrite <- H2, Ht in Ht1. rewrite <- H2, Hl in Hl1.
  clear H2. destruct valid as [|f0 others].
  - unfold sched_ok, ids. rewrite Ht1, Hl1. simpl.
    split; [constructor|]. split; [constructor | lia].
  - destruct (GateFacts.processImage_start_tasks f0 s1) as [pc0 Ht2].
    destruct (GateFacts.processImage_start_frame f0 s1) as (Hl2 & _ & _ & _ & Hn2).
    destruct (processImage_start f0 s1) as [tid s2]. simpl in Ht2, Hl2, Hn2.
    rewrite Ht1 in Ht2. rewrite Hl1 in Hl2. simpl in Ht2.
    assert (Hids : ids s2 = [nextTask s1]) by (unfold ids; now rewrite Ht2).
    destruct others as [|f1 rest].
    + unfold sched_ok. rewrite Hids, Hl2, Hn2. simpl.
      split; [repeat constructor|]. split; [|lia].
      apply NoDup_singleton.
    + apply sched_started; rewrite ?Hids, ?Hn2; simpl;
        try assumption; try lia.
      * repeat constructor.
      * apply NoDup_singleton.
Qed.

Lemma sched_tasks s : sched_ok s -> (length (tasks s) <= 2)%nat.
Proof.
  intros (_ & Hnd & Hl).
  replace (length (tasks s)) with (length (ids s))
    by (unfold ids; apply length_map).
  destruct (loops s) as [|l [|]]; [lia| |contradiction].
  assert (Hsplit : forall a (l : list nat),
            NoDup l ->
            (length l <= length (List.filter (differs a) l) + 1)%nat).
  { intros a l0 Hl0. induction Hl0 as [|x l0 Hx _ IH]; simpl; [lia|].
    unfold differs at 1. destruct (Nat.eqb x a) eqn:E; simpl; [|lia].
    apply Nat.eqb_eq in E. subst x.
    rewrite filter_differs_absent by (now rewrite <- list_elem_of_In). lia. }
  specialize (Hsplit (loop_awaits l) (ids s) Hnd). lia.
Qed.

(** X16. One batch never has more than two [processImage] calls in
    flight: starting from a page with no work pending, after a batch from
    the file picker and any later events other than a new batch, at most
    two calls have not returned, so at most two inference calls overlap. *)
Theorem at_most_two_in_flight files evs s :
  tasks s = [] ->
  loops s = [] ->
  Forall (fun ev => isUpload ev = false) evs ->
  let s' := run evs (step (Change files) s) in
  (length (tasks s') <= 2)%nat
  /\ (length (inferencesInFlight s') <= 2)%nat.
Proof.
  intros Ht Hl Hevs s'.
  assert (H0 : sched_ok (step (Change files) s)).
  { simpl. unfold onChange. destruct files; [|now apply sched_batch].
    unfold sched_ok, ids. rewrite Ht, Hl. simpl.
    split; [constructor|]. split; [constructor | lia]. }
  assert (H : sched_ok s').
  { subst s'. revert H0. generalize (step (Change files) s).
    induction Hevs as [|ev evs Hev _ IH]; intros s0 H0; [exact H0|].
    simpl. now apply IH, sched_step. }
  pose proof (sched_tasks s' H) as Hlen. split; [exact Hlen|].
  unfold inferencesInFlight. rewrite length_map.
  pose proof (filter_length_le
                (fun t => match task_pc t with
                          | AtInference _ => true
                          | _ => false
                          end) (tasks s')). lia.
Qed.

Lemma at_most_two_in_flight_witness :
  let s' := run bothStarted (step (Change [photoA; photoB; photoC]) initial) in
  (length (tasks s') <= 2)%nat
  /\ (length (inferencesInFlight s') <= 2)%nat.
Proof.
  apply (at_most_two_in_flight [photoA; photoB; photoC] bothStarted initial);
    [reflexivity | reflexivity | repeat constructor].
Defined.

End SchedFacts.


(** ** A whole batch, results in order *)

Module BatchFacts.
Import App Page Sched Samples MoreSamples.

Lemma run_app evs evs' s : run (evs ++ evs') s = run evs' (run evs s).
Proof. unfold run. apply fold_left_app. Qed.

Lemma tasks_set_pc tid pc s :
  tasks (set_pc tid pc s) = map (at_pc tid pc) (tasks s).
Proof. now destruct s. Qed.

Lemma tasks_finish tid s :
  tasks (finish_task tid s)
  = List.filter (fun t => negb (Nat.eqb (task_id t) tid)) (tasks s).
Proof. now destruct s. Qed.

Lemma start_spec f s :
  let s' := (processImage_start f s).2 in
  tasks s'
  = tasks s ++ [{| task_id := nextTask s; task_file := f;
                   task_pc := if removeBackgroundFn s then AtInit
                              else AtImport |}]
  /\ (processImage_start f s).1 = nextTask s
  /\ loops s' = loops s
  /\ nextTask s' = S (nextTask s)
  /\ removeBackgroundFn s' = removeBackgroundFn s
  /\ shown s' = shown s.
Proof.
  unfold processImage_start, initializeModel_start.
  destruct s as [fn ? ? ? ? ? ? ? ? ? ? ? ? ? ?]; destruct fn; simpl; auto 10.
Qed.

Lemma remaining_spec f rest s :
  let s' := processRemainingFiles (f :: rest) s in
  tasks s'
  = tasks s ++ [{| task_id := nextTask s; task_file := f;
                   task_pc := if removeBackgroundFn s then AtInit
                              else AtImport |}]
  /\ loops s' = loops s ++ [{| loop_awaits := nextTask s; loop_rest := rest |}]
  /\ nextTask s' = S (nextTask s)
  /\ removeBackgroundFn s' = removeBackgroundFn s
  /\ shown s' = shown s.
Proof.
  unfold processRemainingFiles.
  destruct (start_spec f s) as (Ht & Hi & Hl & Hn & Hf & Hs).
  destruct (processImage_start f s) as [tid s1]. simpl in Ht, Hi, Hl, Hn, Hf, Hs.
  subst tid. rewrite <- Ht, <- Hl, <- Hn, <- Hf, <- Hs. now destruct s1.
Qed.

Lemma import_spec tid t s :
  find_task tid s = Some t ->
  task_pc t = AtImport ->
  let s' := step (ImportResolved tid) s in
  tasks s' = map (at_pc tid AtInit) (tasks s)
  /\ removeBackgroundFn s' = true
  /\ held s' = held s /\ shown s' = shown s.
Proof.
  intros Hf Hpc. unfold step. rewrite Hf. destruct t as [? ? pc].
  simpl in Hpc. subst pc. rewrite tasks_set_pc. now destruct s.
Qed.

Lemma import_late tid t s :
  find_task tid s = Some t ->
  task_pc t = AtInit ->
  step (ImportResolved tid) s = s.
Proof.
  intros Hf Hpc. unfold step. rewrite Hf. destruct t as [? ? pc].
  simpl in Hpc. now subst pc.
Qed.

Lemma init_spec tid t s :
  find_task tid s = Some t ->
  task_pc t = AtInit ->
  let s' := step (InitSettled tid) s in
  (exists u, tasks s' = map (at_pc tid (AtInference u)) (tasks s))
  /\ removeBackgroundFn s' = removeBackgroundFn s
  /\ held s' = held s /\ shown s' = shown s.
Proof.
  intros Hf Hpc. unfold step. rewrite Hf, Hpc.
  rewrite <- (PipelineFacts.find_task_id _ _ _ Hf).
  unfold processImage_infer, createObjectURL. cbv zeta.
  split; [eexists; rewrite tasks_set_pc; now destruct s|].
  now destruct s.
Qed.

Lemma done_spec tid t u b s :
  find_task tid s = Some t ->
  task_pc t = AtInference u ->
  let s' := step (InferenceResolved tid b) s in
  tasks s' = List.filter (fun t => negb (Nat.eqb (task_id t) tid)) (tasks s)
  /\ removeBackgroundFn s' = removeBackgroundFn s
  /\ held s' = held s
  /\ names s' = names s ++ [(Naming.nobgName (file_name (task_file t)), b)]
  /\ cursor_last s'.
Proof.
  intros Hf Hpc. unfold step. rewrite Hf, Hpc.
  rewrite <- (PipelineFacts.find_task_id _ _ _ Hf).
  unfold processImage_done, createObjectURL. cbv zeta.
  rewrite tasks_finish. unfold names, cursor_last, updateQueue.
  destruct (_ <=? _)%nat; destruct s; simpl;
    rewrite ?map_app; auto 10.
Qed.

Lemma resume_next n f rest s :
  between n (f :: rest) s ->
  let s' := step (ProcessImageSettled (pred n)) s in
  tasks s' = [{| task_id := n; task_file := f; task_pc := AtInit |}]
  /\ between (S n) rest (finish_task n s')
  /\ shown s' = shown s.
Proof.
  intros (Ht & Hl & Hn & Hfn). unfold step, loop_resume, find_task.
  rewrite Ht, Hl. cbn [List.find List.filter loop_awaits loop_rest negb].
  rewrite Nat.eqb_refl. cbn [negb loop_rest].
  assert (E : tasks (set_loops [] s) = [] /\ loops (set_loops [] s) = []
              /\ nextTask (set_loops [] s) = n
              /\ removeBackgroundFn (set_loops [] s) = true
              /\ shown (set_loops [] s) = shown s).
  { rewrite <- Ht, <- Hn, <- Hfn. now destruct s. }
  destruct E as (Et & El & En & Ef & Es).
  destruct (remaining_spec f rest (set_loops [] s)) as (Ht' & Hl' & Hn' & Hf' & Hs').
  rewrite Et, En, Ef in Ht'. rewrite El, En in Hl'. rewrite En in Hn'.
  rewrite Ef in Hf'. rewrite Es in Hs'. cbn [app] in Ht', Hl'.
  split; [exact Ht'|]. split; [|exact Hs'].
  set (s' := processRemainingFiles (f :: rest) (set_loops [] s)) in *.
  assert (E : loops (finish_task n s') = loops s'
              /\ nextTask (finish_task n s') = nextTask s'
              /\ removeBackgroundFn (finish_task n s') = removeBackgroundFn s')
    by (now destruct s').
  destruct E as (E1 & E2 & E3).
  unfold between. rewrite tasks_finish, Ht', E1, E2, E3, Hl', Hn', Hf'.
  cbn [List.filter task_id pred]. rewrite Nat.eqb_refl. auto.
Qed.

Lemma resume_end n s :
  between n [] s ->
  let s' := step (ProcessImageSettled (pred n)) s in
  tasks s' = [] /\ loops s' = [] /\ shown s' = shown s.
Proof.
  intros (Ht & Hl & Hn & Hfn). unfold step, loop_resume, find_task.
  rewrite Ht, Hl. cbn [List.find List.filter loop_awaits loop_rest negb].
  rewrite Nat.eqb_refl. cbn [negb loop_rest processRemainingFiles].
  rewrite <- Ht. now destruct s.
Qed.

Lemma names_shown s s' : shown s' = shown s -> names s' = names s.
Proof. unfold shown, names. now intros [= -> _]. Qed.

Lemma cursor_shown s s' : shown s' = shown s -> cursor_last s -> cursor_last s'.
Proof. unfold shown, cursor_last. now intros [= -> ->]. Qed.

(** One more file of the batch: the loop resumes, the call passes
    [initializeModel] and its inference resolves. *)
Lemma one_more n f rest b s :
  between n (f :: rest) s ->
  let s' := run [ProcessImageSettled (pred n); InitSettled n;
                 InferenceResolved n b] s in
  between (S n) rest s'
  /\ names s' = names s ++ [(Naming.nobgName (file_name f), b)]
  /\ cursor_last s'.
Proof.
  intros H s'. subst s'. rewrite !PipelineFacts.run_cons.
  destruct (resume_next n f rest s H) as (Ht1 & Hb1 & Hs1).
  set (s1 := step (ProcessImageSettled (pred n)) s) in *.
  assert (Hf1 : find_task n s1
                = Some {| task_id := n; task_file := f; task_pc := AtInit |}).
  { unfold find_task. rewrite Ht1. simpl. now rewrite Nat.eqb_refl. }
  destruct (init_spec n _ s1 Hf1 eq_refl) as ([u Ht2] & Hfn2 & Hh2 & Hs2).
  set (s2 := step (InitSettled n) s1) in *.
  rewrite Ht1 in Ht2. simpl in Ht2. unfold at_pc in Ht2. simpl in Ht2.
  rewrite Nat.eqb_refl in Ht2.
  assert (Hf2 : find_task n s2
                = Some {| task_id := n; task_file := f;
                          task_pc := AtInference u |}).
  { unfold find_task. rewrite Ht2. simpl. now rewrite Nat.eqb_refl. }
  destruct (done_spec n _ u b s2 Hf2 eq_refl) as (Ht3 & Hfn3 & Hh3 & Hn3 & Hc3).
  set (s3 := step (InferenceResolved n b) s2) in *.
  rewrite Ht2 in Ht3. simpl in Ht3. rewrite Nat.eqb_refl in Ht3. simpl in Ht3.
  unfold run. simpl fold_left. split; [|split]; [| |exact Hc3].
  - destruct Hb1 as (_ & Hl1 & Hn1 & Hfn1).
    assert (E : loops (finish_task n s1) = loops s1
                /\ nextTask (finish_task n s1) = nextTask s1
                /\ removeBackgroundFn (finish_task n s1) = removeBackgroundFn s1)
      by (now destruct s1).
    destruct E as (E1 & E2 & E3). rewrite E1 in Hl1. rewrite E2 in Hn1.
    rewrite E3 in Hfn1. unfold held in Hh2, Hh3.
    injection Hh2 as Hl2 Hn2. injection Hh3 as Hl3 Hn3'.
    unfold between. rewrite Ht3, Hl3, Hl2, Hn3', Hn2, Hfn3, Hfn2. auto.
  - rewrite Hn3. simpl. f_equal. rewrite (names_shown _ _ Hs2).
    apply names_shown, Hs1.
Qed.

Lemma later_files n rest : forall bs s,
  length bs = length rest ->
  between n rest s ->
  (processedImages s <> [] -> cursor_last s) ->
  let s' := run (laterEvents n bs
                 ++ [ProcessImageSettled (pred (n + length bs))]) s in
  names s' = names s ++ map stored (combine rest bs)
  /\ (processedImages s <> [] -> cursor_last s')
  /\ tasks s' = [] /\ loops s' = [].
Proof.
  revert n. induction rest as [|f rest IH]; intros n [|b bs] s Hlen Hb Hc;
    try discriminate Hlen.
  - cbv zeta. cbn [laterEvents app length].
    rewrite Nat.add_0_r, PipelineFacts.run_cons. cbn [run fold_left combine map].
    destruct (resume_end n s Hb) as (Ht & Hl & Hs).
    rewrite (names_shown _ _ Hs), app_nil_r. repeat split; try assumption.
    intros Hne. apply (cursor_shown _ _ Hs), Hc, Hne.
  - injection Hlen as Hlen. cbv zeta. cbn [laterEvents app].
    rewrite (run_app [ProcessImageSettled (pred n); InitSettled n;
                      InferenceResolved n b]
               (laterEvents (S n) bs
                ++ [ProcessImageSettled (pred (n + length (b :: bs)))]) s
             : run (ProcessImageSettled (pred n) :: InitSettled n
                    :: InferenceResolved n b :: _) s = _).
    destruct (one_more n f rest b s Hb) as (Hb' & Hn' & Hc').
    set (s1 := run _ s) in *.
    replace (n + length (b :: bs))%nat with (S n + length bs)%nat
      by (simpl; lia).
    destruct (IH (S n) bs s1 Hlen Hb' (fun _ => Hc')) as (Hn2 & Hc2 & Ht2 & Hl2).
    split; [|split; [|split]]; try assumption.
    + rewrite Hn2, Hn', <- app_assoc. reflexivity.
    + intros _. apply Hc2. intros E. unfold names in Hn'. rewrite E in Hn'.
      simpl in Hn'. symmetry in Hn'. now apply app_eq_nil in Hn' as [_ ?].
Qed.

Lemma showErrors_function msgs s :
  removeBackgroundFn (fold_left (fun s m => showError m s) msgs s)
  = removeBackgroundFn s.
Proof.
  revert s. induction msgs as [|m msgs IH]; intros s; [reflexivity|].
  simpl. rewrite IH. now destruct s.
Qed.

Lemma batch_started files f0 f1 rest s :
  List.filter allowed files = f0 :: f1 :: rest ->
  tasks s = [] -> loops s = [] -> nextTask s = 0%nat ->
  let s' := step (Change files) s in
  let pc := if removeBackgroundFn s then AtInit else AtImport in
  tasks s' = [{| task_id := 0; task_file := f0; task_pc := pc |};
              {| task_id := 1; task_file := f1; task_pc := pc |}]
  /\ held s' = ([{| loop_awaits := 1; loop_rest := rest |}], 2%nat)
  /\ removeBackgroundFn s' = removeBackgroundFn s
  /\ shown s' = shown s.
Proof.
  intros Hv Ht Hl Hn s' pc.
  assert (Hstep : s' = handleFiles files s).
  { subst s'. destruct files; [discriminate Hv | reflexivity]. }
  rewrite Hstep. unfold handleFiles.
  pose proof (GateFacts.filterValid_fst files s) as H1.
  pose proof (GateFacts.filterValid_snd files s) as H2.
  destruct (filterValid files s) as [valid s1]. simpl in H1, H2.
  rewrite Hv in H1. subst valid.
  destruct (GateFacts.showErrors_frame (flat_map rejection files) s)
    as (Ht1 & Hl1 & Hc1 & Hn1 & _).
  pose proof (showErrors_function (flat_map rejection files) s) as Hf1.
  rewrite <- H2 in Ht1, Hl1, Hc1, Hn1, Hf1. clear H2.
  rewrite Ht in Ht1. rewrite Hl in Hl1. rewrite Hn in Hn1.
  assert (Hs1 : shown s1 = shown s).
  { unfold core in Hc1. unfold shown. now injection Hc1 as -> -> _. }
  destruct (start_spec f0 s1) as (Ht2 & _ & Hl2 & Hn2 & Hf2 & Hs2).
  destruct (processImage_start f0 s1) as [tid s2].
  cbn [snd] in Ht2, Hl2, Hn2, Hf2, Hs2.
  rewrite Ht1, Hn1, Hf1 in Ht2. rewrite Hl1 in Hl2. rewrite Hn1 in Hn2.
  rewrite Hf1 in Hf2. rewrite Hs1 in Hs2. cbn [app] in Ht2.
  destruct (remaining_spec f1 rest s2) as (Ht3 & Hl3 & Hn3 & Hf3 & Hs3).
  rewrite Ht2, Hn2, Hf2 in Ht3. rewrite Hl2, Hn2 in Hl3. rewrite Hn2 in Hn3.
  rewrite Hf2 in Hf3. rewrite Hs2 in Hs3. cbn [app] in Ht3, Hl3.
  unfold held. rewrite Hl3, Hn3. auto.
Qed.

Ltac tasks_in H :=
  cbn [map at_pc task_id task_file Nat.eqb List.filter negb] in H.

Lemma imports_settled f0 f1 s :
  (let pc := if removeBackgroundFn s then AtInit else AtImport in
   tasks s = [{| task_id := 0; task_file := f0; task_pc := pc |};
              {| task_id := 1; task_file := f1; task_pc := pc |}]) ->
  let s' := run [ImportResolved 0; ImportResolved 1] s in
  tasks s' = [{| task_id := 0; task_file := f0; task_pc := AtInit |};
              {| task_id := 1; task_file := f1; task_pc := AtInit |}]
  /\ removeBackgroundFn s' = true
  /\ held s' = held s /\ shown s' = shown s.
Proof.
  intros Ht s'. subst s'. rewrite !PipelineFacts.run_cons.
  cbn [run fold_left]. cbv zeta in Ht.
  destruct (removeBackgroundFn s) eqn:Hfn.
  - assert (H0 : find_task 0 s
                 = Some {| task_id := 0; task_file := f0; task_pc := AtInit |})
      by (unfold find_task; now rewrite Ht).
    rewrite (import_late 0 _ s H0 eq_refl).
    assert (H1 : find_task 1 s
                 = Some {| task_id := 1; task_file := f1; task_pc := AtInit |})
      by (unfold find_task; now rewrite Ht).
    rewrite (import_late 1 _ s H1 eq_refl). auto.
  - assert (H0 : find_task 0 s
                 = Some {| task_id := 0; task_file := f0; task_pc := AtImport |})
      by (unfold find_task; now rewrite Ht).
    destruct (import_spec 0 _ s H0 eq_refl) as (Ht1 & Hf1 & Hh1 & Hs1).
    set (s1 := step (ImportResolved 0) s) in *.
    rewrite Ht in Ht1. tasks_in Ht1.
    assert (H1 : find_task 1 s1
                 = Some {| task_id := 1; task_file := f1; task_pc := AtImport |})
      by (unfold find_task; now rewrite Ht1).
    destruct (import_spec 1 _ s1 H1 eq_refl) as (Ht2 & Hf2 & Hh2 & Hs2).
    rewrite Ht1 in Ht2. tasks_in Ht2.
    rewrite Ht2, Hf2, Hh2, Hh1, Hs2, Hs1. auto.
Qed.

Lemma first_two f0 f1 b0 b1 rest s :
  tasks s = [{| task_id := 0; task_file := f0; task_pc := AtInit |};
             {| task_id := 1; task_file := f1; task_pc := AtInit |}] ->
  held s = ([{| loop_awaits := 1; loop_rest := rest |}], 2%nat) ->
  removeBackgroundFn s = true ->
  let s' := run [InitSettled 0; InitSettled 1;
                 InferenceResolved 0 b0; InferenceResolved 1 b1] s in
  between 2 rest s'
  /\ names s' = names s ++ [(Naming.nobgName (file_name f0), b0);
                            (Naming.nobgName (file_name f1), b1)]
  /\ cursor_last s'.
Proof.
  intros Ht Hh Hfn s'. subst s'. rewrite !PipelineFacts.run_cons.
  cbn [run fold_left].
  assert (H0 : find_task 0 s
               = Some {| task_id := 0; task_file := f0; task_pc := AtInit |})
    by (unfold find_task; now rewrite Ht).
  destruct (init_spec 0 _ s H0 eq_refl) as ([u0 Ht1] & Hf1 & Hh1 & Hs1).
  set (s1 := step (InitSettled 0) s) in *.
  rewrite Ht in Ht1. tasks_in Ht1.
  assert (H1 : find_task 1 s1
               = Some {| task_id := 1; task_file := f1; task_pc := AtInit |})
    by (unfold find_task; now rewrite Ht1).
  destruct (init_spec 1 _ s1 H1 eq_refl) as ([u1 Ht2] & Hf2 & Hh2 & Hs2).
  set (s2 := step (InitSettled 1) s1) in *.
  rewrite Ht1 in Ht2. tasks_in Ht2.
  assert (H2 : find_task 0 s2
               = Some {| task_id := 0; task_file := f0;
                         task_pc := AtInference u0 |})
    by (unfold find_task; now rewrite Ht2).
  destruct (done_spec 0 _ u0 b0 s2 H2 eq_refl) as (Ht3 & Hf3 & Hh3 & Hn3 & _).
  set (s3 := step (InferenceResolved 0 b0) s2) in *.
  rewrite Ht2 in Ht3. tasks_in Ht3.
  assert (H3 : find_task 1 s3
               = Some {| task_id := 1; task_file := f1;
                         task_pc := AtInference u1 |})
    by (unfold find_task; now rewrite Ht3).
  destruct (done_spec 1 _ u1 b1 s3 H3 eq_refl) as (Ht4 & Hf4 & Hh4 & Hn4 & Hc4).
  set (s4 := step (InferenceResolved 1 b1) s3) in *.
  rewrite Ht3 in Ht4. tasks_in Ht4.
  split; [|split]; [| |exact Hc4].
  - rewrite Hh3, Hh2, Hh1, Hh in Hh4. unfold held in Hh4.
    injection Hh4 as Hl4 Hn4'.
    unfold between. rewrite Ht4, Hl4, Hn4', Hf4, Hf3, Hf2, Hf1. auto.
  - rewrite Hn4, Hn3, (names_shown _ _ Hs2), (names_shown _ _ Hs1).
    cbn [task_file]. now rewrite <- app_assoc.
Qed.

(** X17. A whole batch whose results arrive in the order of submission:
    the valid files of a batch chosen on a page with no work begun are
    all processed, the queue gains one record per valid file, in the order
    of the files, each with the derived file name and the result of its
    own file, the cursor ends on the last one and nothing is left in
    flight. *)
Theorem batch_in_order files f0 f1 rest b0 b1 bs s :
  List.filter allowed files = f0 :: f1 :: rest ->
  length bs = length rest ->
  tasks s = [] ->
  loops s = [] ->
  nextTask s = 0%nat ->
  let s' := run (inOrder files b0 b1 bs) s in
  names s'
  = names s ++ map stored (combine (f0 :: f1 :: rest) (b0 :: b1 :: bs))
  /\ cursor_last s'
  /\ tasks s' = []
  /\ loops s' = [].
Proof.
  intros Hv Hlen Ht Hl Hn s'. subst s'. unfold inOrder.
  rewrite PipelineFacts.run_cons.
  destruct (batch_started files f0 f1 rest s Hv Ht Hl Hn)
    as (Ht1 & Hh1 & Hf1 & Hs1).
  set (s1 := step (Change files) s) in *.
  rewrite (run_app [ImportResolved 0; ImportResolved 1]
             ([InitSettled 0; InitSettled 1; InferenceResolved 0 b0;
               InferenceResolved 1 b1]
              ++ laterEvents 2 bs ++ [ProcessImageSettled (S (length bs))]) s1
           : run ([ImportResolved 0; ImportResolved 1; InitSettled 0;
                   InitSettled 1; InferenceResolved 0 b0;
                   InferenceResolved 1 b1] ++ _) s1 = _).
  rewrite <- Hf1 in Ht1.
  destruct (imports_settled f0 f1 s1 Ht1) as (Ht2 & Hf2 & Hh2 & Hs2).
  set (s2 := run [ImportResolved 0; ImportResolved 1] s1) in *.
  rewrite run_app. rewrite Hh1 in Hh2.
  destruct (first_two f0 f1 b0 b1 rest s2 Ht2 Hh2 Hf2) as (Hb3 & Hn3 & Hc3).
  set (s3 := run [InitSettled 0; InitSettled 1; InferenceResolved 0 b0;
                  InferenceResolved 1 b1] s2) in *.
  destruct (later_files 2 rest bs s3 Hlen Hb3 (fun _ => Hc3))
    as (Hn4 & Hc4 & Ht4 & Hl4).
  cbn [Nat.add pred] in Hn4, Hc4, Ht4, Hl4.
  split; [|split; [|split]]; try assumption.
  - rewrite Hn4, Hn3, (names_shown _ _ Hs2), (names_shown _ _ Hs1).
    cbn [combine map]. now rewrite <- app_assoc.
  - apply Hc4. intros E. unfold names in Hn3. rewrite E in Hn3.
    symmetry in Hn3. now apply app_eq_nil in Hn3 as [_ ?].
Qed.

Lemma batch_in_order_witness :
  let s' := run (inOrder [photoA; pdf; photoB; png12; photoC] [] [] [[]])
              initial in
  names s'
  = names initial
    ++ map stored (combine [photoA; photoB; photoC] [[]; []; []])
  /\ cursor_last s'
  /\ tasks s' = []
  /\ loops s' = [].
Proof.
  apply (batch_in_order [photoA; pdf; photoB; png12; photoC]
           photoA photoB [photoC] [] [] [[]] initial);
    reflexivity.
Defined.

End BatchFacts.


(** ** The download script: chunks, counters and the disk *)

Module DiskFacts.
Import Fetcher Disk Samples MoreSamples.

(** *** The set of chunks *)

Lemma set_add_In x h s : In x (set_add h s) <-> x = h \/ In x s.
Proof.
  unfold set_add. case_bool_decide as Hin.
  - apply list_elem_of_In in Hin. split; [auto|]. now intros [-> | ?].
  - rewrite in_app_iff. simpl. intuition congruence.
Qed.

Lemma add_chunks_In x cs acc :
  In x (fold_left (fun acc chunk => set_add (hash chunk) acc) cs acc)
  <-> In x acc \/ exists chunk, In chunk cs /\ hash chunk = x.
Proof.
  revert acc. induction cs as [|c cs IH]; intros acc; simpl.
  - split; [auto | intros [? | (? & [] & _)]; assumption].
  - rewrite IH, set_add_In. split.
    + intros [[-> | H] | (chunk & Hc & E)]; eauto 6.
    + intros [H | (chunk & [<- | Hc] & E)]; eauto 6.
Qed.

Lemma fold_chunks_In x resources acc :
  In x (fold_left
          (fun acc '(_, resource) =>
             match chunks resource with
             | Some cs =>
                 fold_left (fun acc chunk => set_add (hash chunk) acc) cs acc
             | None => acc
             end) resources acc)
  <-> In x acc \/ listed resources x.
Proof.
  revert acc. induction resources as [|[path resource] rs IH]; intros acc;
    simpl.
  - split; [auto | intros [? | (? & ? & ? & ? & [] & _)]; assumption].
  - rewrite IH. unfold listed. split.
    + intros [H | (p & r & cs & chunk & Hin & Hcs & Hc & E)].
      * destruct (chunks resource) as [cs|] eqn:Hcs; [|now left].
        apply add_chunks_In in H as [H | (chunk & Hc & E)]; [now left|].
        right. exists path, resource, cs, chunk. simpl. auto.
      * right. exists p, r, cs, chunk. simpl. auto.
    + intros [H | (p & r & cs & chunk & [[= -> ->] | Hin] & Hcs & Hc & E)].
      * left. destruct (chunks resource); [|exact H].
        apply add_chunks_In. now left.
      * left. rewrite Hcs. apply add_chunks_In. eauto.
      * right. exists p, r, cs, chunk. auto.
Qed.

(** X18. The set of chunks is the union of the chunk lists of the
    manifest: it holds a hash exactly when some resource lists a chunk with
    that hash, and it holds it once, however many resources share it. *)
Theorem allChunks_is_union resources :
  NoDup (allChunks resources)
  /\ forall h, In h (allChunks resources) <-> listed resources h.
Proof.
  split; [apply FetcherFacts.allChunks_NoDup|].
  intros h. unfold allChunks. rewrite fold_chunks_In. simpl. tauto.
Qed.

(** *** The chunk loop, exactly *)

Lemma bodyOf_succeeds env url :
  fetchFails env url = false ->
  exists r, fetch env url = Fulfilled r /\ ok r = true
            /\ bodyOf env url = Some (body r).
Proof.
  unfold fetchFails, bodyOf. destruct (fetch env url) as [|r]; [discriminate|].
  destruct (ok r) eqn:E; [eauto | discriminate].
Qed.

Lemma bodyOf_fails env url : fetchFails env url = true -> bodyOf env url = None.
Proof.
  unfold fetchFails, bodyOf. destruct (fetch env url) as [|r]; [reflexivity|].
  now destruct (ok r).
Qed.

Lemma chunkStep_exists env baseUrl h c w :
  existsSync (chunkPath env h) w = true ->
  chunkStep env baseUrl h (c, w)
  = ({| downloaded := downloaded c; skipped := S (skipped c);
        failed := failed c; totalBytes := totalBytes c |},
     log (ChunkExists (hash16 h)) w).
Proof. unfold chunkStep. now intros ->. Qed.

Lemma chunkStep_fails env baseUrl h c w :
  existsSync (chunkPath env h) w = false ->
  fetchFails env (chunkUrl baseUrl h) = true ->
  exists msg,
    chunkStep env baseUrl h (c, w)
    = ({| downloaded := downloaded c; skipped := skipped c;
          failed := S (failed c); totalBytes := totalBytes c |},
       log (ChunkFailed (hash16 h) msg) (fetchedMore (chunkUrl baseUrl h) w)).
Proof.
  intros Hex Hfail. unfold chunkStep. rewrite Hex.
  destruct (FetcherFacts.downloadFile_fails env _ (chunkPath env h) w Hfail)
    as [msg ->].
  eauto.
Qed.

Lemma chunkStep_succeeds env baseUrl h c w :
  existsSync (chunkPath env h) w = false ->
  fetchFails env (chunkUrl baseUrl h) = false ->
  exists b,
    bodyOf env (chunkUrl baseUrl h) = Some b
    /\ chunkStep env baseUrl h (c, w)
       = ({| downloaded := S (downloaded c); skipped := skipped c;
             failed := failed c;
             totalBytes := (totalBytes c + byteLength b)%Z |},
          log (ChunkOk (hash16 h) (byteLength b))
            {| files := <[chunkPath env h := b]> (files w);
               console := console w;
               fetched := fetched w ++ [chunkUrl baseUrl h] |}).
Proof.
  intros Hex Hfail. unfold chunkStep. rewrite Hex.
  destruct (bodyOf_succeeds env _ Hfail) as (r & Hr & Hok & Hb).
  exists (body r). split; [exact Hb|].
  unfold downloadFile. now rewrite Hr, Hok.
Qed.

Lemma present_files env w w' hashes :
  files w = files w' -> present env w hashes = present env w' hashes.
Proof. unfold present, existsSync. now intros ->. Qed.

Lemma present_insert env w w' h b hashes :
  files w' = <[chunkPath env h := b]> (files w) ->
  ~ In h hashes ->
  present env w' hashes = present env w hashes.
Proof.
  intros Hf Hh. unfold present. apply filter_ext_in. intros h' Hin.
  unfold existsSync. rewrite Hf, lookup_insert_ne; [reflexivity|].
  intros E. apply FetcherFacts.chunkPath_inj in E. now subst.
Qed.

Lemma existsSync_false p w : existsSync p w = false -> files w !! p = None.
Proof.
  unfold existsSync. intros H. apply bool_decide_eq_false in H.
  destruct (files w !! p) eqn:E; [|reflexivity]. exfalso. apply H. eauto.
Qed.

Lemma existsSync_true p w :
  existsSync p w = true <-> exists b, files w !! p = Some b.
Proof. unfold existsSync. rewrite bool_decide_eq_true. reflexivity. Qed.

(** A file that is on disk stays as it is through the chunk loop. *)
Lemma chunkLoop_keeps env baseUrl hashes p b : forall c w,
  files w !! p = Some b ->
  files (chunkLoop env baseUrl hashes (c, w)).2 !! p = Some b.
Proof.
  induction hashes as [|h rest IH]; intros c w Hp; [exact Hp|].
  rewrite FetcherFacts.chunkLoop_cons.
  destruct (existsSync (chunkPath env h) w) eqn:Hex.
  - rewrite (chunkStep_exists _ _ _ _ _ Hex). now apply IH.
  - destruct (fetchFails env (chunkUrl baseUrl h)) eqn:Hfail.
    + destruct (chunkStep_fails _ _ _ c _ Hex Hfail) as [msg ->]. now apply IH.
    + destruct (chunkStep_succeeds _ _ _ c _ Hex Hfail) as (b' & _ & ->).
      apply IH. cbn [files log]. rewrite lookup_insert_ne; [exact Hp|].
      intros <-. apply existsSync_false in Hex. congruence.
Qed.

Lemma chunkLoop_exact env baseUrl hashes :
  NoDup hashes ->
  forall c w,
    let c' := (chunkLoop env baseUrl hashes (c, w)).1 in
    let w' := (chunkLoop env baseUrl hashes (c, w)).2 in
    let oks := succeeding env baseUrl (missing env w hashes) in
    downloaded c' = (downloaded c + length oks)%nat
    /\ skipped c' = (skipped c + length (present env w hashes))%nat
    /\ totalBytes c'
       = (totalBytes c
          + total (map (fun h => sizeOf env (chunkUrl baseUrl h)) oks))%Z
    /\ (forall h, In h oks ->
          files w' !! chunkPath env h = bodyOf env (chunkUrl baseUrl h))
    /\ (forall p, (forall h, In h oks -> p <> chunkPath env h) ->
          files w' !! p = files w !! p).
Proof.
  induction 1 as [|h rest Hh Hrest IH]; intros c w.
  - cbn. rewrite !Nat.add_0_r, Z.add_0_r. repeat split; auto. intros h [].
  - assert (Hnot : ~ In h rest) by (now rewrite <- list_elem_of_In).
    cbv zeta. rewrite FetcherFacts.chunkLoop_cons, FetcherFacts.missing_cons.
    unfold present. cbn [List.filter]. fold (present env w rest).
    destruct (existsSync (chunkPath env h) w) eqn:Hex.
    + rewrite (chunkStep_exists _ _ _ _ _ Hex).
      match goal with
      | |- context [chunkLoop _ _ _ (?c1, ?w1)] =>
          destruct (IH c1 w1) as (Hd & Hs & Hb & Hin & Hout);
          rewrite (FetcherFacts.missing_files env w1 w rest eq_refl)
            in Hd, Hb, Hin, Hout;
          rewrite (present_files env w1 w rest eq_refl) in Hs
      end.
      cbn [downloaded skipped totalBytes log files length] in *.
      split; [exact Hd|]. split; [lia|]. auto.
    + destruct (fetchFails env (chunkUrl baseUrl h)) eqn:Hfail.
      * destruct (chunkStep_fails _ _ _ c _ Hex Hfail) as [msg ->].
        match goal with
        | |- context [chunkLoop _ _ _ (?c1, ?w1)] =>
            destruct (IH c1 w1) as (Hd & Hs & Hb & Hin & Hout);
            rewrite (FetcherFacts.missing_files env w1 w rest eq_refl)
              in Hd, Hb, Hin, Hout;
            rewrite (present_files env w1 w rest eq_refl) in Hs
        end.
        unfold succeeding. cbn [List.filter]. rewrite Hfail. cbn [negb].
        fold (succeeding env baseUrl (missing env w rest)).
        cbn [downloaded skipped totalBytes log files fetchedMore] in *.
        auto.
      * destruct (chunkStep_succeeds _ _ _ c _ Hex Hfail) as (b & Hbody & ->).
        match goal with
        | |- context [chunkLoop _ _ _ (?c1, ?w1)] =>
            destruct (IH c1 w1) as (Hd & Hs & Hb & Hin & Hout);
            rewrite (FetcherFacts.missing_insert env w w1 h b rest eq_refl Hnot)
              in Hd, Hb, Hin, Hout;
            rewrite (present_insert env w w1 h b rest eq_refl Hnot) in Hs
        end.
        unfold succeeding. cbn [List.filter]. rewrite Hfail. cbn [negb].
        fold (succeeding env baseUrl (missing env w rest)).
        cbn [downloaded skipped totalBytes log files length map total
             fold_right] in *.
        fold (total (map (fun h => sizeOf env (chunkUrl baseUrl h))
                       (succeeding env baseUrl (missing env w rest)))).
        assert (Hfresh : forall h', In h' (succeeding env baseUrl
                                             (missing env w rest)) ->
                                    chunkPath env h <> chunkPath env h').
        { intros h' Hh' E. apply FetcherFacts.chunkPath_inj in E. subst h'.
          apply Hnot. unfold succeeding, missing in Hh'.
          now apply filter_In in Hh' as [[? _]%filter_In _]. }
        split; [lia|]. split; [exact Hs|]. split.
        { unfold sizeOf at 1. rewrite Hbody. lia. }
        split.
        { intros h' [<- | Hh']; [|now apply Hin].
          rewrite (Hout _ Hfresh), lookup_insert_eq. now rewrite Hbody. }
        { intros p Hp. rewrite Hout by (intros h' Hh'; apply Hp; now right).
          apply lookup_insert_ne. intros E. apply (Hp h); [now left | now rewrite E]. }
Qed.

(** *** The whole run *)

Lemma report_files c w : files (report c w) = files w.
Proof. unfold report. now destruct (0 <? failed c)%nat. Qed.

(** X19. What the summary counts: a run that gets its manifest counts as
    downloaded exactly the chunks that were not on disk and whose download
    succeeds, as skipped exactly the chunks that were on disk, and its
    total size is the sum of the sizes of the downloaded chunks. *)
Theorem counters_exact env w version r resources :
  packageVersion env = Some version ->
  fetch env (chunkUrl (getBaseUrl version) "resources.json") = Fulfilled r ->
  ok r = true ->
  json (body r) = Some resources ->
  let baseUrl := getBaseUrl version in
  let hashes := allChunks resources in
  let w1 := withManifest env (chunkUrl baseUrl "resources.json") (body r) w in
  let oks := succeeding env baseUrl (missing env w1 hashes) in
  exists c,
    counters (main env w) = Some c
    /\ downloaded c = length oks
    /\ skipped c = length (present env w1 hashes)
    /\ totalBytes c
       = total (map (fun h => sizeOf env (chunkUrl baseUrl h)) oks).
Proof.
  intros Hv Hfetch Hok Hjson baseUrl hashes w1 oks.
  destruct (FetcherFacts.main_with_manifest env w version r resources
              Hv Hfetch Hok Hjson) as (w0 & Hfiles & _ & ->).
  fold baseUrl hashes. cbn [counters]. eexists. split; [reflexivity|].
  destruct (chunkLoop_exact env baseUrl hashes
              (FetcherFacts.allChunks_NoDup resources) noCounters w0)
    as (Hd & Hs & Hb & _).
  fold baseUrl w1 in Hfiles.
  rewrite (FetcherFacts.missing_files env w0 w1 hashes Hfiles) in Hd, Hb.
  rewrite (present_files env w0 w1 hashes Hfiles) in Hs.
  fold oks in Hd, Hb. cbn [noCounters downloaded skipped totalBytes] in Hd, Hs, Hb.
  rewrite Hd, Hs, Hb. auto.
Qed.

Lemma counters_exact_witness :
  exists c,
    counters (main online stocked) = Some c
    /\ downloaded c = 1%nat
    /\ skipped c = 1%nat
    /\ totalBytes c = 1024%Z.
Proof.
  destruct (counters_exact online stocked "1.4.5" _ manifest
              eq_refl eq_refl eq_refl eq_refl) as (c & Hc & Hd & Hs & Hb).
  exists c. split; [exact Hc|]. rewrite Hd, Hs, Hb. vm_compute. auto.
Defined.

(** X20. No run of the script, however it ends, removes or changes a file
    that is already on disk, the manifest [resources.json] apart. *)
Theorem existing_files_kept env w p b :
  files w !! p = Some b ->
  p <> chunkPath env "resources.json" ->
  files (world (main env w)) !! p = Some b.
Proof.
  intros Hp Hne. unfold main.
  destruct (packageVersion env) as [version|]; [|exact Hp].
  unfold downloadFile.
  destruct (fetch env _) as [msg|r]; [exact Hp|].
  destruct (ok r); [|exact Hp].
  cbn [files log announce]. rewrite lookup_insert_eq. cbn [mbind option_bind].
  assert (Hp' : forall con fet,
            files {| files := <[chunkPath env "resources.json" := body r]>
                                (files w);
                     console := con; fetched := fet |} !! p = Some b).
  { intros con fet. cbn [files]. now rewrite lookup_insert_ne. }
  destruct (json (body r)) as [resources|]; [|apply (Hp' [] [])].
  match goal with
  | |- context [chunkLoop env ?base ?hs (?c0, ?w0)] =>
      pose proof (chunkLoop_keeps env base hs p b c0 w0 (Hp' _ _)) as Hk;
      destruct (chunkLoop env base hs (c0, w0)) as [c' w']
  end.
  cbn [world]. rewrite report_files. exact Hk.
Qed.

Lemma existing_files_kept_witness :
  files (world (main online stocked)) !! "public/models/aaaa"
  = Some {| byteLength := 7; json := None |}.
Proof.
  apply (existing_files_kept online stocked "public/models/aaaa");
    [vm_compute; reflexivity | vm_compute; discriminate].
Defined.

(** The disk after a run that gets its manifest. *)
Lemma disk_after env w version r resources :
  packageVersion env = Some version ->
  fetch env (chunkUrl (getBaseUrl version) "resources.json") = Fulfilled r ->
  ok r = true ->
  json (body r) = Some resources ->
  let baseUrl := getBaseUrl version in
  let w1 := withManifest env (chunkUrl baseUrl "resources.json") (body r) w in
  let disk := files (world (main env w)) in
  disk !! chunkPath env "resources.json" = Some (body r)
  /\ forall h, In h (allChunks resources) ->
       disk !! chunkPath env h
       = match files w1 !! chunkPath env h with
         | Some b => Some b
         | None => bodyOf env (chunkUrl baseUrl h)
         end.
Proof.
  intros Hv Hfetch Hok Hjson baseUrl w1 disk.
  destruct (FetcherFacts.main_with_manifest env w version r resources
              Hv Hfetch Hok Hjson) as (w0 & Hfiles & _ & E).
  subst disk. rewrite E. cbn [world]. rewrite report_files.
  fold baseUrl. fold baseUrl w1 in Hfiles. set (hashes := allChunks resources).
  assert (Hkeep : forall p b, files w1 !! p = Some b ->
            files (chunkLoop env baseUrl hashes (noCounters, w0)).2 !! p
            = Some b).
  { intros p b Hp. apply chunkLoop_keeps. now rewrite Hfiles. }
  split.
  { apply Hkeep. unfold w1, withManifest. cbn [files].
    apply lookup_insert_eq. }
  intros h Hh.
  destruct (files w1 !! chunkPath env h) as [b|] eqn:Hb; [now apply Hkeep|].
  destruct (chunkLoop_exact env baseUrl hashes
              (FetcherFacts.allChunks_NoDup resources) noCounters w0)
    as (_ & _ & _ & Hin & Hout).
  rewrite (FetcherFacts.missing_files env w0 w1 hashes Hfiles) in Hin, Hout.
  assert (Hm : In h (missing env w1 hashes)).
  { unfold missing. apply filter_In. split; [exact Hh|].
    unfold existsSync. rewrite Hb. apply negb_true_iff, bool_decide_eq_false.
    now intros [? ?]. }
  destruct (fetchFails env (chunkUrl baseUrl h)) eqn:Hfail.
  - rewrite (bodyOf_fails _ _ Hfail), Hout, Hfiles; [exact Hb|].
    intros h' Hh' E'. apply FetcherFacts.chunkPath_inj in E'. subst h'.
    unfold succeeding in Hh'. apply filter_In in Hh' as [_ Hh'].
    rewrite Hfail in Hh'. discriminate.
  - apply Hin. unfold succeeding. apply filter_In. split; [exact Hm|].
    now rewrite Hfail.
Qed.

(** X21. The disk after a run that gets its manifest: the manifest is
    stored, and for every chunk of the manifest, a file that was there is
    kept, a chunk that was missing and whose download succeeds is stored
    with the content received, and a chunk whose download fails leaves no
    file. *)
Theorem chunks_on_disk env w version r resources :
  packageVersion env = Some version ->
  fetch env (chunkUrl (getBaseUrl version) "resources.json") = Fulfilled r ->
  ok r = true ->
  json (body r) = Some resources ->
  let baseUrl := getBaseUrl version in
  let w1 := withManifest env (chunkUrl baseUrl "resources.json") (body r) w in
  let disk := files (world (main env w)) in
  disk !! chunkPath env "resources.json" = Some (body r)
  /\ forall h, In h (allChunks resources) ->
       disk !! chunkPath env h
       = match files w1 !! chunkPath env h with
         | Some b => Some b
         | None => bodyOf env (chunkUrl baseUrl h)
         end.
Proof. apply disk_after. Qed.

Lemma chunks_on_disk_witness :
  let disk := files (world (main online stocked)) in
  disk !! "public/models/aaaa" = Some {| byteLength := 7; json := None |}
  /\ disk !! "public/models/bbbb" = None
  /\ disk !! "public/models/cccc" = Some {| byteLength := 1024; json := None |}.
Proof.
  destruct (chunks_on_disk online stocked "1.4.5" _ manifest
              eq_refl eq_refl eq_refl eq_refl) as (_ & H).
  cbv zeta. split; [|split].
  - change "public/models/aaaa" with (chunkPath online "aaaa").
    rewrite H; [vm_compute; reflexivity | vm_compute; auto].
  - change "public/models/bbbb" with (chunkPath online "bbbb").
    rewrite H; [vm_compute; reflexivity | vm_compute; auto].
  - change "public/models/cccc" with (chunkPath online "cccc").
    rewrite H; [vm_compute; reflexivity | vm_compute; auto].
Defined.

(** *** Running the script again *)

Lemma filter_filter {A} (f g : A -> bool) l :
  List.filter f (List.filter g l) = List.filter (fun x => g x && f x) l.
Proof.
  induction l as [|x l IH]; [reflexivity|]. simpl.
  destruct (g x); simpl; [destruct (f x)|]; now rewrite IH.
Qed.

Lemma succeeding_failing env baseUrl hs :
  succeeding env baseUrl (failing env baseUrl hs) = [].
Proof.
  unfold succeeding, failing. rewrite filter_filter.
  induction hs as [|h hs IH]; [reflexivity|]. simpl.
  now destruct (fetchFails env (chunkUrl baseUrl h)).
Qed.

Lemma failing_failing env baseUrl hs :
  failing env baseUrl (failing env baseUrl hs) = failing env baseUrl hs.
Proof.
  unfold failing. rewrite filter_filter. apply filter_ext. intros h.
  now destruct (fetchFails env (chunkUrl baseUrl h)).
Qed.

(** X22. Running the script a second time against the same network,
    after a run that got its manifest: the second run downloads no chunk
    and changes nothing on disk; it skips every chunk the first run had
    skipped or downloaded and fails on the chunks on which the first had
    failed. *)
Theorem second_run env w version r resources :
  packageVersion env = Some version ->
  fetch env (chunkUrl (getBaseUrl version) "resources.json") = Fulfilled r ->
  ok r = true ->
  json (body r) = Some resources ->
  let first := main env w in
  let second := main env (world first) in
  exitCode second = 0%Z
  /\ files (world second) = files (world first)
  /\ exists c1 c2,
       counters first = Some c1
       /\ counters second = Some c2
       /\ downloaded c2 = 0%nat
       /\ skipped c2 = (downloaded c1 + skipped c1)%nat
       /\ failed c2 = failed c1.
Proof.
  intros Hv Hfetch Hok Hjson first second.
  set (baseUrl := getBaseUrl version) in *.
  set (hashes := allChunks resources).
  set (url := chunkUrl baseUrl "resources.json") in *.
  pose proof (FetcherFacts.allChunks_NoDup resources) as Hnd.
  fold hashes in Hnd.
  (* the first run *)
  destruct (disk_after env w version r resources Hv Hfetch Hok Hjson)
    as (Hman & Hdisk).
  destruct (FetcherFacts.main_with_manifest env w version r resources
              Hv Hfetch Hok Hjson) as (w0 & Hfiles0 & _ & E1).
  fold baseUrl hashes url in Hfiles0, E1, Hman, Hdisk.
  set (w1 := withManifest env url (body r) w) in *.
  destruct (FetcherFacts.chunkLoop_done env baseUrl hashes Hnd noCounters w0)
    as (_ & Hfail1 & Hsum1 & _).
  rewrite (FetcherFacts.missing_files env w0 w1 hashes Hfiles0) in Hfail1.
  set (ms1 := missing env w1 hashes) in *.
  fold first in Hman, Hdisk, E1.
  (* the second run *)
  destruct (FetcherFacts.main_with_manifest env (world first) version r
              resources Hv Hfetch Hok Hjson) as (w2 & Hfiles2 & _ & E2).
  fold baseUrl hashes url second in Hfiles2, E2.
  assert (Hsame : files w2 = files (world first)).
  { rewrite Hfiles2. unfold withManifest. cbn [files].
    now apply insert_id. }
  assert (Hms2 : missing env w2 hashes = failing env baseUrl ms1).
  { unfold ms1, failing, missing. rewrite filter_filter.
    apply filter_ext_in. intros h Hh. unfold existsSync at 1.
    rewrite Hsame, (Hdisk h Hh). unfold existsSync.
    destruct (files w1 !! chunkPath env h) as [b|] eqn:Hb.
    - rewrite !bool_decide_eq_true_2 by eauto. reflexivity.
    - rewrite (bool_decide_eq_false_2 (is_Some None))
        by (now intros [? ?]).
      cbn [negb andb].
      destruct (fetchFails env (chunkUrl baseUrl h)) eqn:Hfail.
      + rewrite (bodyOf_fails _ _ Hfail).
        rewrite bool_decide_eq_false_2 by (now intros [? ?]). reflexivity.
      + destruct (bodyOf_succeeds _ _ Hfail) as (r' & _ & _ & ->).
        rewrite bool_decide_eq_true_2 by eauto. reflexivity. }
  destruct (chunkLoop_exact env baseUrl hashes Hnd noCounters w2)
    as (Hd2 & _ & _ & _ & Hout2).
  destruct (FetcherFacts.chunkLoop_done env baseUrl hashes Hnd noCounters w2)
    as (_ & Hfail2 & Hsum2 & _).
  rewrite Hms2 in Hd2, Hout2, Hfail2.
  rewrite succeeding_failing in Hd2, Hout2.
  rewrite failing_failing in Hfail2.
  split; [now rewrite E2|]. split.
  - rewrite E2. cbn [world]. rewrite report_files, <- Hsame.
    apply map_eq. intros p. apply Hout2. intros h [].
  - rewrite E1, E2. cbn [counters]. do 2 eexists.
    split; [reflexivity|]. split; [reflexivity|].
    cbn [noCounters downloaded skipped failed length] in *. lia.
Qed.

Lemma second_run_witness :
  let first := main online emptyWorld in
  let second := main online (world first) in
  exitCode second = 0%Z
  /\ files (world second) = files (world first)
  /\ exists c1 c2,
       counters first = Some c1
       /\ counters second = Some c2
       /\ downloaded c2 = 0%nat
       /\ skipped c2 = (downloaded c1 + skipped c1)%nat
       /\ failed c2 = failed c1.
Proof.
  exact (second_run online emptyWorld "1.4.5" _ manifest
           eq_refl eq_refl eq_refl eq_refl).
Defined.

End DiskFacts.
